(** * VoidEngine: the streaming analytics core of oracle-voice

    A shallow embedding of the two [VoidEngine] classes of [src/index.tsx]
    (the two [void-engine] modules concatenated there), written once and
    parameterised by [variant] wherever the two files differ.

    JavaScript numbers are kept behind the interface [Number]; it is
    instantiated with IEEE 754 binary64 (Rocq's primitive floats, which
    is what the engine runs on). *)

From Stdlib Require Import ZArith Lia String List Bool.
From Stdlib Require Import Floats.FloatClass Floats.PrimFloat Floats.SpecFloat Floats.FloatOps
  Floats.FloatAxioms.
From stdpp Require Import base option list gmap.

Local Open Scope string_scope.
Local Open Scope list_scope.
Local Open Scope nat_scope.

(** ** JavaScript numbers *)

(** The operations on [number] that the engine uses.  [lit m k] is the
    decimal literal [m * 10^-k] of the source text (so [2.0] is [lit 2 0]
    and [0.35] is [lit 35 2]); [ltb a b] is [a < b]
    (and [b > a]); [strict_eq] is [===]; [same_value_zero] is the key
    comparison of [Map]; [truthy] is the coercion made by [||];
    [nmax]/[nmin] are [Math.max]/[Math.min] on two arguments. *)
Class Number (num : Type) := {
  lit : Z -> nat -> num;
  nadd : num -> num -> num;
  nsub : num -> num -> num;
  nmul : num -> num -> num;
  ndiv : num -> num -> num;
  nabs : num -> num;
  ltb : num -> num -> bool;
  strict_eq : num -> num -> bool;
  same_value_zero : num -> num -> bool;
  truthy : num -> bool;
  nmax : num -> num -> num;
  nmin : num -> num -> num
}.

(** [Math.sqrt], needed by the regime classifier only. *)
Class Sqrt (num : Type) := nsqrt : num -> num.

(** [a > b] *)
Definition gtb {num} `{Number num} (a b : num) : bool := ltb b a.

(** *** binary64 *)

(** The integer [m] as a double (exact below 2^53). *)
Definition float_of_Z (m : Z) : float :=
  SF2Prim (binary_normalize prec emax m 0 false).

(** A decimal literal denotes the double nearest to it; for the literals
    of the source, [m] and [10^k] are exact doubles and the division is
    correctly rounded, so the quotient is that double. *)
Definition float_lit (m : Z) (k : nat) : float :=
  PrimFloat.div (float_of_Z m) (float_of_Z (10 ^ Z.of_nat k)).

Definition float_same_value_zero (a b : float) : bool :=
  PrimFloat.eqb a b || (PrimFloat.is_nan a && PrimFloat.is_nan b).

Definition float_truthy (a : float) : bool :=
  negb (PrimFloat.eqb a PrimFloat.zero || PrimFloat.is_nan a).

Definition float_is_neg_zero (a : float) : bool :=
  match PrimFloat.classify a with NZero => true | _ => false end.

(** [Math.max(a, b)]: NaN if either is NaN, and +0 above -0. *)
Definition float_max (a b : float) : float :=
  if PrimFloat.is_nan a then a
  else if PrimFloat.is_nan b then b
  else if PrimFloat.ltb a b then b
  else if PrimFloat.ltb b a then a
  else if float_is_neg_zero a then b else a.

(** [Math.min(a, b)]: NaN if either is NaN, and -0 below +0. *)
Definition float_min (a b : float) : float :=
  if PrimFloat.is_nan a then a
  else if PrimFloat.is_nan b then b
  else if PrimFloat.ltb a b then a
  else if PrimFloat.ltb b a then b
  else if float_is_neg_zero a then a else b.

#[export] Instance float_Number : Number float := {
  lit := float_lit;
  nadd := PrimFloat.add;
  nsub := PrimFloat.sub;
  nmul := PrimFloat.mul;
  ndiv := PrimFloat.div;
  nabs := PrimFloat.abs;
  ltb := PrimFloat.ltb;
  strict_eq := PrimFloat.eqb;
  same_value_zero := float_same_value_zero;
  truthy := float_truthy;
  nmax := float_max;
  nmin := float_min
}.

#[export] Instance float_Sqrt : Sqrt float := PrimFloat.sqrt.

(** ** Data model *)

(** The two source files of the engine. *)
Inductive variant := VariantA | VariantB.

(** References to [titans] arrays in the JavaScript heap. *)
Definition loc := positive.

(** Completion of a statement sequence: it ran to its end, or an exception
    left it early; either way the state reached is kept. *)
Inductive completion (A : Type) :=
  | Normal (a : A)
  | Thrown (a : A).
Arguments Normal {A} a.
Arguments Thrown {A} a.

Section Engine.
Context {num : Type} `{Number num}.

(** The third field of a display row is a string: either a literal or
    [x.toFixed(digits)], kept as the number and the digit count. *)
Inductive titan_value :=
  | Text (s : string)
  | Fixed (x : num) (digits : nat).

Record TitanStatus := {
  name : string;
  value : titan_value;
  active : bool
}.

Record VoidState := {
  price : num;
  void_elasticity : num;
  void_pressure : num;
  void_kinetic : num;
  domain_state : string;
  signal : string;
  monolith_stars : nat;
  titans : loc
}.

(** An element of [this.trades]. *)
Record Trade := {
  tr_p : num;
  tr_q : num;
  tr_b : bool;
  tr_t : num
}.

(** [Map<number, number>]: entries in insertion order, keys compared with
    SameValueZero.  (A stored key -0 is kept as given; the engine only
    ever looks keys up again, which SameValueZero does not distinguish.) *)
Definition JsMap := list (num * num).

Fixpoint map_get (k : num) (m : JsMap) : option num :=
  match m with
  | [] => None
  | (k', v') :: r => if same_value_zero k' k then Some v' else map_get k r
  end.

Definition map_has (k : num) (m : JsMap) : bool :=
  match map_get k m with Some _ => true | None => false end.

Fixpoint map_set (k v : num) (m : JsMap) : JsMap :=
  match m with
  | [] => [(k, v)]
  | (k', v') :: r =>
      if same_value_zero k' k then (k', v) :: r else (k', v') :: map_set k v r
  end.

Definition map_delete (k : num) (m : JsMap) : JsMap :=
  List.filter (fun e => negb (same_value_zero (fst e) k)) m.

Definition map_size (m : JsMap) : nat := length m.
Definition map_keys (m : JsMap) : list num := map fst m.

(** The engine object.  [onUpdate] records whether a callback is
    registered; the transport handle and the symbol are left out. *)
Record VoidEngine := {
  state : VoidState;
  trades : list Trade;
  book_bids : JsMap;
  book_asks : JsMap;
  imbalance_hist : list num;
  onUpdate : bool
}.

(** The arrays that [titans] fields point to. *)
Abbreviation heap := (gmap loc (list TitanStatus)).

(** *** field assignments *)

Definition set_price (x : num) (s : VoidState) : VoidState :=
  {| price := x; void_elasticity := void_elasticity s;
     void_pressure := void_pressure s; void_kinetic := void_kinetic s;
     domain_state := domain_state s; signal := signal s;
     monolith_stars := monolith_stars s; titans := titans s |}.

Definition set_void_elasticity (x : num) (s : VoidState) : VoidState :=
  {| price := price s; void_elasticity := x;
     void_pressure := void_pressure s; void_kinetic := void_kinetic s;
     domain_state := domain_state s; signal := signal s;
     monolith_stars := monolith_stars s; titans := titans s |}.

Definition set_void_pressure (x : num) (s : VoidState) : VoidState :=
  {| price := price s; void_elasticity := void_elasticity s;
     void_pressure := x; void_kinetic := void_kinetic s;
     domain_state := domain_state s; signal := signal s;
     monolith_stars := monolith_stars s; titans := titans s |}.

Definition set_void_kinetic (x : num) (s : VoidState) : VoidState :=
  {| price := price s; void_elasticity := void_elasticity s;
     void_pressure := void_pressure s; void_kinetic := x;
     domain_state := domain_state s; signal := signal s;
     monolith_stars := monolith_stars s; titans := titans s |}.

Definition set_domain_state (x : string) (s : VoidState) : VoidState :=
  {| price := price s; void_elasticity := void_elasticity s;
     void_pressure := void_pressure s; void_kinetic := void_kinetic s;
     domain_state := x; signal := signal s;
     monolith_stars := monolith_stars s; titans := titans s |}.

Definition set_signal (x : string) (s : VoidState) : VoidState :=
  {| price := price s; void_elasticity := void_elasticity s;
     void_pressure := void_pressure s; void_kinetic := void_kinetic s;
     domain_state := domain_state s; signal := x;
     monolith_stars := monolith_stars s; titans := titans s |}.

Definition set_monolith_stars (x : nat) (s : VoidState) : VoidState :=
  {| price := price s; void_elasticity := void_elasticity s;
     void_pressure := void_pressure s; void_kinetic := void_kinetic s;
     domain_state := domain_state s; signal := signal s;
     monolith_stars := x; titans := titans s |}.

Definition set_titans (x : loc) (s : VoidState) : VoidState :=
  {| price := price s; void_elasticity := void_elasticity s;
     void_pressure := void_pressure s; void_kinetic := void_kinetic s;
     domain_state := domain_state s; signal := signal s;
     monolith_stars := monolith_stars s; titans := x |}.

Definition with_state (s : VoidState) (e : VoidEngine) : VoidEngine :=
  {| state := s; trades := trades e; book_bids := book_bids e;
     book_asks := book_asks e; imbalance_hist := imbalance_hist e;
     onUpdate := onUpdate e |}.

Definition with_trades (l : list Trade) (e : VoidEngine) : VoidEngine :=
  {| state := state e; trades := l; book_bids := book_bids e;
     book_asks := book_asks e; imbalance_hist := imbalance_hist e;
     onUpdate := onUpdate e |}.

Definition with_book_bids (m : JsMap) (e : VoidEngine) : VoidEngine :=
  {| state := state e; trades := trades e; book_bids := m;
     book_asks := book_asks e; imbalance_hist := imbalance_hist e;
     onUpdate := onUpdate e |}.

Definition with_book_asks (m : JsMap) (e : VoidEngine) : VoidEngine :=
  {| state := state e; trades := trades e; book_bids := book_bids e;
     book_asks := m; imbalance_hist := imbalance_hist e;
     onUpdate := onUpdate e |}.

Definition with_imbalance_hist (l : list num) (e : VoidEngine) : VoidEngine :=
  {| state := state e; trades := trades e; book_bids := book_bids e;
     book_asks := book_asks e; imbalance_hist := l;
     onUpdate := onUpdate e |}.

(** ** Array helpers *)

(** [l.push(x); if (l.length > cap) l.shift()] *)
Definition push_capped {A} (cap : nat) (x : A) (l : list A) : list A :=
  let l' := l ++ [x] in
  if cap <? length l' then tail l' else l'.

(** [l.slice(-n)] *)
Definition slice_last {A} (n : nat) (l : list A) : list A :=
  skipn (length l - n) l.

(** [l.reduce((sum, t) => sum + t.q, 0)] *)
Definition sum_q (l : list Trade) : num :=
  fold_left (fun sum t => nadd sum (tr_q t)) l (lit 0 0).

(** ** processTrade *)

(** [slice(-20)] in the first file, [slice(-15)] in the second. *)
Definition micro_window (v : variant) : nat :=
  match v with VariantA => 20 | VariantB => 15 end.

(** [t_now] is the reading of [Date.now() / 1000] made by the call. *)
Definition processTrade (v : variant) (t_now : num)
    (p q : num) (is_buyer_maker : bool) (e : VoidEngine) : VoidEngine :=
  let is_buyer := negb is_buyer_maker in
  let s1 := set_price p (state e) in
  let trades' :=
    push_capped 1000 {| tr_p := p; tr_q := q; tr_b := is_buyer; tr_t := t_now |}
                (trades e) in
  (* CTD (Kinetic) *)
  let recent := List.filter (fun t => gtb (tr_t t) (nsub t_now (lit 3 0))) trades' in
  let buy_vol := sum_q (List.filter (fun t => tr_b t) recent) in
  let sell_vol := sum_q (List.filter (fun t => negb (tr_b t)) recent) in
  let s2 := set_void_kinetic (nsub buy_vol sell_vol) s1 in
  (* LQ (Elasticity) *)
  let micro := slice_last (micro_window v) trades' in
  let s3 :=
    match micro with
    | first :: _ :: _ =>
        let micro_price_delta := nsub (tr_p (List.last micro first)) (tr_p first) in
        let micro_vol := sum_q micro in
        if gtb micro_vol (lit 1 2)
        then set_void_elasticity
               (nmul (ndiv micro_price_delta micro_vol) (lit 10000 0)) s2
        else match v with
             | VariantA => s2
             | VariantB => set_void_elasticity (lit 0 0) s2
             end
    | _ => s2
    end in
  with_trades trades' (with_state s3 e).

(** ** processBook *)

(** One [[p, q]] pair of a depth message, after [parseFloat] on both. *)
Definition apply_update (m : JsMap) (u : num * num) : JsMap :=
  let '(p, qty) := u in
  if strict_eq qty (lit 0 0) then map_delete p m else map_set p qty m.

(** [Math.max(...keys)] and [Math.min(...keys)] of a non-empty key list. *)
Definition math_max (k : num) (ks : list num) : num := fold_left nmax ks k.
Definition math_min (k : num) (ks : list num) : num := fold_left nmin ks k.

(** [m.get(k) || 0] *)
Definition get_or_zero (k : num) (m : JsMap) : num :=
  match map_get k m with
  | Some x => if truthy x then x else lit 0 0
  | None => lit 0 0
  end.

(** The top-of-book ratio. *)
Definition pressure_ratio (l1_bid_vol l1_ask_vol : num) : num :=
  let denominator := nadd l1_bid_vol l1_ask_vol in
  if gtb denominator (lit 0 0)
  then ndiv (nsub l1_bid_vol l1_ask_vol) denominator
  else lit 0 0.

(** An entry of [data.b] or [data.a]: [Some (p, q)] when it can be
    destructured by [[p, q]], [p] and [q] after [parseFloat]; [None] when
    it is not iterable (null, a number, a plain object), in which case
    the destructuring throws. *)
Abbreviation entry := (option (num * num)).

(** [entries.forEach(([p, q]) => { ... })] on one side's map: the pairs
    are applied in order, and an entry that cannot be destructured
    throws, the pairs before it staying applied. *)
Fixpoint forEach_update (entries : list entry) (m : JsMap) : completion JsMap :=
  match entries with
  | [] => Normal m
  | Some u :: rest => forEach_update rest (apply_update m u)
  | None :: _ => Thrown m
  end.

(** A side is [None] when [data.b] / [data.a] is not an array, in which
    case [forEach] throws.  The guard [size === 0] and the spread into
    [Math.max] / [Math.min] are read off the key lists together. *)
Definition processBook (bids asks : option (list entry))
    (e : VoidEngine) : completion VoidEngine :=
  match bids with
  | None => Thrown e
  | Some bs =>
      match forEach_update bs (book_bids e) with
      | Thrown m => Thrown (with_book_bids m e)
      | Normal m =>
          let e1 := with_book_bids m e in
          match asks with
          | None => Thrown e1
          | Some sells =>
              match forEach_update sells (book_asks e1) with
              | Thrown m' => Thrown (with_book_asks m' e1)
              | Normal m' =>
                  let e2 := with_book_asks m' e1 in
                  match map_keys (book_bids e2), map_keys (book_asks e2) with
                  | kb :: kbs, ka :: kas =>
                      let best_bid := math_max kb kbs in
                      let best_ask := math_min ka kas in
                      let l1_bid_vol := get_or_zero best_bid (book_bids e2) in
                      let l1_ask_vol := get_or_zero best_ask (book_asks e2) in
                      (* OBI (Pressure) *)
                      let ratio := pressure_ratio l1_bid_vol l1_ask_vol in
                      let e3 := with_state (set_void_pressure ratio (state e2)) e2 in
                      Normal (with_imbalance_hist
                                (push_capped 120 ratio (imbalance_hist e3)) e3)
                  | _, _ => Normal e2
                  end
              end
          end
      end
  end.

(** ** updateRegime *)

Definition regime_low (v : variant) : string :=
  match v with VariantA => "STAGNATION" | VariantB => "STAGNANT" end.
Definition regime_mid (v : variant) : string :=
  match v with VariantA => "EQUILIBRIUM" | VariantB => "STABLE" end.
Definition regime_high (v : variant) : string :=
  match v with VariantA => "VOLATILITY" | VariantB => "VOLATILE" end.

(** 0.1 in both files. *)
Definition low_threshold (v : variant) : num := lit 1 1.
(** 0.35 in the first file, 0.4 in the second. *)
Definition high_threshold (v : variant) : num :=
  match v with VariantA => lit 35 2 | VariantB => lit 4 1 end.

(** The three-way [if] on [volatility]. *)
Definition classify (v : variant) (volatility : num) : string :=
  if ltb volatility (low_threshold v) then regime_low v
  else if ltb volatility (high_threshold v) then regime_mid v
  else regime_high v.

Context `{Sqrt num}.

(** [Math.sqrt] of the population variance; [Math.pow(x, 2)] is [x * x]. *)
Definition volatility_of (hist : list num) : num :=
  let n := lit (Z.of_nat (length hist)) 0 in
  let mean := ndiv (fold_left (fun a b => nadd a b) hist (lit 0 0)) n in
  let variance :=
    ndiv (fold_left (fun a b => nadd a (nmul (nsub b mean) (nsub b mean)))
                    hist (lit 0 0)) n in
  nsqrt variance.

Definition updateRegime (v : variant) (e : VoidEngine) : VoidEngine :=
  if 10 <? length (imbalance_hist e)
  then with_state
         (set_domain_state (classify v (volatility_of (imbalance_hist e)))
                           (state e)) e
  else e.

(** ** calculateMonolith *)

(** [this.state.titans = [ ... ]] stores a reference to a new array. *)
Definition alloc (rows : list TitanStatus) (h : heap) : loc * heap :=
  let l := fresh (dom h) in (l, <[l := rows]> h).

(** The first file: five factors, star-count verdict. *)
Definition calculateMonolithA (s : VoidState) (h : heap) : VoidState * heap :=
  let k := void_kinetic s in
  let p := void_pressure s in
  let e := void_elasticity s in
  let d := domain_state s in
  let stars := 0 in
  (* 1. CTD > Threshold *)
  let ctd_active := gtb (nabs k) (lit 50 0) in
  let stars := if ctd_active then S stars else stars in
  (* 2. OBI > Threshold *)
  let obi_active := gtb (nabs p) (lit 3 1) in
  let stars := if obi_active then S stars else stars in
  (* 3. LQ > Threshold *)
  let lq_active := gtb (nabs e) (lit 2 0) in
  let stars := if lq_active then S stars else stars in
  (* 4. Regime Valid (Volatility) *)
  let regime_active := String.eqb d "VOLATILITY" in
  let stars := if regime_active then S stars else stars in
  (* 5. Whale Absorption *)
  let wa_active :=
    (gtb k (lit 0 0) && gtb p (lit 0 0)) || (ltb k (lit 0 0) && ltb p (lit 0 0)) in
  let stars := if wa_active then S stars else stars in
  let s1 := set_monolith_stars stars s in
  let '(l, h1) :=
    alloc [ {| name := "CTD (Kinetic)"; value := Fixed k 1; active := ctd_active |};
            {| name := "OBI (Pressure)"; value := Fixed p 2; active := obi_active |};
            {| name := "LQ  (Elasticity)"; value := Fixed e 2; active := lq_active |};
            {| name := "BASIS"; value := Text "0.01%"; active := true |};
            {| name := "WA  (Whale)";
               value := Text (if wa_active then "DETECTED" else "---");
               active := wa_active |} ] h in
  let s2 := set_titans l s1 in
  (* Verdict *)
  let s3 :=
    if 4 <=? stars then
      if gtb k (lit 0 0) then set_signal "EXECUTE LONG" s2
      else set_signal "EXECUTE SHORT" s2
    else if stars =? 3 then set_signal "PREPARE" s2
    else set_signal "STANDBY" s2 in
  (s3, h1).

(** The second file: four factors, trap/break guards. *)
Definition calculateMonolithB (s : VoidState) (h : heap) : VoidState * heap :=
  let k := void_kinetic s in
  let p := void_pressure s in
  let e := void_elasticity s in
  let stars := 0 in
  let ctd_active := gtb (nabs k) (lit 50 0) in
  let stars := if ctd_active then S stars else stars in
  let obi_active := gtb (nabs p) (lit 3 1) in
  let stars := if obi_active then S stars else stars in
  let lq_active := gtb (nabs e) (lit 2 0) in
  let stars := if lq_active then S stars else stars in
  (* Regime Check *)
  let regime_active := String.eqb (domain_state s) "VOLATILE" in
  let stars := if regime_active then S stars else stars in
  let s1 := set_monolith_stars stars s in
  (* Signal Logic *)
  let s2 :=
    if gtb k (lit 50 0) && ltb e (lit 5 1) then set_signal "SHORT (TRAP)" s1
    else if gtb k (lit 50 0) && gtb e (lit 2 0) then set_signal "LONG (BREAK)" s1
    else if ltb k (lit (-50) 0) && gtb e (lit (-5) 1) then set_signal "LONG (TRAP)" s1
    else if ltb k (lit (-50) 0) && ltb e (lit (-2) 0) then set_signal "SHORT (BREAK)" s1
    else set_signal "OBSERVE" s1 in
  (* Titans for UI *)
  let '(l, h1) :=
    alloc [ {| name := "CTD (Kinetic)"; value := Fixed k 1; active := ctd_active |};
            {| name := "OBI (Pressure)"; value := Fixed p 2; active := obi_active |};
            {| name := "LQ  (Elasticity)"; value := Fixed e 2; active := lq_active |};
            {| name := "BASIS"; value := Text "---"; active := false |};
            {| name := "WA"; value := Text "---"; active := false |} ] h in
  (set_titans l s2, h1).

Definition calculateMonolith (v : variant) (s : VoidState) (h : heap)
    : VoidState * heap :=
  match v with
  | VariantA => calculateMonolithA s h
  | VariantB => calculateMonolithB s h
  end.

(** ** The message handler *)

(** What [ws.onmessage] can be handed.  [BadJson]: [event.data] is not
    JSON, [JSON.parse] throws.  [BadEnvelope]: the text parses but the
    envelope cannot be read: the parsed value is null, or [stream] has no
    [includes] method, or the stream is a trade or depth stream and
    [data] is null or absent, so that [payload.stream],
    [stream.includes], [data.p] or [data.b] throws.  [AggTrade p q m]: a
    trade print, [p] and [q] being [parseFloat(data.p)] and
    [parseFloat(data.q)], [m] the truthiness of [data.m].  [Depth b a]: a
    depth delta with the entries of [data.b] and [data.a].
    [OtherStream]: a stream name with neither substring, with or without
    [data], which is not read. *)
Inductive message :=
  | BadJson
  | BadEnvelope
  | AggTrade (p q : num) (m : bool)
  | Depth (b a : option (list entry))
  | OtherStream.

(** The tail of the handler: regime, verdict, then the callback is handed
    [{...this.state}], a new object with the same field values. *)
Definition recompute_and_publish (v : variant) (e : VoidEngine) (h : heap)
    : VoidEngine * heap * option VoidState :=
  let e1 := updateRegime v e in
  let '(s2, h2) := calculateMonolith v (state e1) h in
  let e2 := with_state s2 e1 in
  (e2, h2, if onUpdate e2 then Some (state e2) else None).

Definition onmessage (v : variant) (t_now : num) (msg : message)
    (e : VoidEngine) (h : heap) : VoidEngine * heap * option VoidState :=
  match msg with
  | BadJson => (e, h, None)
  | BadEnvelope => (e, h, None)
  | AggTrade p q m =>
      recompute_and_publish v (processTrade v t_now p q m e) h
  | Depth b a =>
      match processBook b a e with
      | Normal e1 => recompute_and_publish v e1 h
      | Thrown e1 => (e1, h, None)
      end
  | OtherStream => recompute_and_publish v e h
  end.

(** ** Construction *)

Definition init_titans (v : variant) : list TitanStatus :=
  match v with
  | VariantA =>
      [ {| name := "CTD (Kinetic)"; value := Text "0"; active := false |};
        {| name := "OBI (Pressure)"; value := Text "0.0"; active := false |};
        {| name := "LQ  (Elasticity)"; value := Text "0.0"; active := false |};
        {| name := "BASIS"; value := Text "0.0%"; active := true |};
        {| name := "WA  (Volume)"; value := Text "---"; active := false |} ]
  | VariantB => []
  end.

Definition init_loc : loc := 1%positive.

Definition init_state : VoidState :=
  {| price := lit 0 0; void_elasticity := lit 0 0; void_pressure := lit 0 0;
     void_kinetic := lit 0 0; domain_state := "CALCULATING";
     signal := "STANDBY"; monolith_stars := 0; titans := init_loc |}.

(** [new VoidEngine(onUpdate)] *)
Definition init_engine (callback : bool) : VoidEngine :=
  {| state := init_state; trades := []; book_bids := []; book_asks := [];
     imbalance_hist := []; onUpdate := callback |}.

Definition init_heap (v : variant) : heap := {[ init_loc := init_titans v ]}.

(** ** The engine with its subscriber *)

(** The engine, the arrays, and the snapshot objects handed to the
    callback so far, oldest first.  Each snapshot is an object of its own;
    its [titans] field is a reference into [w_heap]. *)
Record World := {
  w_engine : VoidEngine;
  w_heap : heap;
  w_snapshots : list VoidState
}.

(** An assignment to a field of a snapshot other than [titans]. *)
Inductive field_write :=
  | WritePrice (x : num)
  | WriteElasticity (x : num)
  | WritePressure (x : num)
  | WriteKinetic (x : num)
  | WriteDomainState (x : string)
  | WriteSignal (x : string)
  | WriteStars (x : nat).

Definition write_field (fw : field_write) (s : VoidState) : VoidState :=
  match fw with
  | WritePrice x => set_price x s
  | WriteElasticity x => set_void_elasticity x s
  | WritePressure x => set_void_pressure x s
  | WriteKinetic x => set_void_kinetic x s
  | WriteDomainState x => set_domain_state x s
  | WriteSignal x => set_signal x s
  | WriteStars x => set_monolith_stars x s
  end.

(** What can happen: the transport delivers a message, or the holder of
    snapshot [i] writes to it: [snap.f = x], [snap.titans = [ ... ]] (a
    new array), or a change of the array [snap.titans] in place
    ([push], [snap.titans[j] = r], [snap.titans[j].active = b], ...). *)
Inductive action :=
  | Deliver (t_now : num) (msg : message)
  | AssignField (i : nat) (fw : field_write)
  | AssignTitans (i : nat) (rows : list TitanStatus)
  | MutateTitans (i : nat) (f : list TitanStatus -> list TitanStatus).

Definition step (v : variant) (w : World) (a : action) : World :=
  match a with
  | Deliver t_now msg =>
      let '(e', h', pub) := onmessage v t_now msg (w_engine w) (w_heap w) in
      {| w_engine := e'; w_heap := h';
         w_snapshots := w_snapshots w ++ match pub with
                                         | Some s => [s]
                                         | None => []
                                         end |}
  | AssignField i fw =>
      {| w_engine := w_engine w; w_heap := w_heap w;
         w_snapshots := alter (write_field fw) i (w_snapshots w) |}
  | AssignTitans i rows =>
      match w_snapshots w !! i with
      | Some _ =>
          let '(l, h') := alloc rows (w_heap w) in
          {| w_engine := w_engine w; w_heap := h';
             w_snapshots := alter (set_titans l) i (w_snapshots w) |}
      | None => w
      end
  | MutateTitans i f =>
      match w_snapshots w !! i with
      | Some s =>
          {| w_engine := w_engine w; w_heap := alter f (titans s) (w_heap w);
             w_snapshots := w_snapshots w |}
      | None => w
      end
  end.

Definition run (v : variant) (w : World) (l : list action) : World :=
  fold_left (step v) l w.

Definition init_world (v : variant) (callback : bool) : World :=
  {| w_engine := init_engine callback; w_heap := init_heap v;
     w_snapshots := [] |}.

(** The states the engine and its subscriber can be in. *)
Definition reachable (v : variant) (w : World) : Prop :=
  exists callback l, w = run v (init_world v callback) l.

(** What a reader of snapshot [i] sees: its fields and the rows of the
    array its [titans] field points to. *)
Definition snapshot_view (w : World) (i : nat)
    : option (VoidState * option (list TitanStatus)) :=
  match w_snapshots w !! i with
  | Some s => Some (s, w_heap w !! titans s)
  | None => None
  end.

(** What the engine holds: its fields and the rows of [state.titans]. *)
Definition engine_view (w : World) : VoidEngine * option (list TitanStatus) :=
  (w_engine w, w_heap w !! titans (state (w_engine w))).

End Engine.

Arguments titan_value num : clear implicits.
Arguments TitanStatus num : clear implicits.
Arguments VoidState num : clear implicits.
Arguments Trade num : clear implicits.
Arguments JsMap num : clear implicits.
Arguments VoidEngine num : clear implicits.
Arguments message num : clear implicits.
Arguments World num : clear implicits.
Arguments field_write num : clear implicits.
Arguments action num : clear implicits.

(** The arrays that [titans] fields point to, by number model. *)
Abbreviation heap num := (gmap loc (list (TitanStatus num))).

(** The entries of a depth side, by number model. *)
Abbreviation entry num := (option (num * num)).

(** ** The specification's wording of the derived values *)

Section Wording.
Context {num : Type} `{Number num} `{Sqrt num}.

(** Star-count verdict: score at least 4 is an execute signal whose side
    is the sign of the net flow, score 3 is PREPARE, the rest STANDBY. *)
Definition star_count_signal (score : nat) (kinetic : num) : string :=
  match score with
  | 0 | 1 | 2 => "STANDBY"
  | 3 => "PREPARE"
  | _ => if gtb kinetic (lit 0 0) then "EXECUTE LONG" else "EXECUTE SHORT"
  end.

(** The result of a priority list of guards: the label of the first guard
    that holds, [otherwise] when none does. *)
Fixpoint first_match (guards : list (bool * string)) (otherwise : string)
    : string :=
  match guards with
  | [] => otherwise
  | (true, label) :: _ => label
  | (false, _) :: rest => first_match rest otherwise
  end.

(** The trap/break guards, in their fixed order. *)
Definition trap_break_guards (kinetic elasticity : num)
    : list (bool * string) :=
  [ (gtb kinetic (lit 50 0) && ltb elasticity (lit 5 1), "SHORT (TRAP)");
    (gtb kinetic (lit 50 0) && gtb elasticity (lit 2 0), "LONG (BREAK)");
    (ltb kinetic (lit (-50) 0) && gtb elasticity (lit (-5) 1), "LONG (TRAP)");
    (ltb kinetic (lit (-50) 0) && ltb elasticity (lit (-2) 0), "SHORT (BREAK)") ].

(** A trade lies in the trailing window: [timestamp > now - 3]. *)
Definition in_window (now : num) (t : Trade num) : bool :=
  gtb (tr_t t) (nsub now (lit 3 0)).

(** Net flow: buyer-initiated volume minus seller-initiated volume over
    the buffered trades in the window, summed in buffer order. *)
Definition net_flow (now : num) (buffer : list (Trade num)) : num :=
  nsub (sum_q (List.filter (fun t => tr_b t && in_window now t) buffer))
       (sum_q (List.filter (fun t => negb (tr_b t) && in_window now t) buffer)).

(** Micro-burst: price displacement over the given trades per unit of
    their volume, times 10000. *)
Definition micro_burst (micro : list (Trade num)) : num :=
  match micro with
  | [] => lit 0 0
  | first :: _ =>
      nmul (ndiv (nsub (tr_p (List.last micro first)) (tr_p first)) (sum_q micro))
           (lit 10000 0)
  end.

(** The 0.01 floor on the micro-window volume. *)
Definition volume_floor : num := lit 1 2.

(** What the thin-volume policy leaves in [elasticity]: the previous value
    under hold (first file), zero under resetToZero (second file). *)
Definition thin_volume_value (v : variant) (previous : num) : num :=
  match v with VariantA => previous | VariantB => lit 0 0 end.

(** Sum of samples, left to right from zero. *)
Definition total (l : list num) : num := fold_left nadd l (lit 0 0).

Definition population_mean (l : list num) : num :=
  ndiv (total l) (lit (Z.of_nat (length l)) 0).

Definition population_variance (l : list num) : num :=
  let mean := population_mean l in
  ndiv (total (map (fun x => nmul (nsub x mean) (nsub x mean)) l))
       (lit (Z.of_nat (length l)) 0).

Definition population_stddev (l : list num) : num :=
  nsqrt (population_variance l).

(** The regime as a function of the imbalance history alone. *)
Definition regime_of (v : variant) (hist : list num) : string :=
  if 10 <? length hist then
    let volatility := population_stddev hist in
    if ltb volatility (low_threshold v) then regime_low v
    else if ltb volatility (high_threshold v) then regime_mid v
    else regime_high v
  else "CALCULATING".

(** The pairs of a side that [forEach] reaches: those before the first
    entry that cannot be destructured. *)
Fixpoint reached (entries : list (entry num)) : list (num * num) :=
  match entries with
  | Some u :: rest => u :: reached rest
  | _ => []
  end.

(** Every entry of the side is a pair. *)
Definition all_pairs (entries : list (entry num)) : bool :=
  forallb (fun x => match x with Some _ => true | None => false end) entries.

(** Messages the handler abandons before its first write: text that is
    not JSON; an envelope that cannot be read; a depth delta whose bid
    side is not an array or begins with an entry that cannot be
    destructured; a depth delta whose bid side is an empty array and
    whose ask side is not an array or begins with such an entry. *)
Definition rejected_before_write (msg : message num) : bool :=
  match msg with
  | BadJson | BadEnvelope => true
  | Depth None _ => true
  | Depth (Some (None :: _)) _ => true
  | Depth (Some []) None => true
  | Depth (Some []) (Some (None :: _)) => true
  | _ => false
  end.

(** Messages that are not well-formed feed messages: text that is not
    JSON, an envelope that cannot be read, and a depth delta a side of
    which is not an array of pairs. *)
Definition malformed (msg : message num) : bool :=
  match msg with
  | BadJson | BadEnvelope => true
  | Depth (Some bs) (Some sells) => negb (all_pairs bs && all_pairs sells)
  | Depth _ _ => true
  | _ => false
  end.

(** The score is the number of active factors among the five. *)
Definition star_count_score (s : VoidState num) : nat :=
  (if gtb (nabs (void_kinetic s)) (lit 50 0) then 1 else 0) +
  (if gtb (nabs (void_pressure s)) (lit 3 1) then 1 else 0) +
  (if gtb (nabs (void_elasticity s)) (lit 2 0) then 1 else 0) +
  (if String.eqb (domain_state s) "VOLATILITY" then 1 else 0) +
  (if (gtb (void_kinetic s) (lit 0 0) && gtb (void_pressure s) (lit 0 0))
      || (ltb (void_kinetic s) (lit 0 0) && ltb (void_pressure s) (lit 0 0))
   then 1 else 0).

(** The elasticity clause as the specification words it: with at least
    two trades buffered after the call, a micro-window volume that is not
    below the floor gives the micro-burst value, and one below the floor
    gives the thin-volume value. *)
Definition elasticity_as_specified (v : variant) (t_now p q : num)
    (is_buyer_maker : bool) (e : VoidEngine num) : Prop :=
  let e' := processTrade v t_now p q is_buyer_maker e in
  let micro := slice_last (micro_window v) (trades e') in
  2 <= length (trades e') ->
  (ltb (sum_q micro) volume_floor = false ->
   void_elasticity (state e') = micro_burst micro) /\
  (ltb (sum_q micro) volume_floor = true ->
   void_elasticity (state e') = thin_volume_value v (void_elasticity (state e))).

(** The level quantity at the best bid (highest key) and at the best ask
    (lowest key), as read by [get(...) || 0]. *)
Definition best_bid_volume (m : JsMap num) : num :=
  match map_keys m with
  | k :: ks => get_or_zero (math_max k ks) m
  | [] => lit 0 0
  end.

Definition best_ask_volume (m : JsMap num) : num :=
  match map_keys m with
  | k :: ks => get_or_zero (math_min k ks) m
  | [] => lit 0 0
  end.

(** The pressure clause as the specification words it: a delta that
    leaves both sides non-empty leaves a pressure that is neither below
    -1 nor above 1. *)
Definition pressure_as_specified (bids asks : list (entry num))
    (e : VoidEngine num) : Prop :=
  forall e', processBook (Some bids) (Some asks) e = Normal e' ->
    book_bids e' <> [] -> book_asks e' <> [] ->
    ltb (void_pressure (state e')) (lit (-1) 0) = false /\
    ltb (lit 1 0) (void_pressure (state e')) = false.

(** The key comparison of [Map] is an equivalence. *)
Record key_equivalence : Prop := {
  key_refl : forall k : num, same_value_zero k k = true;
  key_sym : forall a b : num, same_value_zero a b = same_value_zero b a;
  key_trans : forall a b c : num,
      same_value_zero a b = true -> same_value_zero b c = true ->
      same_value_zero a c = true
}.

(** A write to a snapshot, as opposed to a delivery by the transport. *)
Definition snapshot_write (a : action num) : bool :=
  match a with
  | Deliver _ _ => false
  | _ => true
  end.

(** The independence clause as the specification words it: no write to a
    snapshot changes what the engine holds. *)
Definition deep_copy_as_specified (v : variant) (w : World num)
    (a : action num) : Prop :=
  snapshot_write a = true -> engine_view (step v w a) = engine_view w.

(** The drop clause as the specification words it: a malformed message
    leaves engine and arrays as they were and publishes nothing. *)
Definition drop_as_specified (v : variant) (t_now : num) (msg : message num)
    (e : VoidEngine num) (h : heap num) : Prop :=
  malformed msg = true -> onmessage v t_now msg e h = (e, h, None).

(** The array at [l] exists. *)
Definition allocated (h : heap num) (l : loc) : Prop := is_Some (h !! l).

(** Every [titans] reference points to an existing array, and no two
    snapshots share one. *)
Definition heap_inv (w : World num) : Prop :=
  allocated (w_heap w) (titans (state (w_engine w))) /\
  (forall i s, w_snapshots w !! i = Some s -> allocated (w_heap w) (titans s)) /\
  (forall i j si sj,
      w_snapshots w !! i = Some si -> w_snapshots w !! j = Some sj ->
      titans si = titans sj -> i = j).

(** What the handler does to the engine before it recomputes: the regime
    is untouched and the imbalance history is as it was or one sample
    longer (capped at 120). *)
Definition ingested (e e1 : VoidEngine num) : Prop :=
  domain_state (state e1) = domain_state (state e) /\
  (imbalance_hist e1 = imbalance_hist e \/
   exists x, imbalance_hist e1 = push_capped 120 x (imbalance_hist e)).

End Wording.

(** ** A sample feed *)

(** Twelve depth deltas whose top-of-book ratio alternates between 0.25
    and -0.25: a history of mean 0 and standard deviation 0.25. *)
Definition imbalance_quarter (bid_qty ask_qty : Z) : action float :=
  Deliver (lit 17000000005 1)
          (Depth (Some [Some (lit 27000 0, lit bid_qty 0)])
                 (Some [Some (lit 27001 0, lit ask_qty 0)])).

Definition alternating_quarters : list (action float) :=
  concat (repeat [imbalance_quarter 5 3; imbalance_quarter 3 5] 6).

(** * Further notions *)

(** ** The star bar of the first view *)

Inductive glyph := FilledStar | EmptyStar.

(** [x.repeat(count)]: a RangeError when [count] is negative. *)
Definition js_repeat (x : glyph) (count : Z) : option (list glyph) :=
  if (count <? 0)%Z then None else Some (repeat x (Z.to_nat count)).

(** The two [repeat] calls of [render] and the bar they are joined to. *)
Definition render_stars (monolith_stars : nat) : option (list glyph) :=
  match js_repeat FilledStar (Z.of_nat monolith_stars) with
  | Some filledStars =>
      match js_repeat EmptyStar (5 - Z.of_nat monolith_stars) with
      | Some emptyStars => Some (filledStars ++ emptyStars)
      | None => None
      end
  | None => None
  end.

(** ** Runs, verdicts and display rows *)

Section Notions.
Context {num : Type} `{Number num}.

(** The trade a print is buffered as. *)
Definition trade_of (t_now p q : num) (is_buyer_maker : bool) : Trade num :=
  {| tr_p := p; tr_q := q; tr_b := negb is_buyer_maker; tr_t := t_now |}.

(** The trade prints of a run, in arrival order. *)
Definition delivered_trades (l : list (action num)) : list (Trade num) :=
  flat_map (fun a => match a with
                     | Deliver t_now (AggTrade p q m) => [trade_of t_now p q m]
                     | _ => []
                     end) l.

(** The score of the second file: kinetic, pressure and elasticity above
    their thresholds, and the regime. *)
Definition four_factor_score (s : VoidState num) : nat :=
  (if gtb (nabs (void_kinetic s)) (lit 50 0) then 1 else 0) +
  (if gtb (nabs (void_pressure s)) (lit 3 1) then 1 else 0) +
  (if gtb (nabs (void_elasticity s)) (lit 2 0) then 1 else 0) +
  (if String.eqb (domain_state s) "VOLATILE" then 1 else 0).

Definition score_of (v : variant) (s : VoidState num) : nat :=
  match v with
  | VariantA => star_count_score s
  | VariantB => four_factor_score s
  end.

Definition signal_of (v : variant) (s : VoidState num) : string :=
  match v with
  | VariantA => star_count_signal (star_count_score s) (void_kinetic s)
  | VariantB =>
      first_match (trap_break_guards (void_kinetic s) (void_elasticity s))
                  "OBSERVE"
  end.

(** Whale absorption: kinetic and pressure on the same side of zero. *)
Definition whale (s : VoidState num) : bool :=
  (gtb (void_kinetic s) (lit 0 0) && gtb (void_pressure s) (lit 0 0))
  || (ltb (void_kinetic s) (lit 0 0) && ltb (void_pressure s) (lit 0 0)).

(** The display rows of a state. *)
Definition titan_rows (v : variant) (s : VoidState num) : list (TitanStatus num) :=
  [ {| name := "CTD (Kinetic)"; value := Fixed (void_kinetic s) 1;
       active := gtb (nabs (void_kinetic s)) (lit 50 0) |};
    {| name := "OBI (Pressure)"; value := Fixed (void_pressure s) 2;
       active := gtb (nabs (void_pressure s)) (lit 3 1) |};
    {| name := "LQ  (Elasticity)"; value := Fixed (void_elasticity s) 2;
       active := gtb (nabs (void_elasticity s)) (lit 2 0) |};
    match v with
    | VariantA => {| name := "BASIS"; value := Text "0.01%"; active := true |}
    | VariantB => {| name := "BASIS"; value := Text "---"; active := false |}
    end;
    match v with
    | VariantA =>
        {| name := "WA  (Whale)";
           value := Text (if whale s then "DETECTED" else "---");
           active := whale s |}
    | VariantB => {| name := "WA"; value := Text "---"; active := false |}
    end ].

(** The state with a verdict and a titans reference put in. *)
Definition judged (v : variant) (s : VoidState num) (l : loc) : VoidState num :=
  {| price := price s; void_elasticity := void_elasticity s;
     void_pressure := void_pressure s; void_kinetic := void_kinetic s;
     domain_state := domain_state s; signal := signal_of v s;
     monolith_stars := score_of v s; titans := l |}.

(** Deliveries after which the handler runs to its end: a trade print, a
    depth delta both sides of which are arrays of pairs, a message of
    another stream. *)
Definition completes (a : action num) : bool :=
  match a with
  | Deliver _ (AggTrade _ _ _) => true
  | Deliver _ (Depth (Some bs) (Some sells)) => all_pairs bs && all_pairs sells
  | Deliver _ OtherStream => true
  | _ => false
  end.

(** Changes of a titans array in place by the holder of a snapshot. *)
Definition in_place_write (a : action num) : bool :=
  match a with
  | MutateTitans _ _ => true
  | _ => false
  end.

(** The state is judged: its score, signal and rows are those of its
    metrics and regime. *)
Definition is_judged (v : variant) (s : VoidState num) : Prop :=
  monolith_stars s = score_of v s /\ signal s = signal_of v s.

(** The words and scores a state can show. *)
Definition signals (v : variant) : list string :=
  match v with
  | VariantA => ["EXECUTE LONG"; "EXECUTE SHORT"; "PREPARE"; "STANDBY"]
  | VariantB => ["STANDBY"; "SHORT (TRAP)"; "LONG (BREAK)"; "LONG (TRAP)";
                 "SHORT (BREAK)"; "OBSERVE"]
  end.

Definition regimes (v : variant) : list string :=
  ["CALCULATING"; regime_low v; regime_mid v; regime_high v].

Definition max_score (v : variant) : nat :=
  match v with VariantA => 5 | VariantB => 4 end.

(** The bid updates of a run that reach the book, in order: of every
    depth delta whose bid side is an array, the pairs before its first
    entry that cannot be destructured. *)
Definition applied_bids (l : list (action num)) : list (num * num) :=
  flat_map (fun a => match a with
                     | Deliver _ (Depth (Some bs) _) => reached bs
                     | _ => []
                     end) l.

(** The ask updates that reach the book: of every depth delta whose bid
    side is an array of pairs and whose ask side is an array, the ask
    pairs before the first entry that cannot be destructured. *)
Definition applied_asks (l : list (action num)) : list (num * num) :=
  flat_map (fun a => match a with
                     | Deliver _ (Depth (Some bs) (Some sells)) =>
                         if all_pairs bs then reached sells else []
                     | _ => []
                     end) l.

(** The quantity of the last update for price [k], if there is one. *)
Definition last_update (k : num) (updates : list (num * num)) : option num :=
  fold_left (fun found u => if same_value_zero k (fst u) then Some (snd u) else found)
            updates None.

End Notions.

(** ** Doubles *)

(** The value of a finite number in units of the smallest subnormal. *)
Definition ulps (m : positive) (e : Z) : Z :=
  (Zpos m * 2 ^ (e - emin))%Z.

(** Zero or a positive finite number. *)
Definition nonneg_finite (x : spec_float) : Prop :=
  match x with
  | S754_zero _ | S754_finite false _ _ => True
  | _ => False
  end.

(** [d] is finite and in magnitude at most the positive [s]. *)
Definition magnitude_at_most (d s : spec_float) : Prop :=
  match d, s with
  | S754_zero _, (S754_finite false _ _ | S754_infinity false) => True
  | S754_finite _ _ _, S754_infinity false => True
  | S754_finite _ md ed, S754_finite false ms es => (ulps md ed <= ulps ms es)%Z
  | _, _ => False
  end.

Definition SF_one : spec_float := S754_finite false 4503599627370496 (-52).
Definition SF_minus_one : spec_float := S754_finite true 4503599627370496 (-52).

(** Between -1 and 1. *)
Definition in_unit_interval (x : spec_float) : Prop :=
  SFleb SF_minus_one x = true /\ SFleb x SF_one = true.

(** A double that is neither negative, nor infinite, nor NaN. *)
Definition float_nonneg_finite (x : float) : bool :=
  PrimFloat.leb PrimFloat.zero x && PrimFloat.ltb x PrimFloat.infinity.

(** A level quantity as [parseFloat] can leave it and the feed sends it:
    NaN (an unreadable string), or neither negative nor infinite. *)
Definition float_quantity_ok (q : float) : bool :=
  PrimFloat.is_nan q || float_nonneg_finite q.

(** Between -1 and 1, on doubles. *)
Definition float_in_unit_interval (x : float) : bool :=
  PrimFloat.leb (-1)%float x && PrimFloat.leb x 1%float.

(** The quantities a depth side carries, in the entries that are pairs. *)
Definition side_quantities_ok (side : option (list (entry float))) : Prop :=
  match side with
  | Some entries =>
      Forall (fun x => match x with
                       | Some u => float_quantity_ok (snd u) = true
                       | None => True
                       end) entries
  | None => True
  end.

(** Every depth delta delivered carries such quantities only. *)
Definition feed_quantities_ok (a : action float) : Prop :=
  match a with
  | Deliver _ (Depth b a) => side_quantities_ok b /\ side_quantities_ok a
  | _ => True
  end.

(** Books of such quantities, and pressure and samples within [-1, 1]. *)
Definition book_sane (e : VoidEngine float) : Prop :=
  Forall (fun level => float_quantity_ok (snd level) = true) (book_bids e) /\
  Forall (fun level => float_quantity_ok (snd level) = true) (book_asks e) /\
  float_in_unit_interval (void_pressure (state e)) = true /\
  Forall (fun x => float_in_unit_interval x = true) (imbalance_hist e).

(** A number's place in the order of doubles: its value in units of the
    smallest subnormal, the infinities beyond every finite value. *)
Definition SFordinal (x : spec_float) : Z :=
  match x with
  | S754_zero _ | S754_nan => 0%Z
  | S754_infinity s =>
      if s then (- 2 ^ (emax - emin))%Z else (2 ^ (emax - emin))%Z
  | S754_finite s m e => if s then (- ulps m e)%Z else ulps m e
  end.

Definition float_ordinal (a : float) : Z := SFordinal (Prim2SF a).

(** What [get(...) || 0] makes of a stored quantity. *)
Definition quantity_or_zero (q : float) : float :=
  if truthy q then q else lit 0 0.

(** * Properties *)

(** Case analysis on every comparison the goal branches on. *)
Ltac branch_on_guard :=
  match goal with
  | |- context [ltb ?a ?b] => destruct (ltb a b)
  | |- context [String.eqb ?a ?b] => destruct (String.eqb a b)
  end.
Ltac case_guards := repeat branch_on_guard.

(** ** Literals *)

(** The decimal literals of the source denote the doubles JavaScript
    reads them as. *)
Lemma float_lit_nearest_double :
  float_lit 1 2 = 0x1.47ae147ae147bp-7%float /\
  float_lit 1 1 = 0x1.999999999999ap-4%float /\
  float_lit 3 1 = 0x1.3333333333333p-2%float /\
  float_lit 35 2 = 0x1.6666666666666p-2%float /\
  float_lit 4 1 = 0x1.999999999999ap-2%float /\
  float_lit 5 1 = 0.5%float /\
  float_lit (-5) 1 = (-0.5)%float /\
  float_lit 50 0 = 50%float /\
  float_lit 10000 0 = 10000%float.
Proof. vm_compute. repeat split. Qed.

(** ** The shape of processBook *)

Section BookShape.
Context {num : Type} `{Number num}.

(** [forEach] applies the pairs it reaches, and throws unless every entry
    is a pair. *)
Lemma forEach_update_reached (entries : list (entry num)) (m : JsMap num) :
  forEach_update entries m =
  if all_pairs entries
  then Normal (fold_left apply_update (reached entries) m)
  else Thrown (fold_left apply_update (reached entries) m).
Proof.
  revert m. induction entries as [|[u|] entries IH]; intros m; try reflexivity.
  cbn [forEach_update reached all_pairs forallb fold_left andb]. apply IH.
Qed.

Lemma forEach_update_pairs (updates : list (num * num)) (m : JsMap num) :
  forEach_update (map Some updates) m = Normal (fold_left apply_update updates m).
Proof.
  revert m. induction updates as [|u updates IH]; intros m; [reflexivity|].
  cbn [map forEach_update fold_left]. apply IH.
Qed.

Lemma all_pairs_map_Some (updates : list (num * num)) :
  all_pairs (map Some updates) = true.
Proof. induction updates as [|u updates IH]; [reflexivity | exact IH]. Qed.

Lemma reached_map_Some (updates : list (num * num)) :
  reached (map Some updates) = updates.
Proof.
  induction updates as [|u updates IH]; [reflexivity|].
  cbn [map reached]. now rewrite IH.
Qed.

Lemma processBook_shape (bids asks : option (list (entry num)))
    (e : VoidEngine num) :
  processBook bids asks e =
  match bids with
  | None => Thrown e
  | Some bs =>
      let e1 := with_book_bids
                  (fold_left apply_update (reached bs) (book_bids e)) e in
      if all_pairs bs then
        match asks with
        | None => Thrown e1
        | Some sells =>
            let e2 := with_book_asks
                        (fold_left apply_update (reached sells) (book_asks e1))
                        e1 in
            if all_pairs sells then
              match map_keys (book_bids e2), map_keys (book_asks e2) with
              | kb :: kbs, ka :: kas =>
                  let ratio :=
                    pressure_ratio
                      (get_or_zero (math_max kb kbs) (book_bids e2))
                      (get_or_zero (math_min ka kas) (book_asks e2)) in
                  let e3 := with_state (set_void_pressure ratio (state e2)) e2 in
                  Normal (with_imbalance_hist
                            (push_capped 120 ratio (imbalance_hist e3)) e3)
              | _, _ => Normal e2
              end
            else Thrown e2
        end
      else Thrown e1
  end.
Proof.
  unfold processBook. destruct bids as [bs|]; [|reflexivity].
  rewrite forEach_update_reached. destruct (all_pairs bs); [|reflexivity].
  destruct asks as [sells|]; [|reflexivity].
  cbn [book_asks with_book_bids].
  rewrite forEach_update_reached. destruct (all_pairs sells); reflexivity.
Qed.

End BookShape.

(** Case analysis on the path [processBook] takes. *)
Ltac book_paths :=
  rewrite processBook_shape; cbv zeta;
  repeat match goal with
         | |- context [match ?b with Some _ => _ | None => _ end] => destruct b
         | |- context [if all_pairs ?l then _ else _] => destruct (all_pairs l)
         | |- context [match ?x with [] => _ | _ :: _ => _ end] => destruct x
         end.

Section Theory.
Context {num : Type} `{Number num} `{Sqrt num}.

(** ** Runs *)

Lemma run_app (v : variant) (w : World num) (l1 l2 : list (action num)) :
  run v w (l1 ++ l2) = run v (run v w l1) l2.
Proof. unfold run. apply fold_left_app. Qed.

Lemma run_snoc (v : variant) (w : World num) (l : list (action num)) (a : action num) :
  run v w (l ++ [a]) = step v (run v w l) a.
Proof. rewrite run_app. reflexivity. Qed.

Lemma reachable_init (v : variant) (callback : bool) :
  reachable v (init_world v callback).
Proof. exists callback, []. reflexivity. Qed.

Lemma reachable_step (v : variant) (w : World num) (a : action num) :
  reachable v w -> reachable v (step v w a).
Proof.
  intros (cb & l & ->). exists cb, (l ++ [a]). now rewrite run_snoc.
Qed.

Lemma reachable_run (v : variant) (w : World num) (l : list (action num)) :
  reachable v w -> reachable v (run v w l).
Proof.
  revert w. induction l as [|a l IH]; intros w Hw; [exact Hw|].
  cbn. apply IH, reachable_step, Hw.
Qed.

(** Induction over the reachable worlds. *)
Lemma reachable_ind (v : variant) (P : World num -> Prop) :
  (forall callback, P (init_world v callback)) ->
  (forall w a, reachable v w -> P w -> P (step v w a)) ->
  forall w, reachable v w -> P w.
Proof.
  intros Hinit Hstep w (cb & l & ->).
  induction l as [|a l IH] using rev_ind; [apply Hinit|].
  rewrite run_snoc. apply Hstep; [|exact IH].
  exists cb, l. reflexivity.
Qed.

(** ** What each routine leaves alone *)

Lemma calculateMonolith_frame (v : variant) (s : VoidState num) (h : heap num) :
  price (fst (calculateMonolith v s h)) = price s /\
  void_elasticity (fst (calculateMonolith v s h)) = void_elasticity s /\
  void_pressure (fst (calculateMonolith v s h)) = void_pressure s /\
  void_kinetic (fst (calculateMonolith v s h)) = void_kinetic s /\
  domain_state (fst (calculateMonolith v s h)) = domain_state s.
Proof.
  destruct v; cbn; unfold calculateMonolithA, calculateMonolithB; cbn;
    repeat match goal with |- context [if ?c then _ else _] => destruct c end;
    cbn; repeat split.
Qed.

Lemma processTrade_frame (v : variant) (t_now p q : num) (m : bool)
    (e : VoidEngine num) :
  let e' := processTrade v t_now p q m e in
  book_bids e' = book_bids e /\ book_asks e' = book_asks e /\
  imbalance_hist e' = imbalance_hist e /\ onUpdate e' = onUpdate e /\
  domain_state (state e') = domain_state (state e) /\
  signal (state e') = signal (state e) /\
  monolith_stars (state e') = monolith_stars (state e) /\
  titans (state e') = titans (state e).
Proof.
  cbn. unfold processTrade.
  destruct (slice_last _ _) as [|first [|second rest]]; cbn;
    try (destruct (gtb _ _)); try (destruct v); cbn; repeat split.
Qed.

Lemma processBook_state (bids asks : option (list (entry num)))
    (e : VoidEngine num) :
  match processBook bids asks e with
  | Normal e' =>
      price (state e') = price (state e) /\
      void_elasticity (state e') = void_elasticity (state e) /\
      void_kinetic (state e') = void_kinetic (state e) /\
      domain_state (state e') = domain_state (state e) /\
      signal (state e') = signal (state e) /\
      monolith_stars (state e') = monolith_stars (state e) /\
      titans (state e') = titans (state e) /\
      trades e' = trades e /\ onUpdate e' = onUpdate e
  | Thrown e' =>
      state e' = state e /\ trades e' = trades e /\ onUpdate e' = onUpdate e /\
      imbalance_hist e' = imbalance_hist e
  end.
Proof.
  book_paths; cbn; repeat split.
Qed.

Lemma length_push_capped {A} (cap : nat) (x : A) (l : list A) :
  length (push_capped cap x l) =
  if cap <? S (length l) then length l else S (length l).
Proof.
  unfold push_capped. rewrite length_app. cbn [length].
  replace (length l + 1) with (S (length l)) by lia.
  case (cap <? S (length l)); [|rewrite length_app; cbn [length]; lia].
  destruct l; cbn [app tail length]; [reflexivity|].
  rewrite length_app. cbn [length]. lia.
Qed.

(** ** Invariants of the engine *)

Lemma ingested_refl (e : VoidEngine num) : ingested e e.
Proof. split; [reflexivity | now left]. Qed.

Lemma ingested_processTrade (v : variant) (t_now p q : num) (m : bool)
    (e : VoidEngine num) :
  ingested e (processTrade v t_now p q m e).
Proof.
  destruct (processTrade_frame v t_now p q m e) as (_ & _ & Hh & _ & Hd & _).
  split; [exact Hd | now left].
Qed.

Lemma ingested_processBook (bids asks : option (list (entry num)))
    (e : VoidEngine num) :
  match processBook bids asks e with
  | Normal e1 => ingested e e1
  | Thrown e1 => state e1 = state e /\ imbalance_hist e1 = imbalance_hist e
  end.
Proof.
  unfold ingested. book_paths; cbn; (split; [reflexivity|]);
    try reflexivity; try (now left).
  right. eexists. reflexivity.
Qed.

(** A property of the engine that depends on the published state and the
    imbalance history only, and that every completed recompute after an
    ingest carries over, holds in every reachable world. *)
Lemma engine_invariant (v : variant) (P : VoidEngine num -> Prop) :
  (forall callback, P (init_engine callback)) ->
  (forall e e1 h, P e -> ingested e e1 ->
                  P (fst (fst (recompute_and_publish v e1 h)))) ->
  (forall e e', state e' = state e -> imbalance_hist e' = imbalance_hist e ->
                P e -> P e') ->
  forall w, reachable v w -> P (w_engine w).
Proof.
  intros Hinit Hrec Hsame.
  apply (reachable_ind v (fun w => P (w_engine w))); [exact Hinit|].
  intros w a _ IH. destruct a as [t_now msg|i fw|i rows|i f]; cbn.
  - destruct msg as [| |p q m|b a|]; cbn; try exact IH.
    + specialize (Hrec (w_engine w) (processTrade v t_now p q m (w_engine w))
                       (w_heap w) IH (ingested_processTrade _ _ _ _ _ _)).
      destruct (recompute_and_publish _ _ _) as [[e' h'] pub]. exact Hrec.
    + pose proof (ingested_processBook b a (w_engine w)) as Hb.
      destruct (processBook b a (w_engine w)) as [e1|e1].
      * specialize (Hrec (w_engine w) e1 (w_heap w) IH Hb).
        destruct (recompute_and_publish _ _ _) as [[e' h'] pub]. exact Hrec.
      * cbn. destruct Hb as (Hs & Hh). apply (Hsame (w_engine w)); auto.
    + specialize (Hrec (w_engine w) (w_engine w) (w_heap w) IH (ingested_refl _)).
      destruct (recompute_and_publish _ _ _) as [[e' h'] pub]. exact Hrec.
  - exact IH.
  - destruct (w_snapshots w !! i); [|exact IH]. cbn. exact IH.
  - destruct (w_snapshots w !! i); exact IH.
Qed.

(** The state after a completed recompute. *)
Lemma recompute_state (v : variant) (e : VoidEngine num) (h : heap num) :
  state (fst (fst (recompute_and_publish v e h))) =
  fst (calculateMonolith v (state (updateRegime v e)) h).
Proof.
  unfold recompute_and_publish.
  destruct (calculateMonolith v _ h) as [s2 h2]. reflexivity.
Qed.

Lemma recompute_hist (v : variant) (e : VoidEngine num) (h : heap num) :
  imbalance_hist (fst (fst (recompute_and_publish v e h))) = imbalance_hist e.
Proof.
  unfold recompute_and_publish.
  destruct (calculateMonolith v _ h) as [s2 h2]. cbn.
  unfold updateRegime. destruct (10 <? _); reflexivity.
Qed.

(** ** Verdict *)


Lemma calculateMonolithA_signal (s : VoidState num) (h : heap num) :
  let s' := fst (calculateMonolithA s h) in
  signal s' = star_count_signal (monolith_stars s') (void_kinetic s').
Proof.
  cbn zeta. change (calculateMonolithA s h) with (calculateMonolith VariantA s h).
  destruct (calculateMonolith_frame VariantA s h) as (_ & _ & _ & -> & _).
  unfold calculateMonolith, calculateMonolithA, star_count_signal, gtb.
  case_guards; reflexivity.
Qed.

Lemma star_count_reachable (w : World num) :
  reachable VariantA w ->
  signal (state (w_engine w)) =
  star_count_signal (monolith_stars (state (w_engine w)))
                    (void_kinetic (state (w_engine w))).
Proof.
  apply (engine_invariant VariantA
           (fun e => signal (state e) =
                     star_count_signal (monolith_stars (state e))
                                       (void_kinetic (state e)))).
  - reflexivity.
  - intros e e1 h _ _. rewrite recompute_state. apply calculateMonolithA_signal.
  - intros e e' Hs _. now rewrite Hs.
Qed.

Lemma calculateMonolithA_stars (s : VoidState num) (h : heap num) :
  monolith_stars (fst (calculateMonolithA s h)) = star_count_score s.
Proof.
  unfold calculateMonolithA, star_count_score, gtb.
  case_guards; reflexivity.
Qed.

Lemma calculateMonolithB_signal (s : VoidState num) (h : heap num) :
  signal (fst (calculateMonolithB s h)) =
  first_match (trap_break_guards (void_kinetic s) (void_elasticity s)) "OBSERVE".
Proof.
  unfold calculateMonolithB, trap_break_guards, gtb.
  case_guards; reflexivity.
Qed.

(** ** Net flow *)

Lemma filter_filter_andb {A} (f g : A -> bool) (l : list A) :
  List.filter f (List.filter g l) = List.filter (fun x => f x && g x) l.
Proof.
  induction l as [|x l IH]; [reflexivity|].
  cbn. destruct (g x); cbn; destruct (f x); cbn; congruence.
Qed.

Lemma processTrade_trades (v : variant) (t_now p q : num) (m : bool)
    (e : VoidEngine num) :
  trades (processTrade v t_now p q m e) =
  push_capped 1000 {| tr_p := p; tr_q := q; tr_b := negb m; tr_t := t_now |}
              (trades e).
Proof. reflexivity. Qed.

Lemma processTrade_kinetic (v : variant) (t_now p q : num) (m : bool)
    (e : VoidEngine num) :
  void_kinetic (state (processTrade v t_now p q m e)) =
  net_flow t_now (trades (processTrade v t_now p q m e)).
Proof.
  rewrite processTrade_trades. unfold processTrade, net_flow.
  rewrite !filter_filter_andb.
  destruct (slice_last _ _) as [|first [|second rest]]; cbn;
    try (destruct (gtb _ _)); try (destruct v); reflexivity.
Qed.

End Theory.

(** * The claims *)

(** ** Verdict (C2, C3) *)

(** C2. Star-count policy (first file): in every reachable state the
    signal is the one the score and the sign of the net flow determine
    (score at least 4: EXECUTE LONG when kinetic > 0, EXECUTE SHORT
    otherwise; score 3: PREPARE; any other score: STANDBY), for every
    number model; and on doubles the state kinetic = 60, pressure = 0.0,
    elasticity = 3.0, regime VOLATILITY gets score 3 and signal PREPARE. *)
Theorem star_count_verdict :
  (forall (num : Type) (N : Number num) (R : Sqrt num) (w : World num),
      reachable VariantA w ->
      signal (state (w_engine w)) =
      star_count_signal (monolith_stars (state (w_engine w)))
                        (void_kinetic (state (w_engine w)))) /\
  (forall (s : VoidState float) (h : heap float),
      void_kinetic s = lit 60 0 -> void_pressure s = lit 0 0 ->
      void_elasticity s = lit 3 0 -> domain_state s = "VOLATILITY" ->
      monolith_stars (fst (calculateMonolith VariantA s h)) = 3 /\
      signal (fst (calculateMonolith VariantA s h)) = "PREPARE").
Proof.
  split.
  - intros num N R w Hw. now apply star_count_reachable.
  - intros s h Hk Hp He Hd.
    assert (Hstars : monolith_stars (fst (calculateMonolith VariantA s h)) = 3).
    { cbn [calculateMonolith]. rewrite calculateMonolithA_stars.
      unfold star_count_score. rewrite Hk, Hp, He, Hd. vm_compute. reflexivity. }
    split; [exact Hstars|].
    pose proof (calculateMonolithA_signal s h) as Hsig. cbn zeta in Hsig.
    cbn [calculateMonolith]. rewrite Hsig.
    cbn [calculateMonolith] in Hstars. rewrite Hstars. reflexivity.
Qed.

Lemma star_count_verdict_witness :
  let w := run (num:=float) VariantA (init_world VariantA true)
             [Deliver (lit 1700000000 0) (AggTrade (lit 100 0) (lit 75 0) false);
              Deliver (lit 1700000001 0)
                      (Depth (Some [Some (lit 100 0, lit 9 0)])
                             (Some [Some (lit 101 0, lit 1 0)]))] in
  signal (state (w_engine w)) =
  star_count_signal (monolith_stars (state (w_engine w)))
                    (void_kinetic (state (w_engine w))).
Proof.
  intro w. apply (proj1 star_count_verdict float _ _ w).
  apply reachable_run, reachable_init.
Defined.

(** C3. Trap/break policy (second file): for every kinetic and elasticity
    the signal is the label of the first guard that holds in the order
    kinetic > 50 and elasticity < 0.5: SHORT (TRAP); kinetic > 50 and
    elasticity > 2.0: LONG (BREAK); kinetic < -50 and elasticity > -0.5:
    LONG (TRAP); kinetic < -50 and elasticity < -2.0: SHORT (BREAK); and
    OBSERVE when none holds, both for the routine alone and for the state
    left by a completed recompute; on doubles kinetic = 60 with
    elasticity = 0.3 gives SHORT (TRAP). *)
Theorem trap_break_verdict :
  (forall (num : Type) (N : Number num) (s : VoidState num) (h : heap num),
      signal (fst (calculateMonolith VariantB s h)) =
      first_match (trap_break_guards (void_kinetic s) (void_elasticity s))
                  "OBSERVE") /\
  (forall (num : Type) (N : Number num) (R : Sqrt num)
          (e : VoidEngine num) (h : heap num),
      let e' := fst (fst (recompute_and_publish VariantB e h)) in
      signal (state e') =
      first_match (trap_break_guards (void_kinetic (state e'))
                                     (void_elasticity (state e')))
                  "OBSERVE") /\
  (forall (s : VoidState float) (h : heap float),
      void_kinetic s = lit 60 0 -> void_elasticity s = lit 3 1 ->
      signal (fst (calculateMonolith VariantB s h)) = "SHORT (TRAP)").
Proof.
  split; [|split].
  - intros num N s h. apply calculateMonolithB_signal.
  - intros num N R e h e'. subst e'. rewrite recompute_state.
    destruct (calculateMonolith_frame VariantB (state (updateRegime VariantB e)) h)
      as (_ & -> & _ & -> & _).
    apply calculateMonolithB_signal.
  - intros s h Hk He. cbn [calculateMonolith].
    rewrite calculateMonolithB_signal, Hk, He. vm_compute. reflexivity.
Qed.

Lemma trap_break_verdict_witness :
  signal (fst (calculateMonolith (num:=float) VariantB
                 {| price := lit 27000 0; void_elasticity := lit 3 1;
                    void_pressure := lit 0 0; void_kinetic := lit 60 0;
                    domain_state := "STABLE"; signal := "OBSERVE";
                    monolith_stars := 0; titans := init_loc |}
                 (init_heap VariantB))) = "SHORT (TRAP)".
Proof.
  apply (proj2 (proj2 trap_break_verdict)); reflexivity.
Defined.

(** ** Rolling trade window (C4, C5) *)

(** C4. After every [processTrade] call, kinetic is the buyer-initiated
    volume minus the seller-initiated volume over the buffered trades
    whose timestamp is strictly greater than the call's timestamp minus 3
    (for every number model); on doubles the trades (buy, 10, t0),
    (sell, 4, t0 + 1), (buy, 1, t0 + 4) leave kinetic = 1 after the third
    call, in both files. *)
Theorem kinetic_is_net_flow :
  (forall (num : Type) (N : Number num) (v : variant) (t_now p q : num)
          (is_buyer_maker : bool) (e : VoidEngine num),
      void_kinetic (state (processTrade v t_now p q is_buyer_maker e)) =
      net_flow t_now (trades (processTrade v t_now p q is_buyer_maker e))) /\
  (forall (v : variant) (callback : bool),
      let t0 : float := lit 17000000005 1 in
      let e1 := processTrade v t0 (lit 100 0) (lit 10 0) false
                             (init_engine callback) in
      let e2 := processTrade v (nadd t0 (lit 1 0)) (lit 100 0) (lit 4 0) true e1 in
      let e3 := processTrade v (nadd t0 (lit 4 0)) (lit 100 0) (lit 1 0) false e2 in
      void_kinetic (state e3) = lit 1 0).
Proof.
  split.
  - intros. apply processTrade_kinetic.
  - intros [] []; vm_compute; reflexivity.
Qed.

(** C5, as worded, fails at the floor itself.  Second file, doubles: two
    trades of 0.005 each at prices 100 and 101 sum to exactly 0.01, which
    is not below the floor, yet elasticity is reset to 0 instead of
    (101 - 100) / 0.01 * 10000. *)
Lemma elasticity_at_floor_not_computed :
  let e1 := processTrade (num:=float) VariantB (lit 17000000005 1)
              (lit 100 0) (lit 5 3) false (init_engine true) in
  ~ elasticity_as_specified VariantB (lit 17000000006 1) (lit 101 0) (lit 5 3)
      false e1.
Proof.
  intros e1 Hclaim. unfold elasticity_as_specified in Hclaim.
  destruct Hclaim as [Hcomputed _]; [vm_compute; lia|].
  specialize (Hcomputed eq_refl).
  apply (f_equal (fun x => PrimFloat.eqb x (lit 0 0))) in Hcomputed.
  vm_compute in Hcomputed. discriminate Hcomputed.
Qed.

Lemma length_slice_last {A} (n : nat) (l : list A) :
  length (slice_last n l) = Nat.min n (length l).
Proof. unfold slice_last. rewrite length_skipn. lia. Qed.

(** C5, amended. After every [processTrade] call that leaves at least two
    trades buffered, with the micro-window the last N buffered trades
    (N = 20 in the first file, 15 in the second): if their summed
    quantity is strictly above 0.01, elasticity is (last price - first
    price) / summed quantity * 10000; in every other case (at the floor
    included) elasticity keeps its previous value in the first file and
    is set to zero in the second. *)
Theorem elasticity_strictly_above_floor :
  forall (num : Type) (N : Number num) (v : variant) (t_now p q : num)
         (is_buyer_maker : bool) (e : VoidEngine num),
    let e' := processTrade v t_now p q is_buyer_maker e in
    let micro := slice_last (micro_window v) (trades e') in
    2 <= length (trades e') ->
    15 <= micro_window v <= 20 /\
    length micro = Nat.min (micro_window v) (length (trades e')) /\
    (gtb (sum_q micro) volume_floor = true ->
     void_elasticity (state e') = micro_burst micro) /\
    (gtb (sum_q micro) volume_floor = false ->
     void_elasticity (state e') =
     thin_volume_value v (void_elasticity (state e))).
Proof.
  intros num N v t_now p q m e e' micro Hlen.
  assert (Hwin : 15 <= micro_window v <= 20) by (destruct v; cbn; lia).
  assert (Hmicro : length micro = Nat.min (micro_window v) (length (trades e')))
    by apply length_slice_last.
  split; [exact Hwin|]. split; [exact Hmicro|].
  assert (Hstate : void_elasticity (state e') =
                   if gtb (sum_q micro) volume_floor then micro_burst micro
                   else thin_volume_value v (void_elasticity (state e))).
  { subst e' micro. rewrite processTrade_trades in *. unfold processTrade.
    set (buffer := push_capped 1000 _ (trades e)) in *.
    destruct (slice_last (micro_window v) buffer) as [|first [|second rest]] eqn:E;
      cbn [length] in Hmicro; try lia.
    unfold volume_floor, micro_burst.
    destruct (gtb _ (lit 1 2)); [reflexivity|].
    destruct v; reflexivity. }
  rewrite Hstate. split; intros ->; reflexivity.
Qed.

Lemma elasticity_strictly_above_floor_witness :
  let e1 := processTrade (num:=float) VariantA (lit 17000000005 1)
              (lit 100 0) (lit 2 0) false (init_engine true) in
  let e' := processTrade VariantA (lit 17000000006 1) (lit 101 0) (lit 3 0) true e1 in
  let micro := slice_last (micro_window VariantA) (trades e') in
  15 <= micro_window VariantA <= 20 /\
  length micro = Nat.min (micro_window VariantA) (length (trades e')) /\
  (gtb (sum_q micro) volume_floor = true ->
   void_elasticity (state e') = micro_burst micro) /\
  (gtb (sum_q micro) volume_floor = false ->
   void_elasticity (state e') =
   thin_volume_value VariantA (void_elasticity (state e1))).
Proof.
  intros e1 e' micro.
  apply (elasticity_strictly_above_floor float _ VariantA (lit 17000000006 1)
           (lit 101 0) (lit 3 0) true e1).
  vm_compute. lia.
Defined.

(** ** Order book mirror (C7) *)

Section BookTheory.
Context {num : Type} `{Number num}.

(** What a depth delta that runs to its end leaves behind when both
    sides are non-empty. *)
Lemma processBook_two_sided (bids asks : list (entry num)) (e e' : VoidEngine num) :
  processBook (Some bids) (Some asks) e = Normal e' ->
  book_bids e' <> [] -> book_asks e' <> [] ->
  book_bids e' = fold_left apply_update (reached bids) (book_bids e) /\
  book_asks e' = fold_left apply_update (reached asks) (book_asks e) /\
  void_pressure (state e') =
    pressure_ratio (best_bid_volume (book_bids e'))
                   (best_ask_volume (book_asks e')) /\
  imbalance_hist e' =
    push_capped 120 (void_pressure (state e')) (imbalance_hist e) /\
  all_pairs bids = true /\ all_pairs asks = true.
Proof.
  rewrite processBook_shape. unfold best_bid_volume, best_ask_volume.
  destruct (all_pairs bids); [|discriminate].
  destruct (all_pairs asks); [|discriminate].
  cbn [book_bids book_asks with_book_bids with_book_asks].
  remember (fold_left apply_update (reached bids) (book_bids e)) as bb eqn:Hbb.
  remember (fold_left apply_update (reached asks) (book_asks e)) as ba eqn:Hba.
  destruct (@map_keys num bb) as [|kb kbs] eqn:Ebb.
  { intros [= <-] Hb _. cbn in Hb. destruct bb; [congruence | discriminate Ebb]. }
  destruct (@map_keys num ba) as [|ka kas] eqn:Eba.
  { intros [= <-] _ Ha. cbn in Ha. destruct ba; [congruence | discriminate Eba]. }
  intros [= <-] _ _.
  cbn [book_bids book_asks state imbalance_hist void_pressure with_state
       with_book_bids with_book_asks with_imbalance_hist set_void_pressure].
  rewrite Ebb, Eba. repeat split.
Qed.

End BookTheory.

Section MapTheory.
Context {num : Type} `{Number num}.
Hypothesis keys : key_equivalence.

Lemma same_value_zero_other (k k' p : num) :
  same_value_zero k p = false -> same_value_zero k' p = true ->
  same_value_zero k' k = false.
Proof.
  intros Hkp Hk'p. destruct (same_value_zero k' k) eqn:E; [|reflexivity].
  rewrite (key_sym keys) in E. rewrite (key_trans keys k k' p E Hk'p) in Hkp.
  discriminate Hkp.
Qed.

Lemma map_get_delete (k : num) (m : JsMap num) :
  map_get k (map_delete k m) = None.
Proof.
  induction m as [|[k' v'] m IH]; [reflexivity|].
  cbn. destruct (same_value_zero k' k) eqn:E; cbn; [exact IH|].
  now rewrite E.
Qed.

Lemma map_get_delete_other (k p : num) (m : JsMap num) :
  same_value_zero k p = false -> map_get k (map_delete p m) = map_get k m.
Proof.
  intros Hkp. unfold map_delete.
  induction m as [|[k' v'] m IH]; [reflexivity|].
  cbn. destruct (same_value_zero k' p) eqn:E; cbn.
  - now rewrite (same_value_zero_other k k' p Hkp E).
  - now rewrite IH.
Qed.

Lemma map_get_set (k v : num) (m : JsMap num) :
  map_get k (map_set k v m) = Some v.
Proof.
  induction m as [|[k' v'] m IH]; cbn.
  - now rewrite (key_refl keys).
  - destruct (same_value_zero k' k) eqn:E; cbn; now rewrite E.
Qed.

Lemma map_get_set_other (k p v : num) (m : JsMap num) :
  same_value_zero k p = false -> map_get k (map_set p v m) = map_get k m.
Proof.
  intros Hkp. induction m as [|[k' v'] m IH]; cbn.
  - now rewrite (key_sym keys), Hkp.
  - destruct (same_value_zero k' p) eqn:E; cbn.
    + now rewrite (same_value_zero_other k k' p Hkp E).
    + now rewrite IH.
Qed.

Lemma apply_update_zero (m : JsMap num) (p qty : num) :
  strict_eq qty (lit 0 0) = true -> apply_update m (p, qty) = map_delete p m.
Proof. intros E. cbn. now rewrite E. Qed.

Lemma apply_update_nonzero (m : JsMap num) (p qty : num) :
  strict_eq qty (lit 0 0) = false -> apply_update m (p, qty) = map_set p qty m.
Proof. intros E. cbn. now rewrite E. Qed.

End MapTheory.

(** *** Key comparison on doubles *)

Lemma SFeqb_finite (sx sy : bool) (mx my : positive) (ex ey : Z) :
  SFeqb (S754_finite sx mx ex) (S754_finite sy my ey) = true ->
  sx = sy /\ mx = my /\ ex = ey.
Proof.
  unfold SFeqb, SFcompare.
  destruct sx, sy; try discriminate;
    destruct (ex ?= ey)%Z eqn:Ee; try discriminate;
    change (Pos.compare_cont Eq ?a ?b) with (Pos.compare a b);
    destruct (mx ?= my)%positive eqn:Em; try discriminate; intros _;
    apply Z.compare_eq_iff in Ee; apply Pos.compare_eq_iff in Em; auto.
Qed.

Lemma SFeqb_finite_refl (s : bool) (m : positive) (e : Z) :
  SFeqb (S754_finite s m e) (S754_finite s m e) = true.
Proof.
  unfold SFeqb, SFcompare.
  destruct s; now rewrite Z.compare_refl, Pos.compare_cont_refl.
Qed.

Lemma SFeqb_sym_true (x y : spec_float) :
  SFeqb x y = true -> SFeqb y x = true.
Proof.
  destruct x as [sx|sx| |sx mx ex], y as [sy|sy| |sy my ey];
    try (intros; reflexivity); try discriminate;
    try (destruct sx; discriminate); try (destruct sy; discriminate).
  - destruct sx, sy; try discriminate; reflexivity.
  - intros Hxy. destruct (SFeqb_finite _ _ _ _ _ _ Hxy) as (-> & -> & ->).
    apply SFeqb_finite_refl.
Qed.

Lemma SFeqb_sym (x y : spec_float) : SFeqb x y = SFeqb y x.
Proof.
  destruct (SFeqb x y) eqn:Exy, (SFeqb y x) eqn:Eyx; try reflexivity.
  - apply SFeqb_sym_true in Exy. congruence.
  - apply SFeqb_sym_true in Eyx. congruence.
Qed.

Lemma SFeqb_trans (x y z : spec_float) :
  SFeqb x y = true -> SFeqb y z = true -> SFeqb x z = true.
Proof.
  intros Hxy Hyz.
  destruct x as [sx|sx| |sx mx ex], y as [sy|sy| |sy my ey];
    try (exfalso; unfold SFeqb, SFcompare in Hxy;
         try destruct sx; try destruct sy; discriminate Hxy).
  - destruct z as [sz|sz| |sz mz ez]; [reflexivity| | |];
      exfalso; unfold SFeqb, SFcompare in Hyz; try destruct sz; discriminate Hyz.
  - destruct z as [sz|sz| |sz mz ez];
      try (exfalso; unfold SFeqb, SFcompare in Hyz;
           try destruct sy; try destruct sz; discriminate Hyz).
    destruct sx, sy, sz; try discriminate; reflexivity.
  - destruct (SFeqb_finite _ _ _ _ _ _ Hxy) as (-> & -> & ->). exact Hyz.
Qed.

Lemma float_same_value_zero_sym (a b : float) :
  same_value_zero a b = same_value_zero b a.
Proof.
  cbn. unfold float_same_value_zero. rewrite !FloatAxioms.eqb_spec.
  rewrite (SFeqb_sym (Prim2SF a)). now rewrite (andb_comm (PrimFloat.is_nan a)).
Qed.

Lemma float_is_nan_eqb (a b : float) :
  PrimFloat.is_nan a = true -> PrimFloat.eqb a b = false /\ PrimFloat.eqb b a = false.
Proof.
  unfold PrimFloat.is_nan. rewrite !FloatAxioms.eqb_spec.
  destruct (Prim2SF a) as [s|s| |s m e] eqn:Ea; cbn.
  - discriminate.
  - destruct s; discriminate.
  - intros _. split; [reflexivity|]. unfold SFeqb, SFcompare.
    destruct (Prim2SF b); reflexivity.
  - unfold SFeqb, SFcompare. destruct s; rewrite Z.compare_refl, Pos.compare_cont_refl; discriminate.
Qed.

Lemma float_same_value_zero_trans (a b c : float) :
  same_value_zero a b = true -> same_value_zero b c = true ->
  same_value_zero a c = true.
Proof.
  cbn. unfold float_same_value_zero. intros Hab Hbc.
  destruct (PrimFloat.is_nan a) eqn:Na.
  - destruct (float_is_nan_eqb a b Na) as [Eab _]. rewrite Eab in Hab.
    cbn in Hab. destruct (float_is_nan_eqb b c Hab) as [Ebc _].
    rewrite Ebc, Hab in Hbc. cbn in Hbc. rewrite Hbc. apply orb_true_r.
  - rewrite andb_false_l, orb_false_r in Hab.
    destruct (PrimFloat.is_nan b) eqn:Nb.
    + destruct (float_is_nan_eqb b a Nb) as [_ Eab]. congruence.
    + rewrite andb_false_l, orb_false_r in Hbc.
      rewrite FloatAxioms.eqb_spec in *.
      now rewrite (SFeqb_trans _ _ _ Hab Hbc).
Qed.

Lemma float_keys : key_equivalence (num:=float).
Proof.
  split.
  - intros k. cbn. unfold float_same_value_zero, PrimFloat.is_nan.
    destruct (PrimFloat.eqb k k); reflexivity.
  - apply float_same_value_zero_sym.
  - apply float_same_value_zero_trans.
Qed.

(** C7. For every pair (price, quantity) that [processBook] applies to a
    side's map, in any number model whose key comparison is an
    equivalence (that of doubles is): a quantity
    that is exactly zero removes the price's entry, any other quantity
    leaves the price mapped to that quantity, either way every other
    price keeps what it had, and after a removal a non-zero update of the
    same price maps it to the new quantity. *)
Theorem book_update_removes_or_upserts :
  forall (num : Type) (N : Number num),
    key_equivalence ->
    forall (m : JsMap num) (p qty : num),
      (strict_eq qty (lit 0 0) = true ->
       map_has p (apply_update m (p, qty)) = false) /\
      (strict_eq qty (lit 0 0) = false ->
       map_get p (apply_update m (p, qty)) = Some qty) /\
      (forall k : num,
          same_value_zero k p = false ->
          map_get k (apply_update m (p, qty)) = map_get k m) /\
      (forall qty' : num,
          strict_eq qty (lit 0 0) = true -> strict_eq qty' (lit 0 0) = false ->
          map_has p (apply_update m (p, qty)) = false /\
          map_get p (apply_update (apply_update m (p, qty)) (p, qty')) = Some qty').
Proof.
  intros num N keys m p qty.
  assert (Hremove : strict_eq qty (lit 0 0) = true ->
                    map_has p (apply_update m (p, qty)) = false).
  { intros E. rewrite (apply_update_zero m p qty E).
    unfold map_has. now rewrite map_get_delete. }
  assert (Hupsert : forall m' x, strict_eq x (lit 0 0) = false ->
                    map_get p (apply_update m' (p, x)) = Some x).
  { intros m' x E. rewrite (apply_update_nonzero m' p x E).
    now apply map_get_set. }
  split; [exact Hremove|]. split; [apply Hupsert|]. split.
  - intros k Hk. destruct (strict_eq qty (lit 0 0)) eqn:E.
    + rewrite (apply_update_zero m p qty E). now apply map_get_delete_other.
    + rewrite (apply_update_nonzero m p qty E). now apply map_get_set_other.
  - intros qty' E E'. split; [exact (Hremove E) | exact (Hupsert _ _ E')].
Qed.

Lemma book_update_removes_or_upserts_witness :
  let m : JsMap float := [(lit 27000 0, lit 15 1); (lit 269995 1, lit 4 0)] in
  let p : float := lit 269995 1 in
  let qty : float := lit 0 0 in
  (strict_eq qty (lit 0 0) = true ->
   map_has p (apply_update m (p, qty)) = false) /\
  (strict_eq qty (lit 0 0) = false ->
   map_get p (apply_update m (p, qty)) = Some qty) /\
  (forall k : float,
      same_value_zero k p = false ->
      map_get k (apply_update m (p, qty)) = map_get k m) /\
  (forall qty' : float,
      strict_eq qty (lit 0 0) = true -> strict_eq qty' (lit 0 0) = false ->
      map_has p (apply_update m (p, qty)) = false /\
      map_get p (apply_update (apply_update m (p, qty)) (p, qty')) = Some qty').
Proof.
  intros m p qty.
  apply (book_update_removes_or_upserts float _ float_keys m p qty).
Defined.

(** ** Regime classifier (C8, C10) *)

Section RegimeTheory.
Context {num : Type} `{Number num} `{Sqrt num}.

Lemma fold_left_map_add (f : num -> num) (l : list num) (z : num) :
  fold_left (fun a b => nadd a (f b)) l z = fold_left nadd (map f l) z.
Proof.
  revert z. induction l as [|x l IH]; intros z; [reflexivity|].
  cbn. apply IH.
Qed.

(** The source's [reduce] loops compute the population standard
    deviation. *)
Lemma volatility_of_is_stddev (hist : list num) :
  volatility_of hist = population_stddev hist.
Proof.
  unfold volatility_of, population_stddev, population_variance,
    population_mean, total.
  now rewrite fold_left_map_add.
Qed.

Lemma updateRegime_domain_state (v : variant) (e : VoidEngine num) :
  domain_state (state (updateRegime v e)) =
  if 10 <? length (imbalance_hist e)
  then classify v (population_stddev (imbalance_hist e))
  else domain_state (state e).
Proof.
  unfold updateRegime. rewrite volatility_of_is_stddev.
  destruct (10 <? length (imbalance_hist e)); reflexivity.
Qed.

Lemma recompute_domain_state (v : variant) (e : VoidEngine num) (h : heap num) :
  domain_state (state (fst (fst (recompute_and_publish v e h)))) =
  if 10 <? length (imbalance_hist e)
  then classify v (population_stddev (imbalance_hist e))
  else domain_state (state e).
Proof.
  rewrite recompute_state.
  destruct (calculateMonolith_frame v (state (updateRegime v e)) h)
    as (_ & _ & _ & _ & ->).
  apply updateRegime_domain_state.
Qed.

Lemma ingested_length (e e1 : VoidEngine num) :
  ingested e e1 ->
  length (imbalance_hist e) <= length (imbalance_hist e1) /\
  (length (imbalance_hist e) <= 120 -> length (imbalance_hist e1) <= 120).
Proof.
  intros [_ [-> | [x ->]]]; [lia|].
  rewrite length_push_capped.
  destruct (120 <? S (length (imbalance_hist e))) eqn:E.
  - lia.
  - apply Nat.ltb_ge in E. lia.
Qed.

Lemma regime_of_short (v : variant) (hist : list num) :
  length hist <= 10 -> regime_of v hist = "CALCULATING".
Proof.
  intros Hlen. unfold regime_of.
  destruct (10 <? length hist) eqn:E; [|reflexivity].
  apply Nat.ltb_lt in E. lia.
Qed.

Lemma regime_reachable (v : variant) (w : World num) :
  reachable v w ->
  length (imbalance_hist (w_engine w)) <= 120 /\
  domain_state (state (w_engine w)) = regime_of v (imbalance_hist (w_engine w)).
Proof.
  apply (engine_invariant v
           (fun e => length (imbalance_hist e) <= 120 /\
                     domain_state (state e) = regime_of v (imbalance_hist e))).
  - intros cb. cbn. split; [lia | reflexivity].
  - intros e e1 h [Hlen Hreg] Hin.
    destruct (ingested_length e e1 Hin) as [Hmono Hcap].
    rewrite recompute_hist, recompute_domain_state. split; [auto|].
    unfold regime_of, classify.
    destruct (10 <? length (imbalance_hist e1)) eqn:E; [reflexivity|].
    apply Nat.ltb_ge in E. destruct Hin as [-> _]. rewrite Hreg.
    apply regime_of_short. lia.
  - intros e e' Hs Hh HP. now rewrite Hs, Hh.
Qed.

Lemma classify_three_way (v : variant) (x : num) :
  classify v x = regime_low v \/ classify v x = regime_mid v \/
  classify v x = regime_high v.
Proof. unfold classify. repeat branch_on_guard; auto. Qed.

Lemma classified_reachable (v : variant) (w : World num) :
  reachable v w ->
  10 < length (imbalance_hist (w_engine w)) ->
  domain_state (state (w_engine w)) = regime_low v \/
  domain_state (state (w_engine w)) = regime_mid v \/
  domain_state (state (w_engine w)) = regime_high v.
Proof.
  intros Hw Hlen. destruct (regime_reachable v w Hw) as [_ ->].
  unfold regime_of. apply Nat.ltb_lt in Hlen. rewrite Hlen.
  apply classify_three_way.
Qed.

Lemma step_hist_grows (v : variant) (w : World num) (a : action num) :
  length (imbalance_hist (w_engine w)) <=
  length (imbalance_hist (w_engine (step v w a))).
Proof.
  destruct a as [t_now msg|i fw|i rows|i f]; cbn.
  - destruct msg as [| |p q m|b a|]; cbn; try lia.
    + pose proof (recompute_hist v (processTrade v t_now p q m (w_engine w)) (w_heap w)) as E.
      destruct (recompute_and_publish _ _ _) as [[e' h'] pub]. cbn in *.
      rewrite E. destruct (ingested_length _ _ (ingested_processTrade v t_now p q m (w_engine w))).
      lia.
    + pose proof (ingested_processBook b a (w_engine w)) as Hb.
      destruct (processBook b a (w_engine w)) as [e1|e1].
      * pose proof (recompute_hist v e1 (w_heap w)) as E.
        destruct (recompute_and_publish _ _ _) as [[e' h'] pub]. cbn in *.
        rewrite E. destruct (ingested_length _ _ Hb). lia.
      * cbn. destruct Hb as [_ ->]. lia.
    + pose proof (recompute_hist v (w_engine w) (w_heap w)) as E.
      destruct (recompute_and_publish _ _ _) as [[e' h'] pub]. cbn in *.
      rewrite E. lia.
  - lia.
  - destruct (w_snapshots w !! i); cbn; lia.
  - destruct (w_snapshots w !! i); cbn; lia.
Qed.

Lemma run_hist_grows (v : variant) (l : list (action num)) (w : World num) :
  length (imbalance_hist (w_engine w)) <=
  length (imbalance_hist (w_engine (run v w l))).
Proof.
  revert w. induction l as [|a l IH]; intros w; cbn; [lia|].
  etransitivity; [apply (step_hist_grows v w a) | apply IH].
Qed.

End RegimeTheory.

(** C8. In every reachable state, for both files and every number model,
    the imbalance history holds at most 120 samples and the regime is a
    function of it: the placeholder "CALCULATING" while it holds 10 or
    fewer samples, otherwise the three-way classification (below the low
    threshold, below the high threshold, the rest) of the population
    standard deviation of the whole history.  On doubles, volatility 0.25
    with thresholds (0.1, 0.35) is the middle regime, also when it comes
    from a run whose history has standard deviation exactly 0.25. *)
Theorem regime_is_function_of_history :
  (forall (num : Type) (N : Number num) (R : Sqrt num) (v : variant)
          (w : World num),
      reachable v w ->
      length (imbalance_hist (w_engine w)) <= 120 /\
      domain_state (state (w_engine w)) =
      regime_of v (imbalance_hist (w_engine w))) /\
  @classify float _ VariantA (lit 25 2) = "EQUILIBRIUM" /\
  (let w := run VariantA (init_world VariantA true) alternating_quarters in
   population_stddev (imbalance_hist (w_engine w)) = lit 25 2 /\
   domain_state (state (w_engine w)) = "EQUILIBRIUM").
Proof.
  split; [|split].
  - intros num N R v w Hw. now apply regime_reachable.
  - vm_compute. reflexivity.
  - vm_compute. split; reflexivity.
Qed.

Lemma regime_is_function_of_history_witness :
  let w := run VariantB (init_world VariantB true) alternating_quarters in
  length (imbalance_hist (w_engine w)) <= 120 /\
  domain_state (state (w_engine w)) = regime_of VariantB (imbalance_hist (w_engine w)).
Proof.
  intro w. apply (proj1 regime_is_function_of_history float _ _ VariantB w).
  apply reachable_run, reachable_init.
Defined.

(** C10. Once the imbalance history of a reachable state holds more than
    10 samples, every state reached from it still holds more than 10, and
    its regime is one of the three regime values of the file, never the
    placeholder "CALCULATING". *)
Theorem regime_never_returns_to_placeholder :
  forall (num : Type) (N : Number num) (R : Sqrt num) (v : variant)
         (w : World num) (later : list (action num)),
    reachable v w ->
    10 < length (imbalance_hist (w_engine w)) ->
    let w' := run v w later in
    10 < length (imbalance_hist (w_engine w')) /\
    (domain_state (state (w_engine w')) = regime_low v \/
     domain_state (state (w_engine w')) = regime_mid v \/
     domain_state (state (w_engine w')) = regime_high v) /\
    domain_state (state (w_engine w')) <> "CALCULATING".
Proof.
  intros num N R v w later Hw Hlen w'.
  assert (Hlen' : 10 < length (imbalance_hist (w_engine w'))).
  { pose proof (run_hist_grows v later w). subst w'. lia. }
  assert (Hthree := classified_reachable v w' (reachable_run v w later Hw) Hlen').
  split; [exact Hlen'|]. split; [exact Hthree|].
  destruct Hthree as [-> | [-> | ->]]; destruct v; discriminate.
Qed.

Lemma regime_never_returns_to_placeholder_witness :
  let w' := run VariantA (run VariantA (init_world VariantA true) alternating_quarters)
              [Deliver (lit 17000000015 1) (AggTrade (lit 27000 0) (lit 2 0) true);
               Deliver (lit 17000000016 1) (Depth (Some [Some (lit 27000 0, lit 0 0)]) None);
               Deliver (lit 17000000017 1) BadJson] in
  10 < length (imbalance_hist (w_engine w')) /\
  (domain_state (state (w_engine w')) = regime_low VariantA \/
   domain_state (state (w_engine w')) = regime_mid VariantA \/
   domain_state (state (w_engine w')) = regime_high VariantA) /\
  domain_state (state (w_engine w')) <> "CALCULATING".
Proof.
  refine (regime_never_returns_to_placeholder float _ _ VariantA
            (run VariantA (init_world VariantA true) alternating_quarters) _ _ _).
  - apply reachable_run, reachable_init.
  - vm_compute. lia.
Defined.

(** ** Snapshot publisher (C1, C9) *)

Section HeapTheory.
Context {num : Type} `{Number num} `{Sqrt num}.

Lemma fresh_not_allocated (h : heap num) : h !! fresh (dom h) = None.
Proof. apply not_elem_of_dom_1, is_fresh. Qed.

Lemma allocated_insert (h : heap num) (l l' : loc) (rows : list (TitanStatus num)) :
  allocated h l' -> allocated (<[l := rows]> h) l'.
Proof.
  unfold allocated. intros Hl'. destruct (decide (l = l')) as [->|Hne].
  - rewrite lookup_insert_eq. eauto.
  - now rewrite lookup_insert_ne.
Qed.

Lemma allocated_not_fresh (h : heap num) (l : loc) :
  allocated h l -> l <> fresh (dom h).
Proof.
  intros [rows Hl] ->. rewrite fresh_not_allocated in Hl. discriminate.
Qed.

Lemma calculateMonolith_alloc (v : variant) (s : VoidState num) (h : heap num) :
  exists rows,
    snd (calculateMonolith v s h) = <[fresh (dom h) := rows]> h /\
    titans (fst (calculateMonolith v s h)) = fresh (dom h).
Proof.
  destruct v; cbn [calculateMonolith];
    unfold calculateMonolithA, calculateMonolithB, alloc;
    eexists; (split; [reflexivity|]); unfold gtb; case_guards; reflexivity.
Qed.

(** A completed recompute stores one new array, points the state at it,
    and hands the callback, if there is one, a copy of the state. *)
Lemma recompute_effect (v : variant) (e : VoidEngine num) (h : heap num) :
  exists e' rows,
    recompute_and_publish v e h =
      (e', <[fresh (dom h) := rows]> h,
       if onUpdate e then Some (state e') else None) /\
    titans (state e') = fresh (dom h).
Proof.
  unfold recompute_and_publish.
  destruct (calculateMonolith_alloc v (state (updateRegime v e)) h)
    as (rows & Hh & Ht).
  destruct (calculateMonolith v (state (updateRegime v e)) h) as [s2 h2].
  cbn in Hh, Ht. subst h2. exists (with_state s2 (updateRegime v e)), rows.
  split; [|exact Ht]. cbn.
  unfold updateRegime. destruct (10 <? _); reflexivity.
Qed.

(** The two ways a delivery can end. *)
Lemma onmessage_effect (v : variant) (t_now : num) (msg : message num)
    (e : VoidEngine num) (h : heap num) :
  (exists e', onmessage v t_now msg e h = (e', h, None) /\ state e' = state e) \/
  (exists e' rows pub,
      onmessage v t_now msg e h = (e', <[fresh (dom h) := rows]> h, pub) /\
      titans (state e') = fresh (dom h) /\
      (pub = None \/ pub = Some (state e'))).
Proof.
  assert (Hrec : forall e1,
             exists e' rows pub,
               recompute_and_publish v e1 h =
                 (e', <[fresh (dom h) := rows]> h, pub) /\
               titans (state e') = fresh (dom h) /\
               (pub = None \/ pub = Some (state e'))).
  { intros e1. destruct (recompute_effect v e1 h) as (e' & rows & -> & Ht).
    exists e', rows. eexists. split; [reflexivity|]. split; [exact Ht|].
    destruct (onUpdate e1); auto. }
  destruct msg as [| |p q m|b a|]; cbn.
  - left. eauto.
  - left. eauto.
  - right. apply Hrec.
  - pose proof (ingested_processBook b a e) as Hb.
    destruct (processBook b a e) as [e1|e1].
    + right. apply Hrec.
    + left. exists e1. split; [reflexivity | apply Hb].
  - right. apply Hrec.
Qed.

Lemma heap_inv_init (v : variant) (callback : bool) :
  heap_inv (init_world v callback).
Proof.
  split; [|split]; cbn [init_world w_engine w_heap w_snapshots].
  - unfold allocated, init_heap. cbn [init_engine state init_state titans].
    rewrite lookup_singleton_eq. eauto.
  - intros i s Hs. discriminate Hs.
  - intros i j si sj Hs. discriminate Hs.
Qed.

Lemma lookup_snoc_inv {A} (l : list A) (x y : A) (i : nat) :
  (l ++ [x]) !! i = Some y ->
  (i < length l /\ l !! i = Some y) \/ (i = length l /\ y = x).
Proof.
  intros Hi. destruct (decide (i < length l)) as [Hlt|Hge].
  - left. split; [exact Hlt|]. now rewrite lookup_app_l in Hi.
  - right. rewrite lookup_app_r in Hi by lia.
    destruct (i - length l) as [|n] eqn:E; cbn in Hi; [|discriminate].
    split; [lia | congruence].
Qed.

Lemma heap_inv_deliver (v : variant) (w : World num) (t_now : num)
    (msg : message num) :
  heap_inv w -> heap_inv (step v w (Deliver t_now msg)).
Proof.
  intros (He & Hs & Hd). cbn [step].
  destruct (onmessage_effect v t_now msg (w_engine w) (w_heap w))
    as [(e' & -> & Hst) | (e' & rows & pub & -> & Ht & Hpub)].
  - split; [|split]; cbn; rewrite ?app_nil_r; [now rewrite Hst | exact Hs | exact Hd].
  - assert (Hnew : allocated (<[fresh (dom (w_heap w)) := rows]> (w_heap w))
                             (fresh (dom (w_heap w)))).
    { unfold allocated. rewrite lookup_insert_eq. eauto. }
    destruct Hpub as [-> | ->]; (split; [|split]); cbn; rewrite ?app_nil_r.
    + now rewrite Ht.
    + intros i s Hi. apply allocated_insert. eauto.
    + exact Hd.
    + now rewrite Ht.
    + intros i s Hi. destruct (lookup_snoc_inv _ _ _ _ Hi) as [[_ Hi'] | [_ ->]].
      * apply allocated_insert. eauto.
      * now rewrite Ht.
    + intros i j si sj Hi Hj Heq.
      destruct (lookup_snoc_inv _ _ _ _ Hi) as [[Hil Hi'] | [-> ->]],
               (lookup_snoc_inv _ _ _ _ Hj) as [[Hjl Hj'] | [-> ->]].
      * eauto.
      * rewrite Ht in Heq. now apply Hs, allocated_not_fresh in Hi'.
      * rewrite Ht in Heq. symmetry in Heq. now apply Hs, allocated_not_fresh in Hj'.
      * reflexivity.
Qed.

Lemma write_field_titans (fw : field_write num) (s : VoidState num) :
  titans (write_field fw s) = titans s.
Proof. destruct fw; reflexivity. Qed.

Lemma lookup_alter_inv {A} (g : A -> A) (l : list A) (i j : nat) (y : A) :
  alter g i l !! j = Some y ->
  (j <> i /\ l !! j = Some y) \/ (j = i /\ exists x, l !! i = Some x /\ y = g x).
Proof.
  intros Hj. destruct (decide (i = j)) as [->|Hne].
  - right. split; [reflexivity|]. rewrite list_lookup_alter_eq in Hj.
    destruct (l !! j) as [x|]; [|discriminate]. exists x. split; [reflexivity|].
    cbn in Hj. congruence.
  - left. split; [congruence|]. now rewrite list_lookup_alter_ne in Hj.
Qed.

Lemma heap_inv_step (v : variant) (w : World num) (a : action num) :
  heap_inv w -> heap_inv (step v w a).
Proof.
  destruct a as [t_now msg|i fw|i rows|i f]; [apply heap_inv_deliver| | |];
    intros (He & Hs & Hd); cbn [step].
  - split; [|split]; cbn; [exact He| |].
    + intros j s Hj. destruct (lookup_alter_inv _ _ _ _ _ Hj)
        as [[_ Hj'] | [_ (x & Hx & ->)]]; [eauto|].
      rewrite write_field_titans. eauto.
    + intros j k sj sk Hj Hk.
      destruct (lookup_alter_inv _ _ _ _ _ Hj) as [[_ Hj'] | [-> (x & Hx & ->)]],
               (lookup_alter_inv _ _ _ _ _ Hk) as [[_ Hk'] | [-> (y & Hy & ->)]];
        rewrite ?write_field_titans; eauto.
  - destruct (w_snapshots w !! i) as [si|] eqn:Ei; [|now split].
    cbn [alloc].
    split; [|split]; cbn.
    + now apply allocated_insert.
    + intros j s Hj. destruct (lookup_alter_inv _ _ _ _ _ Hj)
        as [[_ Hj'] | [_ (x & Hx & ->)]].
      * apply allocated_insert. eauto.
      * unfold allocated. cbn. rewrite lookup_insert_eq. eauto.
    + intros j k sj sk Hj Hk Heq.
      destruct (lookup_alter_inv _ _ _ _ _ Hj) as [[Hji Hj'] | [-> (x & Hx & ->)]],
               (lookup_alter_inv _ _ _ _ _ Hk) as [[Hki Hk'] | [-> (y & Hy & ->)]];
        cbn in Heq.
      * eauto.
      * now apply Hs, allocated_not_fresh in Hj'.
      * symmetry in Heq. now apply Hs, allocated_not_fresh in Hk'.
      * reflexivity.
  - destruct (w_snapshots w !! i) as [si|] eqn:Ei; [|now split].
    assert (Hkeep : forall l, allocated (w_heap w) l ->
                              allocated (alter f (titans si) (w_heap w)) l).
    { intros l [rows Hl]. unfold allocated.
      destruct (decide (titans si = l)) as [->|Hne].
      - rewrite lookup_alter_eq, Hl. cbn. eauto.
      - rewrite lookup_alter_ne by exact Hne. eauto. }
    split; [|split]; cbn; eauto.
Qed.

Lemma heap_inv_reachable (v : variant) (w : World num) :
  reachable v w -> heap_inv w.
Proof.
  apply (reachable_ind v heap_inv).
  - apply heap_inv_init.
  - intros w' a _. apply heap_inv_step.
Qed.

End HeapTheory.

(** C1, as worded, fails for the titans sequence: the snapshot carries the
    engine's own array.  First file, doubles: after one trade print the
    callback holds snapshot 0; setting [active] of its first titans row
    changes the rows of the engine's [state.titans]. *)
Lemma titans_write_reaches_engine :
  let w := run (num:=float) VariantA (init_world VariantA true)
             [Deliver (lit 17000000005 1)
                      (AggTrade (lit 27000 0) (lit 2 0) false)] in
  let activate_first (rows : list (TitanStatus float)) :=
    match rows with
    | r :: rest => {| name := name r; value := value r; active := true |} :: rest
    | [] => []
    end in
  ~ deep_copy_as_specified VariantA w (MutateTitans 0 activate_first).
Proof.
  intros w activate_first Hclaim. specialize (Hclaim eq_refl).
  apply (f_equal (fun view => option_map (map active) (snd view))) in Hclaim.
  vm_compute in Hclaim. discriminate Hclaim.
Qed.

(** C1, amended. Every publish hands the callback a new object whose
    fields are copies and whose titans field refers to the engine's
    current array.  In every reachable state: a later ingest changes no
    snapshot already handed out (fields and titans rows); assigning a
    field of a snapshot, its titans field included, changes neither what
    the engine holds nor any other snapshot; changing a snapshot's titans
    array in place changes no other snapshot and no field of the engine
    object. *)
Theorem snapshots_are_shallow_copies :
  forall (num : Type) (N : Number num) (R : Sqrt num) (v : variant)
         (w : World num),
    reachable v w ->
    (forall t_now msg j view,
        snapshot_view w j = Some view ->
        snapshot_view (step v w (Deliver t_now msg)) j = Some view) /\
    (forall t_now msg,
        let w' := step v w (Deliver t_now msg) in
        w_snapshots w' = w_snapshots w \/
        (w_snapshots w' = w_snapshots w ++ [state (w_engine w')] /\
         ~ allocated (w_heap w) (titans (state (w_engine w'))))) /\
    (forall i fw,
        engine_view (step v w (AssignField i fw)) = engine_view w /\
        forall j, j <> i ->
          snapshot_view (step v w (AssignField i fw)) j = snapshot_view w j) /\
    (forall i rows,
        engine_view (step v w (AssignTitans i rows)) = engine_view w /\
        forall j, j <> i ->
          snapshot_view (step v w (AssignTitans i rows)) j = snapshot_view w j) /\
    (forall i f,
        w_engine (step v w (MutateTitans i f)) = w_engine w /\
        forall j, j <> i ->
          snapshot_view (step v w (MutateTitans i f)) j = snapshot_view w j).
Proof.
  intros num N R v w Hw.
  destruct (heap_inv_reachable v w Hw) as (He & Hs & Hd).
  split; [|split; [|split; [|split]]].
  - (* a later ingest *)
    intros t_now msg j view. unfold snapshot_view. cbn [step].
    destruct (w_snapshots w !! j) as [s|] eqn:Ej; [|discriminate].
    intros [= <-].
    assert (Hj : j < length (w_snapshots w)) by (apply lookup_lt_is_Some; eauto).
    destruct (onmessage_effect v t_now msg (w_engine w) (w_heap w))
      as [(e' & -> & _) | (e' & rows & pub & -> & _ & _)]; cbn.
    + now rewrite app_nil_r, Ej.
    + rewrite lookup_app_l, Ej by exact Hj.
      rewrite lookup_insert_ne; [reflexivity|].
      apply not_eq_sym, allocated_not_fresh. eauto.
  - (* what a delivery adds *)
    intros t_now msg. cbn [step].
    destruct (onmessage_effect v t_now msg (w_engine w) (w_heap w))
      as [(e' & -> & _) | (e' & rows & pub & -> & Ht & [-> | ->])]; cbn.
    + left. apply app_nil_r.
    + left. apply app_nil_r.
    + right. split; [reflexivity|]. rewrite Ht. unfold allocated.
      rewrite fresh_not_allocated. intros [x Hx]. discriminate Hx.
  - (* snap.f = x *)
    intros i fw. split; [reflexivity|]. intros j Hne.
    unfold snapshot_view. cbn. now rewrite list_lookup_alter_ne by congruence.
  - (* snap.titans = [ ... ] *)
    intros i rows. cbn [step].
    destruct (w_snapshots w !! i) as [si|] eqn:Ei; [|split; reflexivity].
    cbn [alloc]. split.
    + unfold engine_view. cbn. rewrite lookup_insert_ne; [reflexivity|].
      apply not_eq_sym, allocated_not_fresh, He.
    + intros j Hne. unfold snapshot_view. cbn.
      rewrite list_lookup_alter_ne by congruence.
      destruct (w_snapshots w !! j) as [sj|] eqn:Ej; [|reflexivity].
      rewrite lookup_insert_ne; [reflexivity|].
      apply not_eq_sym, allocated_not_fresh. eauto.
  - (* snap.titans changed in place *)
    intros i f. cbn [step].
    destruct (w_snapshots w !! i) as [si|] eqn:Ei; [|split; reflexivity].
    split; [reflexivity|].
    intros j Hne. unfold snapshot_view. cbn.
    destruct (w_snapshots w !! j) as [sj|] eqn:Ej; [|reflexivity].
    rewrite lookup_alter_ne; [reflexivity|].
    intros Heq. apply Hne. symmetry. eauto.
Qed.

Lemma snapshots_are_shallow_copies_witness :
  let w := run (num:=float) VariantA (init_world VariantA true)
             [Deliver (lit 17000000005 1) (AggTrade (lit 27000 0) (lit 2 0) false);
              Deliver (lit 17000000006 1) (AggTrade (lit 27001 0) (lit 1 0) true);
              MutateTitans 0 (fun rows => tail rows)] in
  let a := MutateTitans 1 (fun rows => rows ++ rows) in
  w_engine (step VariantA w a) = w_engine w /\
  forall j, j <> 1 -> snapshot_view (step VariantA w a) j = snapshot_view w j.
Proof.
  intros w a.
  apply (snapshots_are_shallow_copies float _ _ VariantA w).
  apply reachable_run, reachable_init.
Defined.

(** C9, as worded, fails for a message that parses but is malformed past
    the point of the first write.  Doubles: a depth delta with one bid
    pair and no ask array throws in the second [forEach], after the bid
    map has been written. *)
Lemma half_applied_depth_delta :
  ~ drop_as_specified (num:=float) VariantA (lit 17000000005 1)
      (Depth (Some [Some (lit 27000 0, lit 2 0)]) None)
      (init_engine true) (init_heap VariantA).
Proof.
  intros Hclaim. specialize (Hclaim eq_refl).
  apply (f_equal (fun r => length (book_bids (fst (fst r))))) in Hclaim.
  vm_compute in Hclaim. discriminate Hclaim.
Qed.

(** C9, amended. A message that is not JSON, or whose envelope cannot be
    read (the parsed value is null, the stream name has no [includes]
    method, or a trade or depth message has no payload), or that is a
    depth delta failing before its first update (its bid side is not an
    array or begins with an entry that cannot be destructured, or its bid
    side is an empty array and its ask side is not an array or begins
    with such an entry), is dropped before anything is written: the
    handler leaves the engine (trade buffer, book maps, imbalance
    history, published state) and the arrays as they were, recomputes
    nothing and publishes nothing. *)
Theorem rejected_message_changes_nothing :
  forall (num : Type) (N : Number num) (R : Sqrt num) (v : variant)
         (t_now : num) (msg : message num),
    rejected_before_write msg = true ->
    (forall (e : VoidEngine num) (h : heap num),
        onmessage v t_now msg e h = (e, h, None)) /\
    (forall w : World num, step v w (Deliver t_now msg) = w).
Proof.
  intros num N R v t_now msg Hrej.
  assert (Hdrop : forall e h, onmessage v t_now msg e h = (e, h, None)).
  { intros e h.
    destruct msg as [| |p q m|[[|[u|] bs]|] a|]; try discriminate Hrej;
      try reflexivity.
    - destruct a as [[|[u|] sells]|]; try discriminate Hrej;
        destruct e; reflexivity.
    - destruct e; reflexivity. }
  split; [exact Hdrop|].
  intros [e h snaps]. cbn [step w_engine w_heap w_snapshots].
  rewrite Hdrop. now rewrite app_nil_r.
Qed.

Lemma rejected_message_changes_nothing_witness :
  (forall (e : VoidEngine float) (h : heap float),
      onmessage VariantB (lit 17000000005 1)
                (Depth (Some [None; Some (lit 27000 0, lit 2 0)])
                       (Some [Some (lit 27001 0, lit 3 0)])) e h = (e, h, None)) /\
  (forall w : World float,
      step VariantB w (Deliver (lit 17000000005 1)
                               (Depth (Some [None; Some (lit 27000 0, lit 2 0)])
                                      (Some [Some (lit 27001 0, lit 3 0)]))) = w).
Proof.
  apply (rejected_message_changes_nothing float _ _ VariantB).
  reflexivity.
Defined.

(** * Further properties *)

(** ** Rounding in binary floating point

    Facts about [SpecFloat]'s rounding, for any precision: a rounded
    value never crosses a representable number. *)

Section Rounding.
Local Open Scope Z_scope.
Variables prec emax : Z.
Hypothesis prec_pos : 0 < prec.

Local Abbreviation fexp := (SpecFloat.fexp prec emax).
Local Abbreviation emin := (SpecFloat.emin prec emax).

Lemma fexp_mono (e1 e2 : Z) : e1 <= e2 -> fexp e1 <= fexp e2.
Proof. unfold SpecFloat.fexp. lia. Qed.

Lemma fexp_ge_emin (e : Z) : emin <= fexp e.
Proof. unfold SpecFloat.fexp. lia. Qed.

(** [digits2_pos p] is the number of binary digits of [p]. *)
Lemma digits2_pos_bounds (p : positive) :
  2 ^ (Zpos (digits2_pos p) - 1) <= Zpos p < 2 ^ Zpos (digits2_pos p).
Proof.
  induction p as [p IH|p IH|]; cbn [digits2_pos].
  - rewrite Pos2Z.inj_succ, Z.pow_succ_r by lia.
    replace (Z.succ (Zpos (digits2_pos p)) - 1) with (Z.succ (Zpos (digits2_pos p) - 1)) by lia.
    rewrite Z.pow_succ_r by lia. lia.
  - rewrite Pos2Z.inj_succ, Z.pow_succ_r by lia.
    replace (Z.succ (Zpos (digits2_pos p)) - 1) with (Z.succ (Zpos (digits2_pos p) - 1)) by lia.
    rewrite Z.pow_succ_r by lia. lia.
  - cbn. lia.
Qed.

Lemma Zdigits2_bounds (m : Z) :
  0 < m -> 2 ^ (Zdigits2 m - 1) <= m < 2 ^ Zdigits2 m.
Proof.
  destruct m as [|p|p]; try lia. intros _. apply digits2_pos_bounds.
Qed.

Lemma Zdigits2_nonneg (m : Z) : 0 <= Zdigits2 m.
Proof. destruct m; cbn; lia. Qed.

(** A larger scaled mantissa has at least the magnitude. *)
Lemma magnitude_le (m1 e1 m2 e2 e0 : Z) :
  0 < m1 -> 0 < m2 -> e0 <= e1 -> e0 <= e2 ->
  m1 * 2 ^ (e1 - e0) <= m2 * 2 ^ (e2 - e0) ->
  Zdigits2 m1 + e1 <= Zdigits2 m2 + e2.
Proof.
  intros H1 H2 He1 He2 Hle.
  pose proof (Zdigits2_bounds m1 H1) as [L1 _].
  pose proof (Zdigits2_bounds m2 H2) as [_ U2].
  pose proof (Zdigits2_nonneg m1). pose proof (Zdigits2_nonneg m2).
  assert (Hd1 : 0 < Zdigits2 m1) by (destruct m1; cbn in *; lia).
  assert (Hlt : 2 ^ (Zdigits2 m1 - 1 + (e1 - e0)) < 2 ^ (Zdigits2 m2 + (e2 - e0))).
  { rewrite !Z.pow_add_r by lia.
    assert (0 < 2 ^ (e1 - e0)) by (apply Z.pow_pos_nonneg; lia).
    assert (0 < 2 ^ (e2 - e0)) by (apply Z.pow_pos_nonneg; lia).
    nia. }
  apply Z.pow_lt_mono_r_iff in Hlt; lia.
Qed.

(** *** Right shifts *)

Lemma iter_pos_iter {A} (f : A -> A) (p : positive) (x : A) :
  SpecFloat.iter_pos f p x = Pos.iter f x p.
Proof.
  revert x. induction p as [p IH|p IH|]; intros x; cbn.
  - rewrite !IH. now rewrite <- !Pos.iter_swap.
  - now rewrite !IH.
  - reflexivity.
Qed.

(** One step halves the mantissa, rounding down, and remembers in the
    two extra bits whether something was lost. *)
Lemma shr_1_spec (mrs : shr_record) :
  0 <= shr_m mrs ->
  0 <= shr_m (shr_1 mrs) /\
  2 * shr_m (shr_1 mrs) <= shr_m mrs < 2 * shr_m (shr_1 mrs) + 2 /\
  (shr_r mrs = false -> shr_s mrs = false -> shr_m mrs = 2 * shr_m (shr_1 mrs) ->
   shr_r (shr_1 mrs) = false /\ shr_s (shr_1 mrs) = false).
Proof.
  destruct mrs as [m r s]. cbn [shr_m shr_r shr_s]. intros Hm.
  destruct m as [|[p|p|]|p]; try lia; cbn [shr_1 shr_m shr_r shr_s];
    (split; [lia|]); (split; [lia|]); intros Hr Hs Heq; subst;
    try lia; split; reflexivity.
Qed.

Lemma iter_shr_1_spec (p : positive) (mrs : shr_record) :
  0 <= shr_m mrs ->
  let out := Pos.iter shr_1 mrs p in
  0 <= shr_m out /\
  shr_m out * 2 ^ Zpos p <= shr_m mrs < (shr_m out + 1) * 2 ^ Zpos p /\
  (shr_r mrs = false -> shr_s mrs = false ->
   shr_m mrs = shr_m out * 2 ^ Zpos p ->
   shr_r out = false /\ shr_s out = false).
Proof.
  intros Hm. induction p as [|p IH] using Pos.peano_ind.
  - cbn [Pos.iter]. destruct (shr_1_spec mrs Hm) as (H0 & Hfl & Hex).
    change (2 ^ 1) with 2. repeat split; try lia.
    + apply Hex; auto; lia.
    + apply Hex; auto; lia.
  - rewrite Pos.iter_succ. cbn zeta in *.
    set (mid := Pos.iter shr_1 mrs p) in *.
    destruct IH as (H0 & Hfl & Hex).
    destruct (shr_1_spec mid H0) as (H0' & Hfl' & Hex').
    rewrite Pos2Z.inj_succ, Z.pow_succ_r by lia.
    assert (Hp : 0 < 2 ^ Zpos p) by (apply Z.pow_pos_nonneg; lia).
    split; [exact H0'|]. split; [nia|].
    intros Hr Hs Heq.
    assert (Hmid : shr_m mid = 2 * shr_m (shr_1 mid)) by nia.
    apply Hex'; [apply Hex; auto; nia | apply Hex; auto; nia | exact Hmid].
Qed.

Lemma shr_record_of_loc_m (m : Z) (l : location) :
  shr_m (shr_record_of_loc m l) = m.
Proof. destruct l as [|[]]; reflexivity. Qed.

(** The shift to the exponent of the format: the exponent reached, the
    mantissa left (the floor of the one given), and that nothing is
    marked lost when nothing was. *)
Lemma shr_fexp_spec (m e : Z) (l : location) :
  0 <= m ->
  let out := shr_fexp prec emax m e l in
  let n := snd out - e in
  snd out = Z.max e (fexp (Zdigits2 m + e)) /\
  0 <= n /\ 0 <= shr_m (fst out) /\
  shr_m (fst out) * 2 ^ n <= m < (shr_m (fst out) + 1) * 2 ^ n /\
  (l = loc_Exact -> m = shr_m (fst out) * 2 ^ n ->
   loc_of_shr_record (fst out) = loc_Exact).
Proof.
  intros Hm. unfold shr_fexp, shr.
  destruct (fexp (Zdigits2 m + e) - e) as [|p|p] eqn:En; cbn [fst snd].
  - rewrite shr_record_of_loc_m. replace (e - e) with 0 by lia.
    repeat split; try lia. intros -> _. reflexivity.
  - rewrite iter_pos_iter.
    pose proof (iter_shr_1_spec p (shr_record_of_loc m l)) as Hit.
    rewrite shr_record_of_loc_m in Hit. specialize (Hit Hm). cbn zeta in Hit.
    destruct Hit as (H0 & Hfl & Hex).
    replace (e + Zpos p - e) with (Zpos p) by lia.
    repeat split; try lia.
    intros -> Heq. destruct (Hex eq_refl eq_refl Heq) as [Hr Hs].
    destruct (Pos.iter shr_1 _ p) as [m' r' s']. cbn in Hr, Hs. now subst.
  - rewrite shr_record_of_loc_m. replace (e - e) with 0 by lia.
    repeat split; try lia. intros -> _. reflexivity.
Qed.

Lemma round_nearest_even_spec (mrs : shr_record) :
  let m' := round_nearest_even (shr_m mrs) (loc_of_shr_record mrs) in
  shr_m mrs <= m' <= shr_m mrs + 1 /\
  (loc_of_shr_record mrs = loc_Exact -> m' = shr_m mrs).
Proof.
  destruct mrs as [m [|] [|]]; cbn; try (split; [lia|]); try discriminate;
    try reflexivity; try (intros _; reflexivity).
  destruct (Z.even m); split; try lia; discriminate.
Qed.

(** *** Order on canonical positive numbers *)

Lemma canonical_digits (m : positive) (e : Z) :
  canonical_mantissa prec emax m e = true ->
  Zpos (digits2_pos m) <= prec /\ emin <= e /\
  (emin < e -> Zpos (digits2_pos m) = prec).
Proof.
  unfold canonical_mantissa, SpecFloat.fexp. intros Hc.
  apply Z.eqb_eq in Hc. lia.
Qed.

(** On canonical positive numbers [SFcompare] is the order of the values
    (here scaled by a common power of two). *)
Lemma SFcompare_canonical (m1 m2 : positive) (e1 e2 e0 : Z) :
  canonical_mantissa prec emax m1 e1 = true ->
  canonical_mantissa prec emax m2 e2 = true ->
  e0 <= e1 -> e0 <= e2 ->
  SFcompare (S754_finite false m1 e1) (S754_finite false m2 e2) =
  Some (Zpos m1 * 2 ^ (e1 - e0) ?= Zpos m2 * 2 ^ (e2 - e0)).
Proof.
  intros Hc1 Hc2 He1 He2. cbn [SFcompare]. f_equal.
  destruct (canonical_digits m1 e1 Hc1) as (Hd1 & Hm1 & Hn1).
  destruct (canonical_digits m2 e2 Hc2) as (Hd2 & Hm2 & Hn2).
  pose proof (digits2_pos_bounds m1) as [L1 U1].
  pose proof (digits2_pos_bounds m2) as [L2 U2].
  assert (Hp1 : 0 < 2 ^ (e1 - e0)) by (apply Z.pow_pos_nonneg; lia).
  assert (Hp2 : 0 < 2 ^ (e2 - e0)) by (apply Z.pow_pos_nonneg; lia).
  destruct (e1 ?= e2) eqn:Ee.
  - rewrite Z.compare_eq_iff in Ee. subst e2.
    change (Pos.compare_cont Eq m1 m2) with (Pos.compare m1 m2).
    symmetry. destruct (Pos.compare_spec m1 m2) as [->|Hlt|Hgt].
    + apply Z.compare_refl.
    + apply Z.compare_lt_iff. nia.
    + apply Z.compare_gt_iff. nia.
  - rewrite Z.compare_lt_iff in Ee. symmetry. apply Z.compare_lt_iff.
    specialize (Hn2 ltac:(lia)).
    assert (Zpos m1 < 2 ^ prec).
    { eapply Z.lt_le_trans; [exact U1|]. apply Z.pow_le_mono_r; lia. }
    rewrite Hn2 in L2.
    replace (e2 - e0) with ((e2 - e1 - 1) + 1 + (e1 - e0)) by lia.
    rewrite !Z.pow_add_r by lia. change (2 ^ 1) with 2.
    assert (Hq : 0 < 2 ^ (e2 - e1 - 1)) by (apply Z.pow_pos_nonneg; lia).
    replace prec with (prec - 1 + 1) in H by lia.
    rewrite Z.pow_add_r in H by lia. change (2 ^ 1) with 2 in H.
    set (T := 2 ^ (prec - 1)) in *. set (P := 2 ^ (e1 - e0)) in *.
    set (Q := 2 ^ (e2 - e1 - 1)) in *.
    assert (Z.pos m1 * P < 2 * T * P) by nia.
    assert (HTQ : T <= Z.pos m2 * Q) by nia.
    assert (T * (2 * P) <= Z.pos m2 * Q * (2 * P))
      by (apply Z.mul_le_mono_nonneg_r; lia).
    lia.
  - rewrite Z.compare_gt_iff in Ee. symmetry. apply Z.compare_gt_iff.
    specialize (Hn1 ltac:(lia)).
    assert (Zpos m2 < 2 ^ prec).
    { eapply Z.lt_le_trans; [exact U2|]. apply Z.pow_le_mono_r; lia. }
    rewrite Hn1 in L1.
    replace (e1 - e0) with ((e1 - e2 - 1) + 1 + (e2 - e0)) by lia.
    rewrite !Z.pow_add_r by lia. change (2 ^ 1) with 2.
    assert (Hq : 0 < 2 ^ (e1 - e2 - 1)) by (apply Z.pow_pos_nonneg; lia).
    replace prec with (prec - 1 + 1) in H by lia.
    rewrite Z.pow_add_r in H by lia. change (2 ^ 1) with 2 in H.
    set (T := 2 ^ (prec - 1)) in *. set (P := 2 ^ (e2 - e0)) in *.
    set (Q := 2 ^ (e1 - e2 - 1)) in *.
    assert (Z.pos m2 * P < 2 * T * P) by nia.
    assert (HTQ : T <= Z.pos m1 * Q) by nia.
    assert (T * (2 * P) <= Z.pos m1 * Q * (2 * P))
      by (apply Z.mul_le_mono_nonneg_r; lia).
    lia.
Qed.

(** *** Rounding does not cross a representable number *)

Lemma fexp_digits_le (m e : Z) (mB : positive) (eB e0 : Z) :
  0 <= m -> canonical_mantissa prec emax mB eB = true ->
  e0 <= e -> e <= eB ->
  m * 2 ^ (e - e0) <= Zpos mB * 2 ^ (eB - e0) ->
  fexp (Zdigits2 m + e) <= eB.
Proof.
  intros Hm Hc He0 HeB Hle.
  destruct (canonical_digits mB eB Hc) as (HdB & HmB & _).
  assert (HcB : fexp (Zpos (digits2_pos mB) + eB) = eB)
    by (apply Z.eqb_eq; exact Hc).
  destruct (Z.eq_dec m 0) as [->|Hne].
  - cbn [Zdigits2]. unfold SpecFloat.fexp. lia.
  - rewrite <- HcB. apply fexp_mono.
    apply (magnitude_le m e (Zpos mB) eB e0); lia.
Qed.

Lemma SFleb_zero_finite (s : bool) (m : positive) (e : Z) :
  SFleb (S754_zero s) (S754_finite false m e) = true.
Proof. reflexivity. Qed.

Lemma round_le_representable (mx ex : Z) (lx : location) (mB : positive) (eB : Z) :
  0 <= mx ->
  bounded prec emax mB eB = true ->
  ex <= eB ->
  (mx < Zpos mB * 2 ^ (eB - ex) \/
   (mx = Zpos mB * 2 ^ (eB - ex) /\ lx = loc_Exact)) ->
  SpecFloat.valid_binary prec emax (binary_round_aux prec emax false mx ex lx) = true ->
  SFleb (binary_round_aux prec emax false mx ex lx) (S754_finite false mB eB) = true.
Proof.
  intros Hmx Hb Hex Hk. unfold binary_round_aux.
  apply andb_prop in Hb. destruct Hb as [Hc Hmax]. apply Z.leb_le in Hmax.
  pose proof (shr_fexp_spec mx ex lx Hmx) as S1. cbn zeta in S1.
  destruct (shr_fexp prec emax mx ex lx) as [mrs1 e1]. cbn [fst snd] in S1.
  destruct S1 as (He1 & Hn1 & Hm1 & Hfl1 & Hex1).
  pose proof (round_nearest_even_spec mrs1) as R. cbn zeta in R.
  set (m2 := round_nearest_even (shr_m mrs1) (loc_of_shr_record mrs1)) in *.
  destruct R as (Hm2 & Hexact).
  set (k := Zpos mB * 2 ^ (eB - ex)) in *.
  assert (Hp1 : 0 < 2 ^ (e1 - ex)) by (apply Z.pow_pos_nonneg; lia).
  assert (HfB : fexp (Zdigits2 mx + ex) <= eB).
  { apply (fexp_digits_le mx ex mB eB ex Hmx Hc); try lia.
    replace (ex - ex) with 0 by lia. rewrite Z.pow_0_r, Z.mul_1_r. fold k. lia. }
  assert (He1B : e1 <= eB) by lia.
  assert (Hk1 : k = Zpos mB * 2 ^ (eB - e1) * 2 ^ (e1 - ex)).
  { unfold k. rewrite <- Z.mul_assoc, <- Z.pow_add_r by lia. do 2 f_equal. lia. }
  set (K1 := Zpos mB * 2 ^ (eB - e1)) in *.
  assert (HB : m2 * 2 ^ (e1 - ex) <= k).
  { destruct Hk as [Hlt | [Heq ->]].
    - assert (shr_m mrs1 < K1) by nia. nia.
    - assert (shr_m mrs1 = K1) by nia.
      rewrite Hexact; [nia|]. apply Hex1; [reflexivity | nia]. }
  assert (H0m2 : 0 <= m2) by lia.
  pose proof (shr_fexp_spec m2 e1 loc_Exact H0m2) as S2. cbn zeta in S2.
  destruct (shr_fexp prec emax m2 e1 loc_Exact) as [mrs2 e2]. cbn [fst snd] in S2.
  destruct S2 as (He2 & Hn2 & Hm3 & Hfl2 & _).
  assert (HfB2 : fexp (Zdigits2 m2 + e1) <= eB).
  { apply (fexp_digits_le m2 e1 mB eB ex H0m2 Hc); lia. }
  assert (He2B : e2 <= eB) by lia.
  assert (Hp2 : 0 < 2 ^ (e2 - e1)) by (apply Z.pow_pos_nonneg; lia).
  assert (Hval : shr_m mrs2 * 2 ^ (e2 - ex) <= k).
  { replace (e2 - ex) with ((e2 - e1) + (e1 - ex)) by lia.
    rewrite Z.pow_add_r by lia. nia. }
  destruct (shr_m mrs2) as [|p|p] eqn:Em3; [reflexivity| |lia].
  replace (e2 <=? emax - prec) with true by (symmetry; apply Z.leb_le; lia).
  cbn [SpecFloat.valid_binary]. intros Hv. apply andb_prop in Hv. destruct Hv as [Hcz _].
  unfold SFleb. rewrite (SFcompare_canonical p mB e2 eB ex Hcz Hc) by lia.
  fold k. destruct (Z.compare_spec (Zpos p * 2 ^ (e2 - ex)) k); try reflexivity. lia.
Qed.

(** The shift keeps the mantissa above any representable number below it. *)
Lemma shr_fexp_ge (m e : Z) (l : location) (mB : positive) (eB e0 : Z) :
  0 <= m -> canonical_mantissa prec emax mB eB = true ->
  e0 <= e -> e0 <= eB ->
  Zpos mB * 2 ^ (eB - e0) <= m * 2 ^ (e - e0) ->
  Zpos mB * 2 ^ (eB - e0) <=
  shr_m (fst (shr_fexp prec emax m e l)) * 2 ^ (snd (shr_fexp prec emax m e l) - e0).
Proof.
  intros Hm Hc He HeB Hle.
  pose proof (shr_fexp_spec m e l Hm) as S. cbn zeta in S.
  destruct (shr_fexp prec emax m e l) as [mrs e']. cbn [fst snd] in *.
  destruct S as (He' & Hn & Hm' & Hfl & _).
  destruct (canonical_digits mB eB Hc) as (HdB & HmB & _).
  pose proof (digits2_pos_bounds mB) as [_ UB].
  assert (Hp0 : 0 < 2 ^ (e - e0)) by (apply Z.pow_pos_nonneg; lia).
  assert (HpB : 0 < 2 ^ (eB - e0)) by (apply Z.pow_pos_nonneg; lia).
  assert (Hpn : 0 < 2 ^ (e' - e)) by (apply Z.pow_pos_nonneg; lia).
  assert (Hmpos : 0 < m) by nia.
  replace (e' - e0) with ((e' - e) + (e - e0)) by lia. rewrite Z.pow_add_r by lia.
  destruct (Z.eq_dec e' e) as [->|Hne].
  { replace (e - e) with 0 in * by lia. change (2 ^ 0) with 1 in *. nia. }
  assert (Hfe : e' = fexp (Zdigits2 m + e)) by lia.
  destruct (Z_le_gt_dec e' eB) as [HleB|HgtB].
  - (* the bound is a multiple of the new unit *)
    assert (HB : Zpos mB * 2 ^ (eB - e0) =
                 Zpos mB * 2 ^ (eB - e') * 2 ^ (e' - e) * 2 ^ (e - e0)).
    { rewrite <- !Z.mul_assoc, <- !Z.pow_add_r by lia. do 2 f_equal. lia. }
    rewrite HB in *. set (KB := Zpos mB * 2 ^ (eB - e')) in *.
    assert (KB * 2 ^ (e' - e) <= m) by nia.
    assert (KB <= shr_m mrs) by nia. nia.
  - (* the bound lies below the binade of the value *)
    assert (He'n : e' = Zdigits2 m + e - prec)
      by (unfold SpecFloat.fexp in Hfe; lia).
    pose proof (Zdigits2_bounds m Hmpos) as [Lm _].
    assert (Hm'big : 2 ^ (prec - 1) <= shr_m mrs).
    { assert (Hsplit : 2 ^ (Zdigits2 m - 1) = 2 ^ (prec - 1) * 2 ^ (e' - e)).
      { rewrite <- Z.pow_add_r by lia. f_equal. lia. }
      rewrite Hsplit in Lm. nia. }
    assert (HBsmall : Zpos mB * 2 ^ (eB - e0) < 2 ^ (prec - 1) * 2 ^ (e' - e0)).
    { assert (Zpos mB < 2 ^ prec).
      { eapply Z.lt_le_trans; [exact UB|]. apply Z.pow_le_mono_r; lia. }
      assert (Hs : 2 ^ (prec - 1) * 2 ^ (e' - e0) =
                   2 ^ prec * 2 ^ (eB - e0) * 2 ^ (e' - eB - 1)).
      { rewrite <- !Z.pow_add_r by lia. f_equal. lia. }
      rewrite Hs.
      assert (0 < 2 ^ (e' - eB - 1)) by (apply Z.pow_pos_nonneg; lia).
      assert (Zpos mB * 2 ^ (eB - e0) < 2 ^ prec * 2 ^ (eB - e0)) by nia.
      nia. }
    replace (e' - e0) with ((e' - e) + (e - e0)) in HBsmall by lia.
    rewrite Z.pow_add_r in HBsmall by lia. nia.
Qed.

Lemma representable_le_round (mx ex : Z) (lx : location) (mB : positive) (eB : Z) :
  0 <= mx ->
  bounded prec emax mB eB = true ->
  ex <= eB ->
  Zpos mB * 2 ^ (eB - ex) <= mx ->
  SpecFloat.valid_binary prec emax (binary_round_aux prec emax false mx ex lx) = true ->
  SFleb (S754_finite false mB eB) (binary_round_aux prec emax false mx ex lx) = true.
Proof.
  intros Hmx Hb Hex Hk. unfold binary_round_aux.
  apply andb_prop in Hb. destruct Hb as [Hc Hmax].
  pose proof (shr_fexp_ge mx ex lx mB eB ex Hmx Hc ltac:(lia) Hex) as G1.
  replace (ex - ex) with 0 in G1 by lia. rewrite Z.mul_1_r in G1.
  specialize (G1 Hk).
  pose proof (shr_fexp_spec mx ex lx Hmx) as S1. cbn zeta in S1.
  destruct (shr_fexp prec emax mx ex lx) as [mrs1 e1]. cbn [fst snd] in *.
  destruct S1 as (He1 & Hn1 & Hm1 & _).
  pose proof (round_nearest_even_spec mrs1) as R. cbn zeta in R.
  set (m2 := round_nearest_even (shr_m mrs1) (loc_of_shr_record mrs1)) in *.
  destruct R as (Hm2 & _).
  assert (Hp1 : 0 < 2 ^ (e1 - ex)) by (apply Z.pow_pos_nonneg; lia).
  assert (H0m2 : 0 <= m2) by lia.
  assert (G2pre : Zpos mB * 2 ^ (eB - ex) <= m2 * 2 ^ (e1 - ex)) by nia.
  pose proof (shr_fexp_ge m2 e1 loc_Exact mB eB ex H0m2 Hc ltac:(lia) Hex G2pre) as G2.
  pose proof (shr_fexp_spec m2 e1 loc_Exact H0m2) as S2. cbn zeta in S2.
  destruct (shr_fexp prec emax m2 e1 loc_Exact) as [mrs2 e2]. cbn [fst snd] in *.
  destruct S2 as (He2 & Hn2 & Hm3 & _).
  assert (HpB : 0 < 2 ^ (eB - ex)) by (apply Z.pow_pos_nonneg; lia).
  assert (Hp2 : 0 < 2 ^ (e2 - ex)) by (apply Z.pow_pos_nonneg; lia).
  destruct (shr_m mrs2) as [|p|p] eqn:Em3; [nia| |lia].
  destruct (e2 <=? emax - prec); [|reflexivity].
  cbn [SpecFloat.valid_binary]. intros Hv. apply andb_prop in Hv. destruct Hv as [Hcz _].
  unfold SFleb. rewrite (SFcompare_canonical mB p eB e2 ex Hc Hcz) by lia.
  destruct (Z.compare_spec (Zpos mB * 2 ^ (eB - ex)) (Zpos p * 2 ^ (e2 - ex)));
    try reflexivity. lia.
Qed.

End Rounding.

(** ** binary64 *)

Section Binary64.
Local Open Scope Z_scope.

Lemma prec_positive : 0 < prec.
Proof. reflexivity. Qed.

Lemma bounded_emin (m : positive) (e : Z) :
  bounded prec emax m e = true -> emin <= e.
Proof.
  intros Hb. apply andb_prop in Hb. destruct Hb as [Hc _].
  destruct (canonical_digits prec emax m e Hc) as (_ & He & _). exact He.
Qed.

Lemma ulps_pos (m : positive) (e : Z) : emin <= e -> 0 < ulps m e.
Proof.
  intros He. unfold ulps.
  assert (0 < 2 ^ (e - emin)) by (apply Z.pow_pos_nonneg; lia). lia.
Qed.

Lemma SFleb_ulps (m1 m2 : positive) (e1 e2 : Z) :
  bounded prec emax m1 e1 = true -> bounded prec emax m2 e2 = true ->
  SFleb (S754_finite false m1 e1) (S754_finite false m2 e2) =
  (ulps m1 e1 <=? ulps m2 e2).
Proof.
  intros Hb1 Hb2.
  pose proof (bounded_emin m1 e1 Hb1). pose proof (bounded_emin m2 e2 Hb2).
  apply andb_prop in Hb1, Hb2. destruct Hb1 as [Hc1 _], Hb2 as [Hc2 _].
  unfold SFleb.
  rewrite (SFcompare_canonical prec emax prec_positive m1 m2 e1 e2 emin Hc1 Hc2)
    by lia.
  fold (ulps m1 e1) (ulps m2 e2). unfold Z.leb.
  destruct (ulps m1 e1 ?= ulps m2 e2); reflexivity.
Qed.

Lemma binary_round_aux_sign (m e : Z) (l : location) :
  binary_round_aux prec emax true m e l =
  SFopp (binary_round_aux prec emax false m e l).
Proof.
  unfold binary_round_aux.
  destruct (shr_fexp prec emax m e l) as [mrs1 e1].
  destruct (shr_fexp prec emax _ e1 loc_Exact) as [mrs2 e2].
  destruct (shr_m mrs2); try reflexivity.
  destruct (e2 <=? emax - prec); reflexivity.
Qed.

Lemma valid_binary_SFopp (x : spec_float) :
  SpecFloat.valid_binary prec emax (SFopp x) = SpecFloat.valid_binary prec emax x.
Proof. destruct x; reflexivity. Qed.

Lemma iter_xO (m d : positive) : Zpos (Pos.iter xO m d) = Zpos m * 2 ^ Zpos d.
Proof.
  induction d as [|d IH] using Pos.peano_ind.
  - cbn. lia.
  - rewrite Pos.iter_succ, Pos2Z.inj_succ, Z.pow_succ_r by lia.
    rewrite Pos2Z.inj_xO, IH. lia.
Qed.

(** Aligning a mantissa to a lower exponent multiplies it by the power of
    two in between. *)
Lemma shl_align_spec (m : positive) (e e' : Z) :
  snd (shl_align m e e') = Z.min e e' /\
  Zpos (fst (shl_align m e e')) = Zpos m * 2 ^ (e - Z.min e e').
Proof.
  unfold shl_align. destruct (e' - e) as [|d|d] eqn:E; cbn [fst snd].
  - replace (Z.min e e') with e by lia. replace (e - e) with 0 by lia.
    cbn. lia.
  - replace (Z.min e e') with e by lia. replace (e - e) with 0 by lia.
    cbn. lia.
  - replace (Z.min e e') with e' by lia. split; [reflexivity|].
    rewrite iter_xO. do 2 f_equal. lia.
Qed.

(** Normalizing a positive integer mantissa rounds it once, exactly
    located, possibly after aligning it to a lower exponent. *)
Lemma binary_round_spec (s : bool) (m : positive) (e : Z) :
  exists (mz : positive) (ez : Z),
    ez <= e /\ Zpos mz = Zpos m * 2 ^ (e - ez) /\
    binary_round prec emax s m e =
    binary_round_aux prec emax s (Zpos mz) ez loc_Exact.
Proof.
  unfold binary_round.
  destruct (shl_align_spec m e (SpecFloat.fexp prec emax (Zpos (digits2_pos m) + e)))
    as [Hs Hf].
  destruct (shl_align m e _) as [mz ez]. cbn [fst snd] in *.
  exists mz, ez. subst ez. split; [lia|]. split; [exact Hf | reflexivity].
Qed.

(** *** Sum and difference of two positive numbers *)

Lemma SFadd_pos_spec (ma mb : positive) (ea eb : Z) :
  exists (mz : positive) (ez : Z),
    ez <= ea /\ ez <= eb /\
    Zpos mz = Zpos ma * 2 ^ (ea - ez) + Zpos mb * 2 ^ (eb - ez) /\
    SFadd prec emax (S754_finite false ma ea) (S754_finite false mb eb) =
    binary_round_aux prec emax false (Zpos mz) ez loc_Exact.
Proof.
  cbn [SFadd cond_Zopp].
  destruct (shl_align_spec ma ea (Z.min ea eb)) as [_ Ha].
  destruct (shl_align_spec mb eb (Z.min ea eb)) as [_ Hb].
  replace (Z.min ea (Z.min ea eb)) with (Z.min ea eb) in Ha by lia.
  replace (Z.min eb (Z.min ea eb)) with (Z.min ea eb) in Hb by lia.
  set (ma' := fst (shl_align ma ea (Z.min ea eb))) in *.
  set (mb' := fst (shl_align mb eb (Z.min ea eb))) in *.
  change (Zpos ma' + Zpos mb') with (Zpos (ma' + mb')).
  cbn [binary_normalize].
  destruct (binary_round_spec false (ma' + mb') (Z.min ea eb)) as (mz & ez & Hez & Hmz & ->).
  exists mz, ez. split; [lia|]. split; [lia|]. split; [|reflexivity].
  rewrite Hmz, Pos2Z.inj_add, Ha, Hb.
  rewrite Z.mul_add_distr_r, <- !Z.mul_assoc, <- !Z.pow_add_r by lia.
  f_equal; do 2 f_equal; lia.
Qed.

Lemma SFsub_pos_spec (ma mb : positive) (ea eb : Z) :
  let d := SFsub prec emax (S754_finite false ma ea) (S754_finite false mb eb) in
  d = S754_zero false \/
  (exists (mz : positive) (ez : Z),
      ez <= ea /\ Zpos mz < Zpos ma * 2 ^ (ea - ez) /\
      d = binary_round_aux prec emax false (Zpos mz) ez loc_Exact) \/
  (exists (mz : positive) (ez : Z),
      ez <= eb /\ Zpos mz < Zpos mb * 2 ^ (eb - ez) /\
      d = binary_round_aux prec emax true (Zpos mz) ez loc_Exact).
Proof.
  cbn [SFsub cond_Zopp]. cbn zeta.
  destruct (shl_align_spec ma ea (Z.min ea eb)) as [_ Ha].
  destruct (shl_align_spec mb eb (Z.min ea eb)) as [_ Hb].
  replace (Z.min ea (Z.min ea eb)) with (Z.min ea eb) in Ha by lia.
  replace (Z.min eb (Z.min ea eb)) with (Z.min ea eb) in Hb by lia.
  set (ma' := fst (shl_align ma ea (Z.min ea eb))) in *.
  set (mb' := fst (shl_align mb eb (Z.min ea eb))) in *.
  destruct (Zpos ma' - Zpos mb') as [|p|p] eqn:E; cbn [binary_normalize].
  - left. reflexivity.
  - right. left.
    destruct (binary_round_spec false p (Z.min ea eb)) as (mz & ez & Hez & Hmz & ->).
    exists mz, ez. split; [lia|]. split; [|reflexivity].
    assert (Hp : 0 < 2 ^ (Z.min ea eb - ez)) by (apply Z.pow_pos_nonneg; lia).
    replace (ea - ez) with ((ea - Z.min ea eb) + (Z.min ea eb - ez)) by lia.
    rewrite Z.pow_add_r, Z.mul_assoc, <- Ha, Hmz by lia. nia.
  - right. right.
    destruct (binary_round_spec true p (Z.min ea eb)) as (mz & ez & Hez & Hmz & ->).
    exists mz, ez. split; [lia|]. split; [|reflexivity].
    assert (Hp : 0 < 2 ^ (Z.min ea eb - ez)) by (apply Z.pow_pos_nonneg; lia).
    replace (eb - ez) with ((eb - Z.min ea eb) + (Z.min ea eb - ez)) by lia.
    rewrite Z.pow_add_r, Z.mul_assoc, <- Hb, Hmz by lia. nia.
Qed.

Lemma SFleb_finite_inv (m : positive) (e : Z) (x : spec_float) :
  bounded prec emax m e = true ->
  SpecFloat.valid_binary prec emax x = true ->
  SFleb (S754_finite false m e) x = true ->
  x = S754_infinity false \/
  exists mx ex, x = S754_finite false mx ex /\ ulps m e <= ulps mx ex.
Proof.
  intros Hb Hv Hle. destruct x as [sx|sx| |sx mx ex]; try discriminate Hle.
  - destruct sx; [discriminate Hle | now left].
  - destruct sx; [discriminate Hle|]. right. exists mx, ex. split; [reflexivity|].
    rewrite (SFleb_ulps m mx e ex Hb Hv) in Hle. now apply Z.leb_le.
Qed.

Lemma SFabs_binary_round_aux (m e : Z) (l : location) :
  SFabs (binary_round_aux prec emax false m e l) =
  binary_round_aux prec emax false m e l.
Proof.
  unfold binary_round_aux.
  destruct (shr_fexp prec emax m e l) as [mrs1 e1].
  destruct (shr_fexp prec emax _ e1 loc_Exact) as [mrs2 e2].
  destruct (shr_m mrs2); try reflexivity.
  destruct (e2 <=? emax - prec); reflexivity.
Qed.

Lemma SFleb_inv_finite (m : positive) (e : Z) (x : spec_float) :
  bounded prec emax m e = true ->
  SpecFloat.valid_binary prec emax x = true ->
  SFabs x = x ->
  SFleb x (S754_finite false m e) = true ->
  x = S754_zero false \/
  exists mx ex, x = S754_finite false mx ex /\ ulps mx ex <= ulps m e.
Proof.
  intros Hb Hv Habs Hle.
  destruct x as [[|]|[|]| |[|] mx ex]; try discriminate Hle; try discriminate Habs.
  - now left.
  - right. exists mx, ex. split; [reflexivity|].
    rewrite (SFleb_ulps mx m ex e Hv Hb) in Hle. now apply Z.leb_le.
Qed.

(** The sum of two non-negative finite numbers bounds their difference. *)
Lemma difference_at_most_sum (a b : spec_float) :
  nonneg_finite a -> nonneg_finite b ->
  SpecFloat.valid_binary prec emax a = true ->
  SpecFloat.valid_binary prec emax b = true ->
  SpecFloat.valid_binary prec emax (SFadd prec emax a b) = true ->
  SpecFloat.valid_binary prec emax (SFsub prec emax a b) = true ->
  (exists s, SFadd prec emax a b = S754_zero s) \/
  magnitude_at_most (SFsub prec emax a b) (SFadd prec emax a b).
Proof.
  intros Ha Hb Hva Hvb Hvs Hvd.
  destruct a as [sa|sa| |[|] ma ea]; try contradiction;
    destruct b as [sb|sb| |[|] mb eb]; try contradiction.
  - left. cbn. destruct sa, sb; eauto.
  - right. cbn [SFadd SFsub magnitude_at_most negb]. lia.
  - right. cbn [SFadd SFsub magnitude_at_most]. lia.
  - right.
    destruct (SFadd_pos_spec ma mb ea eb) as (mz & ez & Hza & Hzb & Hmz & Es).
    pose proof (bounded_emin ma ea Hva) as Hea.
    pose proof (bounded_emin mb eb Hvb) as Heb.
    assert (Hpa : 0 < 2 ^ (ea - ez)) by (apply Z.pow_pos_nonneg; lia).
    assert (Hpb : 0 < 2 ^ (eb - ez)) by (apply Z.pow_pos_nonneg; lia).
    assert (Hsa : SFleb (S754_finite false ma ea) (SFadd prec emax (S754_finite false ma ea) (S754_finite false mb eb)) = true).
    { rewrite Es in *. apply (representable_le_round prec emax prec_positive);
        try assumption; lia. }
    assert (Hsb : SFleb (S754_finite false mb eb) (SFadd prec emax (S754_finite false ma ea) (S754_finite false mb eb)) = true).
    { rewrite Es in *. apply (representable_le_round prec emax prec_positive);
        try assumption; lia. }
    assert (Hd : exists c mc ec,
               bounded prec emax mc ec = true /\
               SFleb (S754_finite false mc ec) (SFadd prec emax (S754_finite false ma ea) (S754_finite false mb eb)) = true /\
               SFabs c = c /\ SpecFloat.valid_binary prec emax c = true /\
               SFleb c (S754_finite false mc ec) = true /\
               (SFsub prec emax (S754_finite false ma ea) (S754_finite false mb eb) = c \/
                SFsub prec emax (S754_finite false ma ea) (S754_finite false mb eb) = SFopp c)).
    { destruct (SFsub_pos_spec ma mb ea eb) as [E | [(mz' & ez' & Hez & Hlt & E) | (mz' & ez' & Hez & Hlt & E)]];
        cbn zeta in E.
      - exists (S754_zero false), ma, ea. rewrite E. repeat split; auto.
      - exists (SFsub prec emax (S754_finite false ma ea) (S754_finite false mb eb)), ma, ea.
        repeat split; auto.
        + rewrite E. apply SFabs_binary_round_aux.
        + rewrite E in *. apply (round_le_representable prec emax prec_positive);
            try assumption; lia.
      - exists (binary_round_aux prec emax false (Zpos mz') ez' loc_Exact), mb, eb.
        rewrite E, binary_round_aux_sign in Hvd. rewrite valid_binary_SFopp in Hvd.
        repeat split; auto.
        + apply SFabs_binary_round_aux.
        + apply (round_le_representable prec emax prec_positive);
            try assumption; lia.
        + right. rewrite E. apply binary_round_aux_sign. }
    destruct Hd as (c & mc & ec & Hbc & Hcs & Habs & Hvc & Hcle & Hdc).
    destruct (SFleb_finite_inv mc ec _ Hbc Hvs Hcs) as [Es' | (ms & es & Es' & Hle1)];
      destruct (SFleb_inv_finite mc ec c Hbc Hvc Habs Hcle) as [Ec | (md & ed & Ec & Hle2)];
      rewrite Es'; subst c; destruct Hdc as [-> | ->];
      cbn [magnitude_at_most SFopp]; try exact I; lia.
Qed.

(** *** Quotient by a number of larger magnitude *)

Lemma SF_one_bounded : bounded prec emax 4503599627370496 (-52) = true.
Proof. reflexivity. Qed.

Lemma SFcompare_negative (m1 m2 : positive) (e1 e2 : Z) :
  SFcompare (S754_finite true m1 e1) (S754_finite true m2 e2) =
  SFcompare (S754_finite false m2 e2) (S754_finite false m1 e1).
Proof.
  cbn [SFcompare]. f_equal.
  change (Pos.compare_cont Eq ?a ?b) with (Pos.compare a b).
  destruct (Z.compare_spec e1 e2) as [E|H|H], (Z.compare_spec e2 e1) as [E'|H'|H'];
    try lia; try reflexivity.
  rewrite (Pos.compare_antisym m1 m2). destruct (m1 ?= m2)%positive; reflexivity.
Qed.

Lemma new_location_zero (n : Z) : new_location n 0 = loc_Exact.
Proof.
  unfold new_location, new_location_even, new_location_odd.
  destruct (Z.even n); reflexivity.
Qed.

Lemma SFdiv_core_binary_spec (md ms : positive) (ed es : Z) :
  emin <= ed -> emin <= es ->
  ulps md ed <= ulps ms es ->
  let '(q, e', l) := SFdiv_core_binary prec emax (Zpos md) ed (Zpos ms) es in
  0 <= q /\ e' <= -52 /\
  (q < 4503599627370496 * 2 ^ (-52 - e') \/
   (q = 4503599627370496 * 2 ^ (-52 - e') /\ l = loc_Exact)).
Proof.
  intros Hed Hes Hle. unfold SFdiv_core_binary.
  set (e' := Z.min (SpecFloat.fexp prec emax (Zdigits2 (Zpos md) + ed - (Zdigits2 (Zpos ms) + es))) (ed - es)).
  assert (Hmag : Zdigits2 (Zpos md) + ed <= Zdigits2 (Zpos ms) + es).
  { apply (magnitude_le (Zpos md) ed (Zpos ms) es emin); try lia. exact Hle. }
  assert (He' : e' <= -53).
  { unfold e', SpecFloat.fexp, SpecFloat.emin, prec, emax. lia. }
  set (m' := match ed - es - e' with
             | 0 => Zpos md
             | Zpos _ => Z.shiftl (Zpos md) (ed - es - e')
             | Zneg _ => 0
             end).
  assert (Hm' : m' = Zpos md * 2 ^ (ed - es - e')).
  { unfold m'. destruct (ed - es - e') as [|p|p] eqn:E.
    - cbn. lia.
    - apply Z.shiftl_mul_pow2. lia.
    - unfold e' in E. lia. }
  pose proof (Z_div_mod m' (Zpos ms) ltac:(lia)) as Hdiv.
  destruct (Z.div_eucl m' (Zpos ms)) as [q r]. destruct Hdiv as [Hq Hr].
  assert (Hk : 4503599627370496 * 2 ^ (-52 - e') = 2 ^ (- e')).
  { change 4503599627370496 with (2 ^ 52). rewrite <- Z.pow_add_r by lia.
    f_equal. lia. }
  rewrite Hk.
  assert (Hpk : 0 < 2 ^ (- e')) by (apply Z.pow_pos_nonneg; lia).
  assert (Hps : 0 < 2 ^ (es - emin)) by (apply Z.pow_pos_nonneg; lia).
  assert (Hbound : m' <= Zpos ms * 2 ^ (- e')).
  { unfold ulps in Hle.
    assert (Hscale : m' * 2 ^ (es - emin) = Zpos md * 2 ^ (ed - emin) * 2 ^ (- e')).
    { rewrite Hm', <- !Z.mul_assoc, <- !Z.pow_add_r by (unfold e'; lia).
      do 2 f_equal. lia. }
    assert (m' * 2 ^ (es - emin) <= Zpos ms * 2 ^ (- e') * 2 ^ (es - emin)) by nia.
    nia. }
  assert (H0m' : 0 <= m').
  { rewrite Hm'. assert (0 < 2 ^ (ed - es - e')) by (apply Z.pow_pos_nonneg; unfold e'; lia). lia. }
  assert (H0q : 0 <= q) by nia.
  split; [exact H0q|]. split; [lia|].
  destruct (Z_lt_le_dec q (2 ^ (- e'))) as [Hlt|Hge]; [now left|].
  right. assert (q = 2 ^ (- e')) by nia. subst q.
  split; [reflexivity|]. assert (r = 0) by nia. subst r. apply new_location_zero.
Qed.

Lemma quotient_in_unit_interval (d s : spec_float) :
  magnitude_at_most d s ->
  SpecFloat.valid_binary prec emax d = true ->
  SpecFloat.valid_binary prec emax s = true ->
  SpecFloat.valid_binary prec emax (SFdiv prec emax d s) = true ->
  in_unit_interval (SFdiv prec emax d s).
Proof.
  intros Hmag Hvd Hvs Hvr.
  destruct d as [sd|sd| |sd md ed]; try contradiction;
    destruct s as [ss|[|]| |[|] ms es]; try contradiction.
  - destruct sd; split; reflexivity.
  - destruct sd; split; reflexivity.
  - destruct sd; split; reflexivity.
  - cbn [magnitude_at_most] in Hmag. cbn [SFdiv] in *.
    pose proof (SFdiv_core_binary_spec md ms ed es
                  (bounded_emin md ed Hvd) (bounded_emin ms es Hvs) Hmag) as Hcore.
    destruct (SFdiv_core_binary prec emax (Zpos md) ed (Zpos ms) es) as [[q e'] l].
    destruct Hcore as (H0q & He' & Hq).
    rewrite xorb_false_r in *.
    assert (Hv0 : SpecFloat.valid_binary prec emax
                    (binary_round_aux prec emax false q e' l) = true).
    { destruct sd; [|exact Hvr].
      rewrite binary_round_aux_sign, valid_binary_SFopp in Hvr. exact Hvr. }
    pose proof (round_le_representable prec emax prec_positive q e' l
                  4503599627370496 (-52) H0q SF_one_bounded He' Hq Hv0) as Hle.
    destruct (SFleb_inv_finite _ _ _ SF_one_bounded Hv0
                (SFabs_binary_round_aux q e' l) Hle) as [E0 | (m & e & E0 & Hu)].
    + destruct sd; [rewrite binary_round_aux_sign|]; rewrite E0; split; reflexivity.
    + destruct sd; [rewrite binary_round_aux_sign|]; rewrite E0 in *.
      * split; [|reflexivity]. unfold SF_minus_one, SFleb. cbn [SFopp negb].
        rewrite SFcompare_negative. exact Hle.
      * split; [reflexivity | exact Hle].
Qed.

(** *** Primitive doubles *)

Lemma float_nonneg_finite_spec (x : float) :
  float_nonneg_finite x = true -> nonneg_finite (Prim2SF x).
Proof.
  unfold float_nonneg_finite. rewrite leb_spec, ltb_spec.
  change (Prim2SF PrimFloat.zero) with (S754_zero false).
  change (Prim2SF PrimFloat.infinity) with (S754_infinity false).
  intros Hx. apply andb_prop in Hx. destruct Hx as [H0 Hinf].
  destruct (Prim2SF x) as [s|[|]| |[|] m e]; try discriminate; exact I.
Qed.

(** The ratio of difference to sum of two such doubles, when the sum is
    above zero, lies between -1 and 1. *)
Lemma float_ratio_in_unit_interval (a b : float) :
  float_nonneg_finite a = true -> float_nonneg_finite b = true ->
  PrimFloat.ltb PrimFloat.zero (a + b)%float = true ->
  PrimFloat.leb (-1)%float ((a - b) / (a + b))%float = true /\
  PrimFloat.leb ((a - b) / (a + b))%float 1%float = true.
Proof.
  intros Ha Hb Hpos.
  apply float_nonneg_finite_spec in Ha, Hb.
  rewrite ltb_spec in Hpos. rewrite !leb_spec.
  change (Prim2SF PrimFloat.zero) with (S754_zero false) in Hpos.
  change (Prim2SF (-1)%float) with SF_minus_one.
  change (Prim2SF 1%float) with SF_one.
  pose proof (Prim2SF_valid ((a - b) / (a + b))%float) as Hvr.
  pose proof (Prim2SF_valid (a - b)%float) as Hvd.
  pose proof (Prim2SF_valid (a + b)%float) as Hvs.
  rewrite div_spec in *. rewrite sub_spec, add_spec in *.
  unfold SF64div, SF64sub, SF64add in *.
  destruct (difference_at_most_sum (Prim2SF a) (Prim2SF b) Ha Hb
              (Prim2SF_valid a) (Prim2SF_valid b) Hvs Hvd) as [[s Es] | Hmag].
  - rewrite Es in Hpos. discriminate Hpos.
  - apply (quotient_in_unit_interval _ _ Hmag Hvd Hvs Hvr).
Qed.

End Binary64.

(** ** Pressure on doubles *)

Lemma float_lit_zero : (lit 0 0 : float) = PrimFloat.zero.
Proof. vm_compute. reflexivity. Qed.

Lemma map_get_In {num} `{Number num} (k v : num) (m : JsMap num) :
  map_get k m = Some v -> exists k', In (k', v) m.
Proof.
  induction m as [|[k' v'] m IH]; cbn; [discriminate|].
  destruct (same_value_zero k' k).
  - intros [= ->]. exists k'. now left.
  - intros Hg. destruct (IH Hg) as [k'' Hin]. exists k''. now right.
Qed.

(** [get(...) || 0] reads NaN as 0. *)
Lemma get_or_zero_float (k : float) (m : JsMap float) :
  Forall (fun level => float_quantity_ok (snd level) = true) m ->
  float_nonneg_finite (get_or_zero k m) = true.
Proof.
  intros Hm. unfold get_or_zero. rewrite float_lit_zero.
  destruct (map_get k m) as [x|] eqn:Eg; [|reflexivity].
  destruct (map_get_In k x m Eg) as [k' Hin].
  rewrite List.Forall_forall in Hm. specialize (Hm _ Hin). cbn [snd] in Hm.
  change (truthy x) with (float_truthy x). unfold float_truthy.
  destruct (PrimFloat.is_nan x) eqn:En.
  - rewrite orb_true_r. reflexivity.
  - rewrite orb_false_r.
    destruct (PrimFloat.eqb x PrimFloat.zero); [reflexivity|].
    unfold float_quantity_ok in Hm. now rewrite En in Hm.
Qed.

Lemma pressure_ratio_float (a b : float) :
  float_nonneg_finite a = true -> float_nonneg_finite b = true ->
  float_in_unit_interval (pressure_ratio a b) = true.
Proof.
  intros Ha Hb. unfold pressure_ratio, gtb, float_in_unit_interval.
  rewrite float_lit_zero.
  change (ltb PrimFloat.zero (nadd a b))
    with (PrimFloat.ltb PrimFloat.zero (a + b)%float).
  change (ndiv (nsub a b) (nadd a b)) with ((a - b) / (a + b))%float.
  destruct (PrimFloat.ltb PrimFloat.zero (a + b)%float) eqn:E.
  - destruct (float_ratio_in_unit_interval a b Ha Hb E) as [-> ->]. reflexivity.
  - reflexivity.
Qed.

(** C6, as worded, fails when a level carries a negative quantity, which
    [parseFloat] accepts.  Doubles: bid 3 at 100 and ask -1 at 101 leave
    both sides non-empty and pressure (3 - -1) / (3 + -1) = 2. *)
Lemma pressure_above_one_for_negative_quantity :
  ~ pressure_as_specified (num:=float)
      [Some (lit 100 0, lit 3 0)] [Some (lit 101 0, lit (-1) 0)]
      (init_engine true).
Proof.
  intros Hclaim.
  destruct (Hclaim _ eq_refl) as [_ Habove];
    [vm_compute; discriminate | vm_compute; discriminate |].
  vm_compute in Habove. discriminate Habove.
Qed.

(** Nor is an infinite quantity rejected, which [parseFloat] gives for
    "Infinity": bid Infinity at 100 and ask 1 at 101 leave a NaN pressure. *)
Lemma pressure_nan_for_infinite_quantity :
  exists e',
    processBook (num:=float) (Some [Some (lit 100 0, PrimFloat.infinity)])
                (Some [Some (lit 101 0, lit 1 0)]) (init_engine true) = Normal e' /\
    PrimFloat.is_nan (void_pressure (state e')) = true.
Proof. eexists. split; [reflexivity | vm_compute; reflexivity]. Qed.

Lemma best_volumes_float (e : VoidEngine float) :
  Forall (fun level => float_quantity_ok (snd level) = true) (book_bids e) ->
  Forall (fun level => float_quantity_ok (snd level) = true) (book_asks e) ->
  float_nonneg_finite (best_bid_volume (book_bids e)) = true /\
  float_nonneg_finite (best_ask_volume (book_asks e)) = true.
Proof.
  intros Hbq Haq. split.
  - unfold best_bid_volume.
    destruct (map_keys (book_bids e)); [rewrite float_lit_zero; reflexivity|].
    now apply get_or_zero_float.
  - unfold best_ask_volume.
    destruct (map_keys (book_asks e)); [rewrite float_lit_zero; reflexivity|].
    now apply get_or_zero_float.
Qed.

(** C6, amended. On doubles, every rounding of the addition, the
    subtraction and the division included: whenever a book delta runs
    to its end and leaves both the bid map and the ask map non-empty, and
    every level quantity held is NaN or neither negative nor infinite,
    the recomputed pressure is (bidVolume - askVolume) / (bidVolume +
    askVolume) at the best bid and best ask, a NaN quantity read as 0, it
    is 0 when the denominator is not above zero, and it lies in [-1, 1]. *)
Theorem pressure_in_unit_interval :
  forall (bids asks : list (entry float)) (e e' : VoidEngine float),
    processBook (Some bids) (Some asks) e = Normal e' ->
    book_bids e' <> [] -> book_asks e' <> [] ->
    Forall (fun level => float_quantity_ok (snd level) = true) (book_bids e') ->
    Forall (fun level => float_quantity_ok (snd level) = true) (book_asks e') ->
    let bidVolume := best_bid_volume (book_bids e') in
    let askVolume := best_ask_volume (book_asks e') in
    (void_pressure (state e') =
       if PrimFloat.ltb 0 (bidVolume + askVolume)
       then ((bidVolume - askVolume) / (bidVolume + askVolume))%float
       else 0%float) /\
    PrimFloat.leb (-1) (void_pressure (state e')) = true /\
    PrimFloat.leb (void_pressure (state e')) 1 = true.
Proof.
  intros bids asks e e' Hrun Hb Ha Hbq Haq bidVolume askVolume.
  destruct (processBook_two_sided bids asks e e' Hrun Hb Ha) as (_ & _ & Hp & _).
  destruct (best_volumes_float e' Hbq Haq) as [Hbv Hav].
  fold bidVolume in Hbv, Hp. fold askVolume in Hav, Hp.
  split.
  - rewrite Hp. unfold pressure_ratio, gtb. rewrite float_lit_zero. reflexivity.
  - pose proof (pressure_ratio_float bidVolume askVolume Hbv Hav) as Hunit.
    rewrite <- Hp in Hunit. unfold float_in_unit_interval in Hunit.
    apply andb_prop in Hunit. exact Hunit.
Qed.

Lemma pressure_in_unit_interval_witness :
  let bids : list (entry float) :=
    [Some (lit 100 0, lit 3 0); Some (lit 995 1, lit 7 0)] in
  let asks : list (entry float) := [Some (lit 101 0, PrimFloat.nan)] in
  let e' := with_imbalance_hist [lit 1 0]
              (with_state (set_void_pressure (lit 1 0) init_state)
                 (with_book_asks [(lit 101 0, PrimFloat.nan)]
                    (with_book_bids [(lit 100 0, lit 3 0); (lit 995 1, lit 7 0)]
                       (init_engine true)))) in
  let bidVolume := best_bid_volume (book_bids e') in
  let askVolume := best_ask_volume (book_asks e') in
  (void_pressure (state e') =
     if PrimFloat.ltb 0 (bidVolume + askVolume)
     then ((bidVolume - askVolume) / (bidVolume + askVolume))%float
     else 0%float) /\
  PrimFloat.leb (-1) (void_pressure (state e')) = true /\
  PrimFloat.leb (void_pressure (state e')) 1 = true.
Proof.
  intros bids asks e'.
  refine (pressure_in_unit_interval bids asks (init_engine true) e' _ _ _ _ _).
  - vm_compute. reflexivity.
  - discriminate.
  - discriminate.
  - repeat constructor.
  - repeat constructor.
Defined.

(** X1. On doubles: a depth delta that leaves both sides non-empty, when every
    level quantity held is NaN or neither negative nor infinite, leaves a
    pressure between -1 and 1 (so never NaN), roundings included. *)
Theorem pressure_bounded_on_doubles :
  forall (bids asks : list (entry float)) (e e' : VoidEngine float),
    processBook (Some bids) (Some asks) e = Normal e' ->
    book_bids e' <> [] -> book_asks e' <> [] ->
    Forall (fun level => float_quantity_ok (snd level) = true) (book_bids e') ->
    Forall (fun level => float_quantity_ok (snd level) = true) (book_asks e') ->
    float_in_unit_interval (void_pressure (state e')) = true.
Proof.
  intros bids asks e e' Hrun Hb Ha Hbq Haq.
  destruct (processBook_two_sided bids asks e e' Hrun Hb Ha) as (_ & _ & -> & _).
  destruct (best_volumes_float e' Hbq Haq) as [Hbv Hav].
  now apply pressure_ratio_float.
Qed.

Lemma pressure_bounded_on_doubles_witness :
  let bids : list (entry float) :=
    [Some (lit 100 0, lit 3 0); Some (lit 995 1, PrimFloat.nan)] in
  let asks : list (entry float) := [Some (lit 101 0, lit 1 0)] in
  let ratio := pressure_ratio (lit 3 0) (lit 1 0) in
  let e' := with_imbalance_hist [ratio]
              (with_state (set_void_pressure ratio init_state)
                 (with_book_asks [(lit 101 0, lit 1 0)]
                    (with_book_bids [(lit 100 0, lit 3 0); (lit 995 1, PrimFloat.nan)]
                       (init_engine true)))) in
  float_in_unit_interval (void_pressure (state e')) = true.
Proof.
  intros bids asks ratio e'.
  refine (pressure_bounded_on_doubles bids asks (init_engine true) e' _ _ _ _ _).
  - vm_compute. reflexivity.
  - discriminate.
  - discriminate.
  - repeat constructor.
  - repeat constructor.
Defined.

(** ** What the handler leaves alone *)

Section HandlerFrame.
Context {num : Type} `{Number num} `{Sqrt num}.

(** A recompute writes the regime, the score, the signal and the titans
    reference, nothing else. *)
Lemma recompute_frame (v : variant) (e : VoidEngine num) (h : heap num) :
  let e' := fst (fst (recompute_and_publish v e h)) in
  trades e' = trades e /\ book_bids e' = book_bids e /\
  book_asks e' = book_asks e /\ imbalance_hist e' = imbalance_hist e /\
  onUpdate e' = onUpdate e /\
  price (state e') = price (state e) /\
  void_elasticity (state e') = void_elasticity (state e) /\
  void_pressure (state e') = void_pressure (state e) /\
  void_kinetic (state e') = void_kinetic (state e).
Proof.
  cbn zeta. rewrite recompute_hist.
  destruct (calculateMonolith_frame v (state (updateRegime v e)) h)
    as (Hp & He & Hpr & Hk & _).
  rewrite recompute_state, Hp, He, Hpr, Hk.
  unfold recompute_and_publish.
  destruct (calculateMonolith v (state (updateRegime v e)) h) as [s2 h2].
  cbn [fst]. unfold updateRegime.
  destruct (10 <? length (imbalance_hist e)); repeat split.
Qed.

Lemma processTrade_pressure (v : variant) (t_now p q : num) (m : bool)
    (e : VoidEngine num) :
  void_pressure (state (processTrade v t_now p q m e)) = void_pressure (state e).
Proof.
  unfold processTrade.
  destruct (slice_last _ _) as [|first [|second rest]]; cbn;
    try (destruct (gtb _ _)); try (destruct v); reflexivity.
Qed.

End HandlerFrame.

(** ** Pressure and imbalance history on doubles, end to end *)

Lemma map_set_quantities {num} `{Number num} (P : num -> Prop) (k v : num)
    (m : JsMap num) :
  Forall (fun level => P (snd level)) m -> P v ->
  Forall (fun level => P (snd level)) (map_set k v m).
Proof.
  intros Hm Hv. induction Hm as [|[k' v'] m Hx Hm IH]; cbn.
  - repeat constructor. exact Hv.
  - destruct (same_value_zero k' k); constructor; auto.
Qed.

Lemma map_delete_quantities {num} `{Number num} (P : num -> Prop) (k : num)
    (m : JsMap num) :
  Forall (fun level => P (snd level)) m ->
  Forall (fun level => P (snd level)) (map_delete k m).
Proof.
  intros Hm. unfold map_delete. induction Hm as [|[k' v'] m Hx Hm IH]; cbn.
  - constructor.
  - destruct (negb (same_value_zero k' k)); [constructor|]; auto.
Qed.

Lemma fold_apply_update_quantities (updates : list (float * float))
    (m : JsMap float) :
  Forall (fun level => float_quantity_ok (snd level) = true) m ->
  Forall (fun u => float_quantity_ok (snd u) = true) updates ->
  Forall (fun level => float_quantity_ok (snd level) = true)
         (fold_left apply_update updates m).
Proof.
  intros Hm Hu. revert m Hm.
  induction Hu as [|[p q] updates Hq Hu IH]; intros m Hm; [exact Hm|].
  cbn [fold_left]. apply IH. unfold apply_update.
  destruct (strict_eq q (lit 0 0)).
  - now apply (map_delete_quantities (fun x => float_quantity_ok x = true)).
  - now apply (map_set_quantities (fun x => float_quantity_ok x = true)).
Qed.

Lemma Forall_push_capped {A} (P : A -> Prop) (cap : nat) (x : A) (l : list A) :
  Forall P l -> P x -> Forall P (push_capped cap x l).
Proof.
  intros Hl Hx. unfold push_capped.
  assert (Hall : Forall P (l ++ [x])) by (apply Forall_app; auto).
  destruct (cap <? length (l ++ [x])); [|exact Hall].
  destruct (l ++ [x]); [constructor|]. now inversion Hall.
Qed.

Lemma reached_quantities (entries : list (entry float)) :
  side_quantities_ok (Some entries) ->
  Forall (fun u => float_quantity_ok (snd u) = true) (reached entries).
Proof.
  cbn [side_quantities_ok]. intros Hq.
  induction Hq as [|[u|] entries Hu Hq IH]; cbn [reached]; constructor; auto.
Qed.

Lemma processBook_sane (bids asks : option (list (entry float)))
    (e : VoidEngine float) :
  book_sane e -> side_quantities_ok bids -> side_quantities_ok asks ->
  match processBook bids asks e with
  | Normal e' | Thrown e' => book_sane e'
  end.
Proof.
  intros (Hb & Ha & Hp & Hh) Hbids Hasks. rewrite processBook_shape.
  destruct bids as [bs|]; [|repeat split; assumption].
  pose proof (fold_apply_update_quantities (reached bs) _ Hb
                (reached_quantities bs Hbids)) as Hb'.
  cbv zeta. destruct (all_pairs bs); [|repeat split; assumption].
  destruct asks as [sells|]; [|repeat split; assumption].
  pose proof (fold_apply_update_quantities (reached sells) _ Ha
                (reached_quantities sells Hasks)) as Ha'.
  cbn [book_bids book_asks with_book_bids with_book_asks].
  set (bb := fold_left apply_update (reached bs) (book_bids e)) in *.
  set (ba := fold_left apply_update (reached sells) (book_asks e)) in *.
  destruct (all_pairs sells); [|repeat split; assumption].
  destruct (@map_keys float bb) as [|kb kbs]; [repeat split; assumption|].
  destruct (@map_keys float ba) as [|ka kas]; [repeat split; assumption|].
  assert (Hratio : float_in_unit_interval
                     (pressure_ratio (get_or_zero (math_max kb kbs) bb)
                                     (get_or_zero (math_min ka kas) ba)) = true).
  { apply pressure_ratio_float; now apply get_or_zero_float. }
  repeat split; cbn; try assumption.
  apply Forall_push_capped; assumption.
Qed.

Lemma book_sane_same (e e' : VoidEngine float) :
  book_bids e' = book_bids e -> book_asks e' = book_asks e ->
  void_pressure (state e') = void_pressure (state e) ->
  imbalance_hist e' = imbalance_hist e ->
  book_sane e -> book_sane e'.
Proof. unfold book_sane. intros -> -> -> ->. auto. Qed.

Lemma recompute_sane (v : variant) (e : VoidEngine float) (h : heap float) :
  book_sane e -> book_sane (fst (fst (recompute_and_publish v e h))).
Proof.
  destruct (recompute_frame v e h) as (_ & Hb & Ha & Hh & _ & _ & _ & Hp & _).
  now apply book_sane_same.
Qed.

Lemma step_sane (v : variant) (w : World float) (a : action float) :
  feed_quantities_ok a -> book_sane (w_engine w) ->
  book_sane (w_engine (step v w a)).
Proof.
  intros Hfeed Hs. destruct a as [t_now msg|i fw|i rows|i f]; cbn [step].
  - destruct msg as [| |p q m|b a|]; cbn [onmessage]; try exact Hs.
    + pose proof (recompute_sane v (processTrade v t_now p q m (w_engine w)) (w_heap w)) as Hr.
      destruct (recompute_and_publish _ _ _) as [[e' h'] pub]. cbn in *.
      apply Hr.
      destruct (processTrade_frame v t_now p q m (w_engine w)) as (Hb & Ha & Hh & _).
      apply (book_sane_same (w_engine w)); auto using processTrade_pressure.
    + destruct Hfeed as [Hbq Haq].
      pose proof (processBook_sane b a (w_engine w) Hs Hbq Haq) as Hb.
      destruct (processBook b a (w_engine w)) as [e1|e1].
      * pose proof (recompute_sane v e1 (w_heap w) Hb) as Hr.
        destruct (recompute_and_publish _ _ _) as [[e' h'] pub]. exact Hr.
      * exact Hb.
    + pose proof (recompute_sane v (w_engine w) (w_heap w) Hs) as Hr.
      destruct (recompute_and_publish _ _ _) as [[e' h'] pub]. exact Hr.
  - exact Hs.
  - destruct (w_snapshots w !! i); exact Hs.
  - destruct (w_snapshots w !! i); exact Hs.
Qed.

(** X2. On doubles, for both files: as long as every depth delta delivered
    carries only quantities that are NaN or neither negative nor infinite,
    the published pressure and every retained imbalance sample lie between
    -1 and 1, whatever else is delivered and whatever the subscriber does. *)
Theorem pressure_history_in_unit_interval :
  forall (v : variant) (callback : bool) (l : list (action float)),
    Forall feed_quantities_ok l ->
    let w := run v (init_world v callback) l in
    float_in_unit_interval (void_pressure (state (w_engine w))) = true /\
    Forall (fun x => float_in_unit_interval x = true)
           (imbalance_hist (w_engine w)).
Proof.
  intros v callback l Hl.
  assert (Hs : book_sane (w_engine (run v (init_world v callback) l))).
  { induction l as [|a l IH] using rev_ind.
    - repeat split; constructor.
    - apply Forall_app in Hl. destruct Hl as [Hl Ha].
      rewrite run_snoc. apply step_sane; [now inversion Ha | now apply IH]. }
  destruct Hs as (_ & _ & Hp & Hh). split; assumption.
Qed.

Lemma pressure_history_in_unit_interval_witness :
  let l := alternating_quarters ++
           [Deliver (lit 17000000015 1)
                    (Depth (Some [Some (lit 27000 0, PrimFloat.nan); None]) None);
            AssignField 0 (WritePressure (lit 9 0));
            Deliver (lit 17000000016 1) (AggTrade (lit 27000 0) (lit 2 0) true)] in
  let w := run VariantA (init_world VariantA true) l in
  float_in_unit_interval (void_pressure (state (w_engine w))) = true /\
  Forall (fun x => float_in_unit_interval x = true)
         (imbalance_hist (w_engine w)).
Proof.
  intro l.
  refine (pressure_history_in_unit_interval VariantA true l _).
  repeat constructor.
Defined.

(** ** The rolling trade buffer *)

Section TradeBuffer.
Context {num : Type} `{Number num} `{Sqrt num}.

Lemma skipn_S_tail {A} (k : nat) (l : list A) :
  skipn (S k) l = tail (skipn k l).
Proof.
  revert l. induction k as [|k IH]; intros [|x l]; try reflexivity.
  cbn [skipn]. rewrite <- IH. reflexivity.
Qed.

(** Pushing onto the last [n] elements and shifting gives the last [n]
    elements of the longer list. *)
Lemma push_capped_slice_last {A} (n : nat) (x : A) (l : list A) :
  0 < n -> push_capped n x (slice_last n l) = slice_last n (l ++ [x]).
Proof.
  intros Hn. unfold push_capped, slice_last.
  rewrite !length_app, length_skipn. cbn [length].
  destruct (le_lt_dec n (length l)) as [Hge|Hlt].
  - replace (length l - (length l - n) + 1) with (S n) by lia.
    replace (n <? S n) with true by (symmetry; apply Nat.ltb_lt; lia).
    replace (length l + 1 - n) with (S (length l - n)) by lia.
    rewrite skipn_S_tail, skipn_app.
    replace (length l - n - length l) with 0 by lia. cbn [skipn].
    destruct (skipn (length l - n) l) eqn:E; [|reflexivity].
    apply (f_equal (@length A)) in E. rewrite length_skipn in E. cbn in E. lia.
  - replace (length l - n) with 0 by lia. replace (length l + 1 - n) with 0 by lia.
    cbn [skipn]. replace (length l - 0 + 1) with (length l + 1) by lia.
    replace (n <? length l + 1) with false by (symmetry; apply Nat.ltb_ge; lia).
    reflexivity.
Qed.

Lemma step_trades (v : variant) (w : World num) (a : action num) :
  trades (w_engine (step v w a)) =
  match a with
  | Deliver t_now (AggTrade p q m) =>
      push_capped 1000 (trade_of t_now p q m) (trades (w_engine w))
  | _ => trades (w_engine w)
  end.
Proof.
  destruct a as [t_now msg|i fw|i rows|i f]; cbn [step].
  - destruct msg as [| |p q m|b a|]; cbn [onmessage]; try reflexivity.
    + destruct (recompute_frame v (processTrade v t_now p q m (w_engine w)) (w_heap w))
        as (Ht & _).
      destruct (recompute_and_publish _ _ _) as [[e' h'] pub]. cbn in *.
      rewrite Ht. exact (processTrade_trades v t_now p q m (w_engine w)).
    + pose proof (processBook_state b a (w_engine w)) as Hb.
      destruct (processBook b a (w_engine w)) as [e1|e1].
      * destruct (recompute_frame v e1 (w_heap w)) as (Ht & _).
        destruct (recompute_and_publish _ _ _) as [[e' h'] pub]. cbn in *.
        rewrite Ht. apply Hb.
      * apply Hb.
    + destruct (recompute_frame v (w_engine w) (w_heap w)) as (Ht & _).
      destruct (recompute_and_publish _ _ _) as [[e' h'] pub]. exact Ht.
  - reflexivity.
  - destruct (w_snapshots w !! i); reflexivity.
  - destruct (w_snapshots w !! i); reflexivity.
Qed.

Lemma run_trades (v : variant) (callback : bool) (l : list (action num)) :
  trades (w_engine (run v (init_world v callback) l)) =
  slice_last 1000 (delivered_trades l).
Proof.
  induction l as [|a l IH] using rev_ind; [reflexivity|].
  rewrite run_snoc, step_trades, IH. unfold delivered_trades.
  rewrite flat_map_app. cbn [flat_map]. rewrite app_nil_r.
  destruct a as [t_now [| |p q m|b a|]|i fw|i rows|i f];
    rewrite ?app_nil_r; try reflexivity.
  apply push_capped_slice_last. lia.
Qed.

(** X3. After any run the trade buffer holds the most recent 1000 trade
    prints delivered, in arrival order (so never more than 1000). *)
Theorem trade_buffer_is_last_thousand :
  forall (v : variant) (callback : bool) (l : list (action num)),
    trades (w_engine (run v (init_world v callback) l)) =
    slice_last 1000 (delivered_trades l) /\
    length (trades (w_engine (run v (init_world v callback) l))) <= 1000.
Proof.
  intros v callback l. rewrite run_trades. split; [reflexivity|].
  rewrite length_slice_last. lia.
Qed.

(** Induction over the engines of the reachable worlds, one case per
    routine of the handler. *)
Lemma engine_steps (v : variant) (P : VoidEngine num -> Prop) :
  (forall callback, P (init_engine callback)) ->
  (forall t_now p q m e, P e -> P (processTrade v t_now p q m e)) ->
  (forall b a e, P e ->
                 match processBook b a e with
                 | Normal e1 => P e1
                 | Thrown e1 => P e1
                 end) ->
  (forall e h, P e -> P (fst (fst (recompute_and_publish v e h)))) ->
  forall w, reachable v w -> P (w_engine w).
Proof.
  intros Hinit Htrade Hbook Hrec.
  apply (reachable_ind v (fun w => P (w_engine w))); [exact Hinit|].
  intros w a _ IH. destruct a as [t_now msg|i fw|i rows|i f]; cbn [step].
  - destruct msg as [| |p q m|b a|]; cbn [onmessage]; try exact IH.
    + specialize (Hrec (processTrade v t_now p q m (w_engine w)) (w_heap w)
                       (Htrade t_now p q m _ IH)).
      destruct (recompute_and_publish _ _ _) as [[e' h'] pub]. exact Hrec.
    + specialize (Hbook b a (w_engine w) IH).
      destruct (processBook b a (w_engine w)) as [e1|e1]; [|exact Hbook].
      specialize (Hrec e1 (w_heap w) Hbook).
      destruct (recompute_and_publish _ _ _) as [[e' h'] pub]. exact Hrec.
    + specialize (Hrec (w_engine w) (w_heap w) IH).
      destruct (recompute_and_publish _ _ _) as [[e' h'] pub]. exact Hrec.
  - exact IH.
  - destruct (w_snapshots w !! i); exact IH.
  - destruct (w_snapshots w !! i); exact IH.
Qed.

Lemma last_push_capped {A} (cap : nat) (x : A) (l : list A) :
  0 < cap -> last (push_capped cap x l) = Some x.
Proof.
  intros Hcap. unfold push_capped.
  destruct (cap <? length (l ++ [x])) eqn:E; [|apply last_snoc].
  destruct l as [|y l]; [|cbn [app tail]; apply last_snoc].
  apply Nat.ltb_lt in E. cbn in E. lia.
Qed.

(** X4. After any run the price shown is the price of the most recent
    buffered trade, and zero while no trade has been buffered. *)
Theorem price_is_last_trade_price :
  forall (v : variant) (callback : bool) (l : list (action num)),
    let e := w_engine (run v (init_world v callback) l) in
    price (state e) = match last (trades e) with
                      | Some t => tr_p t
                      | None => lit 0 0
                      end.
Proof.
  intros v callback l. cbn zeta.
  apply (engine_steps v (fun e => price (state e) =
                                  match last (trades e) with
                                  | Some t => tr_p t
                                  | None => lit 0 0
                                  end)).
  - reflexivity.
  - intros t_now p q m e _.
    rewrite (processTrade_trades v t_now p q m e), last_push_capped by lia.
    unfold processTrade.
    destruct (slice_last _ _) as [|first [|second rest]]; cbn;
      try (destruct (gtb _ _)); try (destruct v); reflexivity.
  - intros b a e IH. pose proof (processBook_state b a e) as Hb.
    destruct (processBook b a e) as [e1|e1].
    + destruct Hb as (-> & _ & _ & _ & _ & _ & _ & -> & _). exact IH.
    + destruct Hb as (-> & -> & _). exact IH.
  - intros e h IH. destruct (recompute_frame v e h) as (-> & _ & _ & _ & _ & -> & _).
    exact IH.
  - apply reachable_run, reachable_init.
Qed.

Lemma elasticity_before_two_trades (v : variant) (w : World num) :
  reachable v w ->
  length (trades (w_engine w)) < 2 ->
  void_elasticity (state (w_engine w)) = lit 0 0.
Proof.
  apply (engine_steps v (fun e => length (trades e) < 2 ->
                                  void_elasticity (state e) = lit 0 0)).
  - reflexivity.
  - intros t_now p q m e IH.
    rewrite (processTrade_trades v t_now p q m e), length_push_capped.
    intros Hlen.
    assert (E : trades e = []).
    { destruct (trades e) as [|t0 ts]; [reflexivity|]. exfalso.
      destruct (1000 <? S (length (t0 :: ts))) eqn:E.
      - apply Nat.ltb_lt in E. lia.
      - cbn [length] in Hlen. lia. }
    rewrite E in IH. unfold processTrade. rewrite E.
    destruct v; cbn; apply IH; cbn; lia.
  - intros b a e IH. pose proof (processBook_state b a e) as Hb.
    destruct (processBook b a e) as [e1|e1].
    + destruct Hb as (_ & -> & _ & _ & _ & _ & _ & -> & _). exact IH.
    + destruct Hb as (-> & -> & _). exact IH.
  - intros e h IH.
    destruct (recompute_frame v e h) as (-> & _ & _ & _ & _ & _ & -> & _).
    exact IH.
Qed.

(** X5. Elasticity stays at its initial zero until two trade prints have been
    delivered: the first print alone never moves it. *)
Theorem elasticity_needs_two_trades :
  forall (v : variant) (callback : bool) (l : list (action num)),
    length (delivered_trades l) < 2 ->
    void_elasticity (state (w_engine (run v (init_world v callback) l))) = lit 0 0.
Proof.
  intros v callback l Hlen. apply (elasticity_before_two_trades v).
  - apply reachable_run, reachable_init.
  - rewrite run_trades, length_slice_last. lia.
Qed.

End TradeBuffer.

(** One print and one depth delta, on doubles. *)
Lemma elasticity_needs_two_trades_witness :
  void_elasticity
    (state (w_engine
              (run VariantB (init_world VariantB true)
                   [Deliver (lit 17000000005 1)
                            (AggTrade (lit 27000 0) (lit 1 0) false);
                    imbalance_quarter 5 3]))) = (lit 0 0 : float).
Proof.
  refine (elasticity_needs_two_trades VariantB true
            [Deliver (lit 17000000005 1) (AggTrade (lit 27000 0) (lit 1 0) false);
             imbalance_quarter 5 3] _).
  cbn. lia.
Defined.

(** ** Book, pressure and history *)

Section BookState.
Context {num : Type} `{Number num} `{Sqrt num}.

Lemma processBook_sample (b a : option (list (entry num))) (e : VoidEngine num) :
  match processBook b a e with
  | Normal e1 | Thrown e1 =>
      (void_pressure (state e1) = void_pressure (state e) /\
       imbalance_hist e1 = imbalance_hist e) \/
      imbalance_hist e1 =
        push_capped 120 (void_pressure (state e1)) (imbalance_hist e)
  end.
Proof.
  book_paths; try (left; split; reflexivity).
  right. reflexivity.
Qed.

(** X6. After any run the pressure shown is the newest sample of the
    imbalance history, and zero while the history is empty. *)
Theorem pressure_is_newest_sample :
  forall (v : variant) (callback : bool) (l : list (action num)),
    let e := w_engine (run v (init_world v callback) l) in
    void_pressure (state e) = match last (imbalance_hist e) with
                              | Some x => x
                              | None => lit 0 0
                              end.
Proof.
  intros v callback l. cbn zeta.
  apply (engine_steps v (fun e => void_pressure (state e) =
                                  match last (imbalance_hist e) with
                                  | Some x => x
                                  | None => lit 0 0
                                  end)).
  - reflexivity.
  - intros t_now p q m e IH. rewrite processTrade_pressure.
    destruct (processTrade_frame v t_now p q m e) as (_ & _ & -> & _). exact IH.
  - intros b a e IH. pose proof (processBook_sample b a e) as Hb.
    destruct (processBook b a e) as [e1|e1];
      (destruct Hb as [[-> ->] | ->];
       [exact IH | now rewrite last_push_capped by lia]).
  - intros e h IH.
    destruct (recompute_frame v e h) as (_ & _ & _ & -> & _ & _ & _ & -> & _).
    exact IH.
  - apply reachable_run, reachable_init.
Qed.

Lemma fold_apply_update_nonzero (updates : list (num * num)) (m : JsMap num) :
  Forall (fun level => strict_eq (snd level) (lit 0 0) = false) m ->
  Forall (fun level => strict_eq (snd level) (lit 0 0) = false)
         (fold_left apply_update updates m).
Proof.
  revert m. induction updates as [|[p q] updates IH]; intros m Hm; [exact Hm|].
  cbn [fold_left]. apply IH. unfold apply_update.
  destruct (strict_eq q (lit 0 0)) eqn:E.
  - now apply (map_delete_quantities (fun x => strict_eq x (lit 0 0) = false)).
  - now apply (map_set_quantities (fun x => strict_eq x (lit 0 0) = false)).
Qed.

(** X7. After any run neither side of the book holds a level whose quantity
    is zero: such an update deletes the level instead. *)
Theorem book_holds_no_zero_quantity :
  forall (v : variant) (callback : bool) (l : list (action num)),
    let e := w_engine (run v (init_world v callback) l) in
    Forall (fun level => strict_eq (snd level) (lit 0 0) = false) (book_bids e) /\
    Forall (fun level => strict_eq (snd level) (lit 0 0) = false) (book_asks e).
Proof.
  intros v callback l. cbn zeta.
  apply (engine_steps v
           (fun e =>
              Forall (fun level => strict_eq (snd level) (lit 0 0) = false)
                     (book_bids e) /\
              Forall (fun level => strict_eq (snd level) (lit 0 0) = false)
                     (book_asks e))).
  - intros cb. split; constructor.
  - intros t_now p q m e IH.
    destruct (processTrade_frame v t_now p q m e) as (-> & -> & _). exact IH.
  - intros b a e [Hb Ha].
    assert (Hb' : forall us, Forall (fun level => strict_eq (snd level) (lit 0 0) = false)
                                    (fold_left apply_update us (book_bids e)))
      by (intros us; now apply fold_apply_update_nonzero).
    assert (Ha' : forall us, Forall (fun level => strict_eq (snd level) (lit 0 0) = false)
                                    (fold_left apply_update us (book_asks e)))
      by (intros us; now apply fold_apply_update_nonzero).
    book_paths; cbn; split; auto.
  - intros e h IH. destruct (recompute_frame v e h) as (_ & -> & -> & _).
    exact IH.
  - apply reachable_run, reachable_init.
Qed.

End BookState.

(** ** Verdict and display rows *)

Section Verdict.
Context {num : Type} `{Number num} `{Sqrt num}.

(** [calculateMonolith] in one piece. *)
Lemma calculateMonolith_judged (v : variant) (s : VoidState num) (h : heap num) :
  calculateMonolith v s h =
  (judged v s (fresh (dom h)), <[fresh (dom h) := titan_rows v s]> h).
Proof.
  destruct v; unfold calculateMonolith, calculateMonolithA, calculateMonolithB,
    alloc, judged, titan_rows, whale, signal_of, score_of, star_count_signal,
    star_count_score, four_factor_score, trap_break_guards, gtb;
    case_guards; reflexivity.
Qed.

End Verdict.

(** ** Ticks *)

Section Ticks.
Context {num : Type} `{Number num} `{Sqrt num}.

(** A completed recompute in one piece. *)
Lemma recompute_judged (v : variant) (e : VoidEngine num) (h : heap num) :
  recompute_and_publish v e h =
  (with_state (judged v (state (updateRegime v e)) (fresh (dom h)))
              (updateRegime v e),
   <[fresh (dom h) := titan_rows v (state (updateRegime v e))]> h,
   if onUpdate e
   then Some (judged v (state (updateRegime v e)) (fresh (dom h)))
   else None).
Proof.
  unfold recompute_and_publish. rewrite calculateMonolith_judged.
  unfold updateRegime. destruct (10 <? length (imbalance_hist e)); reflexivity.
Qed.

Lemma processBook_completes (t_now : num) (b a : option (list (entry num)))
    (e : VoidEngine num) :
  match processBook b a e with
  | Normal _ => completes (Deliver t_now (Depth b a)) = true
  | Thrown e1 => completes (Deliver t_now (Depth b a)) = false /\ state e1 = state e
  end.
Proof.
  rewrite processBook_shape. cbv zeta. cbn [completes].
  destruct b as [bs|]; [|split; reflexivity].
  destruct (all_pairs bs); [|destruct a; split; reflexivity].
  destruct a as [sells|]; [|split; reflexivity].
  destruct (all_pairs sells); [|split; reflexivity].
  cbn [book_bids book_asks with_book_bids with_book_asks].
  destruct (map_keys _) as [|kb kbs]; [reflexivity|].
  destruct (map_keys _) as [|ka kas]; reflexivity.
Qed.

(** What one step does to the state and to the rows it points to. *)
Lemma step_judged (v : variant) (w : World num) (a : action num) :
  let w' := step v w a in
  let s' := state (w_engine w') in
  if completes a
  then is_judged v s' /\ w_heap w' !! titans s' = Some (titan_rows v s')
  else s' = state (w_engine w) /\
       (in_place_write a = false ->
        allocated (w_heap w) (titans (state (w_engine w))) ->
        w_heap w' !! titans s' = w_heap w !! titans (state (w_engine w))).
Proof.
  assert (Hrec : forall e1,
             let r := recompute_and_publish v e1 (w_heap w) in
             is_judged v (state (fst (fst r))) /\
             snd (fst r) !! titans (state (fst (fst r))) =
               Some (titan_rows v (state (fst (fst r))))).
  { intros e1. cbn zeta. rewrite recompute_judged.
    cbn [fst snd state with_state judged titans]. split; [split; reflexivity|].
    apply lookup_insert_eq. }
  destruct a as [t_now msg|i fw|i rows|i f]; cbn [step].
  - destruct msg as [| |p q m|b a|]; cbn [onmessage completes].
    + split; [reflexivity|]. intros _ _. reflexivity.
    + split; [reflexivity|]. intros _ _. reflexivity.
    + specialize (Hrec (processTrade v t_now p q m (w_engine w))).
      destruct (recompute_and_publish _ _ _) as [[e' h'] pub]. exact Hrec.
    + pose proof (processBook_completes t_now b a (w_engine w)) as Hb.
      destruct (processBook b a (w_engine w)) as [e1|e1].
      * cbn [completes] in Hb. rewrite Hb. specialize (Hrec e1).
        destruct (recompute_and_publish _ _ _) as [[e' h'] pub]. exact Hrec.
      * destruct Hb as [Hb Hst]. cbn [completes] in Hb. rewrite Hb.
        cbn [w_engine w_heap]. rewrite Hst. split; [reflexivity|].
        intros _ _. reflexivity.
    + specialize (Hrec (w_engine w)).
      destruct (recompute_and_publish _ _ _) as [[e' h'] pub]. exact Hrec.
  - split; [reflexivity|]. intros _ _. reflexivity.
  - cbn [completes]. destruct (w_snapshots w !! i).
    + unfold alloc. cbn [w_engine w_heap]. split; [reflexivity|].
      intros _ Ha. apply lookup_insert_ne. intros E.
      symmetry in E. exact (allocated_not_fresh _ _ Ha E).
    + split; [reflexivity|]. intros _ _. reflexivity.
  - cbn [completes in_place_write]. destruct (w_snapshots w !! i).
    + split; [reflexivity|]. discriminate.
    + split; [reflexivity|]. intros _ _. reflexivity.
Qed.

Lemma run_judged (v : variant) (callback : bool) (l : list (action num)) :
  let s := state (w_engine (run v (init_world v callback) l)) in
  if existsb completes l then is_judged v s else s = init_state.
Proof.
  induction l as [|a l IH] using rev_ind; [reflexivity|].
  cbn zeta in *. rewrite run_snoc, existsb_app. cbn [existsb].
  rewrite orb_false_r.
  pose proof (step_judged v (run v (init_world v callback) l) a) as Hstep.
  cbn zeta in Hstep. destruct (completes a).
  - rewrite orb_true_r. apply Hstep.
  - rewrite orb_false_r. destruct Hstep as [-> _]. exact IH.
Qed.

(** X9. As long as no holder of a snapshot changes a titans array in place,
    the rows the state points to are those of its current metrics once a
    tick has completed, and the rows of the constructor until then; the
    score and the signal are those of the current metrics and regime. *)
Theorem display_rows_follow_metrics :
  forall (v : variant) (callback : bool) (l : list (action num)),
    Forall (fun a => in_place_write a = false) l ->
    let w := run v (init_world v callback) l in
    let s := state (w_engine w) in
    if existsb completes l
    then w_heap w !! titans s = Some (titan_rows v s) /\
         monolith_stars s = score_of v s /\ signal s = signal_of v s
    else w_heap w !! titans s = Some (init_titans v) /\ s = init_state.
Proof.
  intros v callback l Hl. cbn zeta.
  induction l as [|a l IH] using rev_ind.
  - cbn [existsb run fold_left]. split; [|reflexivity].
    cbn [init_world w_engine w_heap init_engine state init_state titans].
    unfold init_heap. apply lookup_singleton_eq.
  - apply Forall_app in Hl. destruct Hl as [Hl Ha].
    specialize (IH Hl). inversion Ha as [|? ? Hw _]; subst.
    rewrite run_snoc, existsb_app. cbn [existsb]. rewrite orb_false_r.
    pose proof (step_judged v (run v (init_world v callback) l) a) as Hstep.
    pose proof (heap_inv_reachable v _
                  (reachable_run v _ l (reachable_init v callback)))
      as (Halloc & _).
    cbn zeta in Hstep. destruct (completes a).
    + rewrite orb_true_r. destruct Hstep as [[Hs Hg] Hr]. auto.
    + rewrite orb_false_r. destruct Hstep as [Hst Hheap].
      rewrite (Hheap Hw Halloc), Hst. exact IH.
Qed.

(** X10. In the second file the signal is STANDBY until the first tick
    completes and never again afterwards; a tick completes on a trade
    print, on a depth delta both sides of which are arrays of pairs, and
    on a message of another stream, and on no other delivery. *)
Theorem standby_until_first_tick :
  forall (callback : bool) (l : list (action num)),
    signal (state (w_engine (run VariantB (init_world VariantB callback) l)))
      = "STANDBY"
    <-> existsb completes l = false.
Proof.
  intros callback l. pose proof (run_judged VariantB callback l) as Hj.
  cbn zeta in Hj. destruct (existsb completes l).
  - destruct Hj as [_ ->]. unfold signal_of, trap_break_guards.
    split; [|discriminate].
    cbn [first_match].
    repeat match goal with
           | |- context [if ?c then _ else _] => destruct c
           | |- context [(?a && ?b)%bool] => destruct a, b; cbn [andb]
           end; discriminate.
  - rewrite Hj. split; reflexivity.
Qed.

Lemma score_of_bound (v : variant) (s : VoidState num) : score_of v s <= max_score v.
Proof.
  destruct v; unfold score_of, star_count_score, four_factor_score, max_score;
    repeat match goal with
           | |- context [if ?c then 1 else 0] => destruct c
           end; cbn; lia.
Qed.

Lemma signal_of_vocabulary (v : variant) (s : VoidState num) :
  In (signal_of v s) (signals v).
Proof.
  destruct v; unfold signal_of, signals.
  - unfold star_count_signal.
    destruct (star_count_score s) as [|[|[|[|n]]]]; try destruct (gtb _ _);
      cbn [In]; repeat (first [left; reflexivity | right]).
  - unfold trap_break_guards. cbn [first_match].
    repeat match goal with
           | |- context [if ?c then _ else _] => destruct c
           end; cbn [In]; repeat (first [left; reflexivity | right]).
Qed.

(** X11. After any run the signal and the regime are words of the file's
    vocabulary and the score is at most five (first file) or four
    (second file). *)
Theorem state_vocabulary :
  forall (v : variant) (callback : bool) (l : list (action num)),
    let s := state (w_engine (run v (init_world v callback) l)) in
    In (signal s) (signals v) /\ In (domain_state s) (regimes v) /\
    monolith_stars s <= max_score v.
Proof.
  intros v callback l. cbn zeta.
  pose proof (run_judged v callback l) as Hj. cbn zeta in Hj.
  pose proof (regime_reachable v _ (reachable_run v _ l (reachable_init v callback)))
    as [_ Hreg].
  split; [|split].
  - destruct (existsb completes l).
    + destruct Hj as [_ ->]. apply signal_of_vocabulary.
    + rewrite Hj. destruct v; cbn [signals init_state signal In];
        repeat (first [left; reflexivity | right]).
  - rewrite Hreg. unfold regime_of, regimes.
    destruct (10 <? _); repeat branch_on_guard; cbn [In];
      repeat (first [left; reflexivity | right]).
  - destruct (existsb completes l).
    + destruct Hj as [-> _]. apply score_of_bound.
    + rewrite Hj. cbn. lia.
Qed.

(** X12. The rows lit and the score: every recompute stores five rows under
    fixed names; the score is the number of lit rows plus one when the
    regime is the volatile one, and in the first file one less, its BASIS
    row being always lit. *)
Theorem score_counts_lit_rows :
  forall (v : variant) (s : VoidState num) (h : heap num),
    let s' := fst (calculateMonolith v s h) in
    let h' := snd (calculateMonolith v s h) in
    exists rows,
      h' !! titans s' = Some rows /\
      h !! titans s' = None /\
      map name rows =
        ["CTD (Kinetic)"; "OBI (Pressure)"; "LQ  (Elasticity)"; "BASIS";
         match v with VariantA => "WA  (Whale)" | VariantB => "WA" end] /\
      monolith_stars s' + match v with VariantA => 1 | VariantB => 0 end =
        length (List.filter active rows) +
        (if String.eqb (domain_state s) (regime_high v) then 1 else 0).
Proof.
  intros v s h. cbn zeta. rewrite calculateMonolith_judged.
  cbn [fst snd judged titans monolith_stars]. exists (titan_rows v s).
  split; [apply lookup_insert_eq|]. split; [apply fresh_not_allocated|].
  split; [destruct v; reflexivity|].
  destruct v; unfold score_of, star_count_score, four_factor_score, titan_rows,
    whale, regime_high; cbn [List.filter active];
    repeat match goal with
           | |- context [if ?c then _ else _] => destruct c
           end; cbn; lia.
Qed.

(** X13. A message of another stream delivered twice in a row: the second
    tick changes nothing but the titans reference, which points to a new
    array with the same rows. *)
Theorem tick_is_idempotent :
  forall (v : variant) (t1 t2 : num) (e : VoidEngine num) (h : heap num),
    let r1 := onmessage v t1 OtherStream e h in
    let e1 := fst (fst r1) in
    let r2 := onmessage v t2 OtherStream e1 (snd (fst r1)) in
    let e2 := fst (fst r2) in
    state e2 = set_titans (titans (state e2)) (state e1) /\
    titans (state e2) <> titans (state e1) /\
    snd (fst r2) !! titans (state e2) = snd (fst r1) !! titans (state e1) /\
    trades e2 = trades e1 /\ book_bids e2 = book_bids e1 /\
    book_asks e2 = book_asks e1 /\ imbalance_hist e2 = imbalance_hist e1.
Proof.
  intros v t1 t2 e h. cbn zeta. cbn [onmessage].
  rewrite (recompute_judged v e h). cbn [fst snd].
  rewrite recompute_judged. cbn [fst snd state with_state titans judged].
  set (h1 := <[fresh (dom h) := titan_rows v (state (updateRegime v e))]> h).
  assert (Hne : fresh (dom h1) <> fresh (dom h)).
  { intros E. pose proof (fresh_not_allocated h1) as Hf.
    rewrite E in Hf. unfold h1 in Hf. rewrite lookup_insert_eq in Hf.
    discriminate Hf. }
  split; [|split; [exact Hne|split]].
  - unfold updateRegime. cbn [imbalance_hist with_state].
    destruct (10 <? length (imbalance_hist e)) eqn:E; cbn [imbalance_hist with_state];
      rewrite ?E; reflexivity.
  - rewrite lookup_insert_eq. unfold h1. rewrite lookup_insert_eq.
    unfold updateRegime. cbn [imbalance_hist with_state].
    destruct (10 <? length (imbalance_hist e)) eqn:E; cbn [imbalance_hist with_state];
      rewrite ?E; reflexivity.
  - unfold updateRegime. cbn [imbalance_hist with_state].
    destruct (10 <? length (imbalance_hist e)) eqn:E; cbn [imbalance_hist with_state];
      rewrite ?E; repeat split.
Qed.

(** X14. A trade print leaves the book, the pressure and the imbalance
    history alone; a depth delta leaves the trade buffer, the price, the
    kinetic value and the elasticity alone, also when it is abandoned
    half way. *)
Theorem streams_are_independent :
  forall (v : variant) (t_now : num) (e : VoidEngine num) (h : heap num),
    (forall p q m,
        let e' := fst (fst (onmessage v t_now (AggTrade p q m) e h)) in
        book_bids e' = book_bids e /\ book_asks e' = book_asks e /\
        void_pressure (state e') = void_pressure (state e) /\
        imbalance_hist e' = imbalance_hist e) /\
    (forall b a,
        let e' := fst (fst (onmessage v t_now (Depth b a) e h)) in
        trades e' = trades e /\ price (state e') = price (state e) /\
        void_kinetic (state e') = void_kinetic (state e) /\
        void_elasticity (state e') = void_elasticity (state e)).
Proof.
  intros v t_now e h. split.
  - intros p q m. cbn zeta. cbn [onmessage].
    destruct (recompute_frame v (processTrade v t_now p q m e) h)
      as (_ & -> & -> & -> & _ & _ & _ & -> & _).
    destruct (processTrade_frame v t_now p q m e) as (-> & -> & -> & _).
    rewrite processTrade_pressure. repeat split.
  - intros b a. cbn zeta. cbn [onmessage].
    pose proof (processBook_state b a e) as Hb.
    destruct (processBook b a e) as [e1|e1].
    + destruct (recompute_frame v e1 h) as (-> & _ & _ & _ & _ & -> & -> & _ & ->).
      destruct Hb as (-> & -> & -> & _ & _ & _ & _ & -> & _). repeat split.
    + cbn [fst]. destruct Hb as (-> & -> & _). repeat split.
Qed.

Lemma step_onUpdate (v : variant) (w : World num) (a : action num) :
  onUpdate (w_engine (step v w a)) = onUpdate (w_engine w).
Proof.
  destruct a as [t_now msg|i fw|i rows|i f]; cbn [step].
  - destruct msg as [| |p q m|b a|]; cbn [onmessage]; try reflexivity.
    + destruct (recompute_frame v (processTrade v t_now p q m (w_engine w)) (w_heap w))
        as (_ & _ & _ & _ & Hcb & _).
      destruct (processTrade_frame v t_now p q m (w_engine w))
        as (_ & _ & _ & Hcb' & _).
      rewrite Hcb' in Hcb.
      destruct (recompute_and_publish _ _ _) as [[e' h'] pub]. exact Hcb.
    + pose proof (processBook_state b a (w_engine w)) as Hb.
      destruct (processBook b a (w_engine w)) as [e1|e1].
      * destruct (recompute_frame v e1 (w_heap w)) as (_ & _ & _ & _ & Hcb & _).
        destruct Hb as (_ & _ & _ & _ & _ & _ & _ & _ & Hcb').
        rewrite Hcb' in Hcb.
        destruct (recompute_and_publish _ _ _) as [[e' h'] pub]. exact Hcb.
      * apply Hb.
    + destruct (recompute_frame v (w_engine w) (w_heap w)) as (_ & _ & _ & _ & Hcb & _).
      destruct (recompute_and_publish _ _ _) as [[e' h'] pub]. exact Hcb.
  - reflexivity.
  - destruct (w_snapshots w !! i); reflexivity.
  - destruct (w_snapshots w !! i); reflexivity.
Qed.

Lemma step_publishes (v : variant) (w : World num) (a : action num) :
  length (w_snapshots (step v w a)) =
  length (w_snapshots w) +
  (if onUpdate (w_engine w) && completes a then 1 else 0).
Proof.
  assert (Hrec : forall e1,
             onUpdate e1 = onUpdate (w_engine w) ->
             let r := recompute_and_publish v e1 (w_heap w) in
             length (w_snapshots w ++ match snd r with
                                      | Some s => [s]
                                      | None => []
                                      end) =
             length (w_snapshots w) +
             (if onUpdate (w_engine w) then 1 else 0)).
  { intros e1 Hcb. cbn zeta. rewrite recompute_judged, Hcb. cbn [snd].
    rewrite length_app. destruct (onUpdate (w_engine w)); reflexivity. }
  destruct a as [t_now msg|i fw|i rows|i f]; cbn [step].
  - destruct msg as [| |p q m|b a|]; cbn [onmessage completes].
    + rewrite andb_false_r. cbn. rewrite length_app. reflexivity.
    + rewrite andb_false_r. cbn. rewrite length_app. reflexivity.
    + rewrite andb_true_r.
      specialize (Hrec (processTrade v t_now p q m (w_engine w))).
      destruct (processTrade_frame v t_now p q m (w_engine w))
        as (_ & _ & _ & Hcb & _).
      specialize (Hrec Hcb).
      destruct (recompute_and_publish _ _ _) as [[e' h'] pub]. exact Hrec.
    + pose proof (processBook_completes t_now b a (w_engine w)) as Hb.
      pose proof (processBook_state b a (w_engine w)) as Hst.
      destruct (processBook b a (w_engine w)) as [e1|e1].
      * cbn [completes] in Hb. rewrite Hb, andb_true_r.
        specialize (Hrec e1).
        destruct Hst as (_ & _ & _ & _ & _ & _ & _ & _ & Hcb).
        specialize (Hrec Hcb).
        destruct (recompute_and_publish _ _ _) as [[e' h'] pub]. exact Hrec.
      * destruct Hb as [Hb _]. cbn [completes] in Hb. rewrite Hb, andb_false_r.
        cbn. rewrite length_app. reflexivity.
    + rewrite andb_true_r. specialize (Hrec (w_engine w) eq_refl).
      destruct (recompute_and_publish _ _ _) as [[e' h'] pub]. exact Hrec.
  - cbn [completes w_snapshots]. rewrite andb_false_r, length_alter. lia.
  - cbn [completes]. rewrite andb_false_r. destruct (w_snapshots w !! i).
    + unfold alloc. cbn [w_snapshots]. rewrite length_alter. lia.
    + lia.
  - cbn [completes]. rewrite andb_false_r. destruct (w_snapshots w !! i).
    + cbn [w_snapshots]. lia.
    + lia.
Qed.

(** X15. The callback is handed one snapshot for each tick that completes (a
    trade print, a depth delta both sides of which are arrays of pairs, a
    message of another stream) and none for a message that is abandoned,
    a depth delta with a side that is no array or an entry that is no
    pair included; an engine built without a callback hands out nothing.
    The subscriber's writes never change the number of snapshots. *)
Theorem one_snapshot_per_completed_tick :
  forall (v : variant) (callback : bool) (l : list (action num)),
    length (w_snapshots (run v (init_world v callback) l)) =
    if callback then length (List.filter completes l) else 0.
Proof.
  intros v callback l.
  assert (Hcb : forall l, onUpdate (w_engine (run v (init_world v callback) l))
                          = callback).
  { intros l0. induction l0 as [|a l0 IH] using rev_ind; [reflexivity|].
    now rewrite run_snoc, step_onUpdate. }
  induction l as [|a l IH] using rev_ind.
  - destruct callback; reflexivity.
  - rewrite run_snoc, step_publishes, IH, Hcb, List.filter_app, length_app.
    cbn [List.filter]. destruct callback, (completes a); cbn; lia.
Qed.

(** X8. A depth delta, both sides of which are arrays of pairs, that leaves
    a side of the book empty is applied to both maps in full and the tick
    completes: the regime is recomputed from the history, the score, the
    signal and the display rows from the state, and the callback, if any,
    is handed the state; but pressure and imbalance history stay as they
    were. *)
Theorem one_sided_book_keeps_pressure :
  forall (v : variant) (t_now : num) (bids asks : list (num * num))
         (e e' : VoidEngine num) (h h' : heap num) (pub : option (VoidState num)),
    onmessage v t_now (Depth (Some (map Some bids)) (Some (map Some asks))) e h
      = (e', h', pub) ->
    book_bids e' = [] \/ book_asks e' = [] ->
    book_bids e' = fold_left apply_update bids (book_bids e) /\
    book_asks e' = fold_left apply_update asks (book_asks e) /\
    void_pressure (state e') = void_pressure (state e) /\
    imbalance_hist e' = imbalance_hist e /\
    domain_state (state e') =
      (if 10 <? length (imbalance_hist e)
       then classify v (volatility_of (imbalance_hist e))
       else domain_state (state e)) /\
    monolith_stars (state e') = score_of v (state e') /\
    signal (state e') = signal_of v (state e') /\
    titans (state e') = fresh (dom h) /\
    h' = <[fresh (dom h) := titan_rows v (state e')]> h /\
    pub = (if onUpdate e then Some (state e') else None).
Proof.
  intros v t_now bids asks e e' h h' pub. cbn [onmessage].
  rewrite processBook_shape, !all_pairs_map_Some, !reached_map_Some. cbv zeta.
  cbn [book_bids book_asks with_book_bids with_book_asks].
  set (bb := fold_left apply_update bids (book_bids e)).
  set (ba := fold_left apply_update asks (book_asks e)).
  assert (Hone : forall e1,
             book_bids e1 = bb -> book_asks e1 = ba -> state e1 = state e ->
             imbalance_hist e1 = imbalance_hist e -> onUpdate e1 = onUpdate e ->
             recompute_and_publish v e1 h = (e', h', pub) ->
             book_bids e' = bb /\ book_asks e' = ba /\
             void_pressure (state e') = void_pressure (state e) /\
             imbalance_hist e' = imbalance_hist e /\
             domain_state (state e') =
               (if 10 <? length (imbalance_hist e)
                then classify v (volatility_of (imbalance_hist e))
                else domain_state (state e)) /\
             monolith_stars (state e') = score_of v (state e') /\
             signal (state e') = signal_of v (state e') /\
             titans (state e') = fresh (dom h) /\
             h' = <[fresh (dom h) := titan_rows v (state e')]> h /\
             pub = (if onUpdate e then Some (state e') else None)).
  { intros e1 Hb Ha Hst Hh Hcb. rewrite recompute_judged, Hcb.
    intros [= <- <- <-]. unfold updateRegime. rewrite Hh.
    destruct (10 <? length (imbalance_hist e));
      cbn [state with_state judged book_bids book_asks imbalance_hist
           void_pressure domain_state monolith_stars signal titans
           set_domain_state];
      rewrite ?Hst; repeat split; assumption. }
  destruct (@map_keys num bb) as [|kb kbs] eqn:Ebb;
    [|destruct (@map_keys num ba) as [|ka kas] eqn:Eba].
  - intros Hrec _.
    apply (Hone (with_book_asks ba (with_book_bids bb e))); try reflexivity.
    exact Hrec.
  - intros Hrec _.
    apply (Hone (with_book_asks ba (with_book_bids bb e))); try reflexivity.
    exact Hrec.
  - intros Hrec Hside. exfalso.
    match type of Hrec with
    | recompute_and_publish v ?e1 h = _ =>
        destruct (recompute_frame v e1 h) as (_ & Hb & Ha & _)
    end.
    rewrite Hrec in Hb, Ha.
    cbn [fst book_bids book_asks with_imbalance_hist with_state with_book_asks
         with_book_bids] in Hb, Ha.
    destruct Hside as [Hs | Hs].
    + rewrite Hs in Hb. rewrite <- Hb in Ebb. discriminate Ebb.
    + rewrite Hs in Ha. rewrite <- Ha in Eba. discriminate Eba.
Qed.

End Ticks.

(** A first delta with bids only, on doubles: the ask side is empty. *)
Lemma one_sided_book_keeps_pressure_witness :
  let e := init_engine (num:=float) true in
  let h := init_heap (num:=float) VariantA in
  let r := onmessage VariantA (lit 17000000005 1)
                     (Depth (Some [Some (lit 27000 0, lit 5 0)]) (Some [])) e h in
  let e' := fst (fst r) in
  book_bids e' = [(lit 27000 0, lit 5 0)] /\
  book_asks e' = [] /\
  void_pressure (state e') = lit 0 0 /\
  imbalance_hist e' = [] /\
  domain_state (state e') = "CALCULATING" /\
  monolith_stars (state e') = score_of VariantA (state e') /\
  signal (state e') = signal_of VariantA (state e') /\
  titans (state e') = fresh (dom h) /\
  snd (fst r) = <[fresh (dom h) := titan_rows VariantA (state e')]> h /\
  snd r = Some (state e').
Proof.
  refine (one_sided_book_keeps_pressure VariantA (lit 17000000005 1)
            [(lit 27000 0, lit 5 0)] [] (init_engine true) _ (init_heap VariantA)
            _ _ _ _).
  - reflexivity.
  - right. vm_compute. reflexivity.
Defined.

(** ** The star bar of the first view *)

(** X16. Whatever engine state a message meets, the snapshot the callback is
    handed renders: neither [repeat] gets a negative count, and the bar
    has five stars, as many filled as the score. *)
Theorem published_score_renders :
  forall (num : Type) (N : Number num) (R : Sqrt num) (v : variant)
         (t_now : num) (msg : message num) (e : VoidEngine num) (h : heap num)
         (s : VoidState num),
    snd (onmessage v t_now msg e h) = Some s ->
    render_stars (monolith_stars s) =
      Some (repeat FilledStar (monolith_stars s) ++
            repeat EmptyStar (5 - monolith_stars s)) /\
    length (repeat FilledStar (monolith_stars s) ++
            repeat EmptyStar (5 - monolith_stars s)) = 5.
Proof.
  intros num N R v t_now msg e h s Hpub.
  assert (Hle : monolith_stars s <= 5).
  { assert (Hrec : forall e1, snd (recompute_and_publish v e1 h) = Some s ->
                              monolith_stars s <= 5).
    { intros e1. rewrite recompute_judged. cbn [snd].
      destruct (onUpdate e1); [|discriminate]. intros [= <-].
      cbn [monolith_stars judged].
      pose proof (score_of_bound v (state (updateRegime v e1))) as Hb.
      destruct v; cbn [max_score] in Hb; lia. }
    destruct msg as [| |p q m|b a|]; cbn [onmessage] in Hpub;
      try discriminate Hpub; try (eapply Hrec; exact Hpub).
    destruct (processBook b a e) as [e1|e1]; [eapply Hrec; exact Hpub|].
    discriminate Hpub. }
  split.
  - unfold render_stars, js_repeat.
    replace (Z.of_nat (monolith_stars s) <? 0)%Z with false
      by (symmetry; apply Z.ltb_ge; lia).
    replace (5 - Z.of_nat (monolith_stars s) <? 0)%Z with false
      by (symmetry; apply Z.ltb_ge; lia).
    rewrite Nat2Z.id.
    replace (Z.to_nat (5 - Z.of_nat (monolith_stars s)))
      with (5 - monolith_stars s) by lia.
    reflexivity.
  - rewrite length_app, !repeat_length. lia.
Qed.

(** A first trade print on doubles, second file: no star. *)
Lemma published_score_renders_witness :
  let s := snd (onmessage VariantB (lit 17000000005 1)
                          (AggTrade (lit 27000 0) (lit 1 0) false)
                          (init_engine (num:=float) true) (init_heap VariantB)) in
  match s with
  | Some s =>
      render_stars (monolith_stars s) =
        Some (repeat FilledStar (monolith_stars s) ++
              repeat EmptyStar (5 - monolith_stars s)) /\
      length (repeat FilledStar (monolith_stars s) ++
              repeat EmptyStar (5 - monolith_stars s)) = 5
  | None => False
  end.
Proof.
  refine (published_score_renders float _ _ VariantB (lit 17000000005 1)
            (AggTrade (lit 27000 0) (lit 1 0) false)
            (init_engine true) (init_heap VariantB) _ _).
  vm_compute. reflexivity.
Defined.

(** Four deliveries and a write by the subscriber, first file, doubles. *)
Lemma display_rows_follow_metrics_witness :
  let l := [imbalance_quarter 5 3;
            Deliver (lit 17000000005 1) (AggTrade (lit 27000 0) (lit 60 0) false);
            AssignTitans 0 [];
            Deliver (lit 17000000006 1) BadJson] in
  let w := run VariantA (init_world VariantA true) l in
  let s := state (w_engine w) in
  w_heap w !! titans s = Some (titan_rows VariantA s) /\
  monolith_stars s = score_of VariantA s /\ signal s = signal_of VariantA s.
Proof.
  refine (display_rows_follow_metrics VariantA true
            [imbalance_quarter 5 3;
             Deliver (lit 17000000005 1) (AggTrade (lit 27000 0) (lit 60 0) false);
             AssignTitans 0 [];
             Deliver (lit 17000000006 1) BadJson] _).
  repeat constructor.
Defined.

(** ** The book as a replay of the deltas *)

Section BookReplay.
Context {num : Type} `{Number num} `{Sqrt num}.

Lemma processBook_books (b a : option (list (entry num))) (e : VoidEngine num) :
  match processBook b a e with
  | Normal e1 | Thrown e1 =>
      book_bids e1 =
        fold_left apply_update
                  (match b with Some bs => reached bs | None => [] end)
                  (book_bids e) /\
      book_asks e1 =
        fold_left apply_update
                  (match b, a with
                   | Some bs, Some sells =>
                       if all_pairs bs then reached sells else []
                   | _, _ => []
                   end)
                  (book_asks e)
  end.
Proof.
  rewrite processBook_shape. cbv zeta. destruct b as [bs|]; [|split; reflexivity].
  destruct (all_pairs bs); [|destruct a; split; reflexivity].
  destruct a as [sells|]; [|split; reflexivity].
  destruct (all_pairs sells); [|split; reflexivity].
  cbn [book_bids book_asks with_book_bids with_book_asks].
  destruct (map_keys _) as [|kb kbs]; [split; reflexivity|].
  destruct (map_keys _) as [|ka kas]; split; reflexivity.
Qed.

Lemma step_books (v : variant) (w : World num) (a : action num) :
  book_bids (w_engine (step v w a)) =
    fold_left apply_update (applied_bids [a]) (book_bids (w_engine w)) /\
  book_asks (w_engine (step v w a)) =
    fold_left apply_update (applied_asks [a]) (book_asks (w_engine w)).
Proof.
  unfold applied_bids, applied_asks. cbn [flat_map]. rewrite !app_nil_r.
  destruct a as [t_now msg|i fw|i rows|i f]; cbn [step].
  - destruct msg as [| |p q m|b a|]; cbn [onmessage]; try (split; reflexivity).
    + destruct (recompute_frame v (processTrade v t_now p q m (w_engine w)) (w_heap w))
        as (_ & Hb & Ha & _).
      destruct (processTrade_frame v t_now p q m (w_engine w)) as (Hb' & Ha' & _).
      rewrite Hb' in Hb. rewrite Ha' in Ha.
      destruct (recompute_and_publish _ _ _) as [[e' h'] pub]. split; assumption.
    + pose proof (processBook_books b a (w_engine w)) as Hbook.
      destruct (processBook b a (w_engine w)) as [e1|e1].
      * destruct (recompute_frame v e1 (w_heap w)) as (_ & Hb & Ha & _).
        destruct Hbook as [Hb' Ha']. rewrite Hb' in Hb. rewrite Ha' in Ha.
        destruct (recompute_and_publish _ _ _) as [[e' h'] pub].
        destruct b, a; split; assumption.
      * cbn [w_engine]. destruct b, a; exact Hbook.
    + destruct (recompute_frame v (w_engine w) (w_heap w)) as (_ & Hb & Ha & _).
      destruct (recompute_and_publish _ _ _) as [[e' h'] pub]. split; assumption.
  - split; reflexivity.
  - destruct (w_snapshots w !! i); split; reflexivity.
  - destruct (w_snapshots w !! i); split; reflexivity.
Qed.

Lemma run_books (v : variant) (callback : bool) (l : list (action num)) :
  book_bids (w_engine (run v (init_world v callback) l)) =
    fold_left apply_update (applied_bids l) [] /\
  book_asks (w_engine (run v (init_world v callback) l)) =
    fold_left apply_update (applied_asks l) [].
Proof.
  induction l as [|a l [IHb IHa]] using rev_ind; [split; reflexivity|].
  rewrite run_snoc. destruct (step_books v (run v (init_world v callback) l) a)
    as [-> ->].
  unfold applied_bids, applied_asks in *.
  rewrite !flat_map_app, !fold_left_app, <- IHb, <- IHa. split; reflexivity.
Qed.

(** X17. After any run each side of the book is the replay, from an empty
    map and in order, of the updates that reached it: for the bid map,
    of every depth delta whose bid side is an array, the pairs before its
    first entry that cannot be destructured; for the ask map, of every
    depth delta whose bid side is an array of pairs and whose ask side is
    an array, the ask pairs before the first such entry.  Trade prints,
    other messages, the subscriber and the ticks in between play no part,
    and the pairs applied by a delta that was abandoned are in. *)
Theorem book_is_replay_of_deltas :
  forall (v : variant) (callback : bool) (l : list (action num)),
    book_bids (w_engine (run v (init_world v callback) l)) =
      fold_left apply_update (applied_bids l) [] /\
    book_asks (w_engine (run v (init_world v callback) l)) =
      fold_left apply_update (applied_asks l) [].
Proof. exact run_books. Qed.

Hypothesis keys : key_equivalence.

Lemma map_get_equiv (k p : num) (m : JsMap num) :
  same_value_zero k p = true -> map_get k m = map_get p m.
Proof.
  intros Hkp. induction m as [|[k' v'] m IH]; [reflexivity|].
  cbn. destruct (same_value_zero k' k) eqn:E.
  - now rewrite (key_trans keys k' k p E Hkp).
  - destruct (same_value_zero k' p) eqn:E'; [|exact IH].
    rewrite (key_sym keys) in Hkp.
    rewrite (key_trans keys k' p k E' Hkp) in E. discriminate E.
Qed.

Lemma last_update_snoc (k : num) (updates : list (num * num)) (u : num * num) :
  last_update k (updates ++ [u]) =
  if same_value_zero k (fst u) then Some (snd u) else last_update k updates.
Proof. unfold last_update. rewrite fold_left_app. reflexivity. Qed.

Lemma map_get_replay (k : num) (updates : list (num * num)) (m : JsMap num) :
  map_get k (fold_left apply_update updates m) =
  match last_update k updates with
  | Some q => if strict_eq q (lit 0 0) then None else Some q
  | None => map_get k m
  end.
Proof.
  induction updates as [|[p q] updates IH] using rev_ind; [reflexivity|].
  rewrite fold_left_app, last_update_snoc. cbn [fold_left fst snd].
  destruct (same_value_zero k p) eqn:Ekp.
  - rewrite (map_get_equiv k p _ Ekp).
    destruct (strict_eq q (lit 0 0)) eqn:Eq.
    + rewrite (apply_update_zero _ p q Eq). apply map_get_delete.
    + rewrite (apply_update_nonzero _ p q Eq). now apply map_get_set.
  - rewrite <- IH. destruct (strict_eq q (lit 0 0)) eqn:Eq.
    + rewrite (apply_update_zero _ p q Eq). now apply map_get_delete_other.
    + rewrite (apply_update_nonzero _ p q Eq). now apply map_get_set_other.
Qed.

(** X18. The last update wins: after any run, looking a price up on a side of
    the book gives the quantity of the last update for that price that
    reached that side (the updates of [applied_bids] and [applied_asks]),
    and nothing when that quantity was zero or no update for the price
    reached the side. *)
Theorem book_lookup_is_last_update :
  forall (v : variant) (callback : bool) (l : list (action num)) (k : num),
    let e := w_engine (run v (init_world v callback) l) in
    map_get k (book_bids e) =
      match last_update k (applied_bids l) with
      | Some q => if strict_eq q (lit 0 0) then None else Some q
      | None => None
      end /\
    map_get k (book_asks e) =
      match last_update k (applied_asks l) with
      | Some q => if strict_eq q (lit 0 0) then None else Some q
      | None => None
      end.
Proof.
  intros v callback l k. cbn zeta.
  destruct (run_books v callback l) as [-> ->].
  rewrite !map_get_replay. split; reflexivity.
Qed.

End BookReplay.

(** Three deltas on doubles: 27000 is set, then removed; 26999.5 is set
    twice; the asks of the second delta, whose bid side holds an entry
    that is no pair, and the asks of the third, whose bid side is no
    array, never reach the book. *)
Lemma book_lookup_is_last_update_witness :
  let l := [Deliver (lit 17000000005 1)
                    (Depth (Some [Some (lit 27000 0, lit 5 0);
                                  Some (lit 269995 1, lit 1 0)])
                           (Some [Some (lit 27001 0, lit 3 0)]));
            Deliver (lit 17000000006 1)
                    (Depth (Some [Some (lit 27000 0, lit 0 0);
                                  Some (lit 269995 1, lit 2 0); None;
                                  Some (lit 269995 1, lit 4 0)])
                           (Some [Some (lit 27001 0, lit 8 0)]));
            Deliver (lit 17000000007 1)
                    (Depth None (Some [Some (lit 27001 0, lit 9 0)]))] in
  let e := w_engine (run VariantA (init_world VariantA true) l) in
  (map_get (lit 27000 0) (book_bids e) = None /\
   map_get (lit 27000 0) (book_asks e) = None) /\
  (map_get (lit 269995 1) (book_bids e) = Some (lit 2 0) /\
   map_get (lit 269995 1) (book_asks e) = None) /\
  (map_get (lit 27001 0) (book_bids e) = None /\
   map_get (lit 27001 0) (book_asks e) = Some (lit 3 0)).
Proof.
  split; [|split].
  - refine (book_lookup_is_last_update float_keys VariantA true _ (lit 27000 0)).
  - refine (book_lookup_is_last_update float_keys VariantA true _ (lit 269995 1)).
  - refine (book_lookup_is_last_update float_keys VariantA true _ (lit 27001 0)).
Defined.

(** ** The order of doubles and the top of the book *)

Section Order.
Local Open Scope Z_scope.

Lemma ulps_below (m : positive) (e : Z) :
  bounded prec emax m e = true -> 0 < ulps m e < 2 ^ (emax - emin).
Proof.
  intros Hb. pose proof (bounded_emin m e Hb) as He.
  split; [now apply ulps_pos|].
  apply andb_prop in Hb. destruct Hb as [Hc Hmax]. apply Z.leb_le in Hmax.
  destruct (canonical_digits prec emax m e Hc) as (Hd & _ & _).
  pose proof (digits2_pos_bounds m) as [_ U].
  assert (Hp : 0 < prec) by reflexivity.
  assert (Hq : 0 <= emax - prec - emin) by (vm_compute; discriminate).
  assert (Hm : 2 ^ Zpos (digits2_pos m) <= 2 ^ prec)
    by (apply Z.pow_le_mono_r; lia).
  assert (Hx : 2 ^ (e - emin) <= 2 ^ (emax - prec - emin))
    by (apply Z.pow_le_mono_r; lia).
  assert (Hx0 : 0 < 2 ^ (e - emin)) by (apply Z.pow_pos_nonneg; lia).
  unfold ulps.
  replace (emax - emin) with (prec + (emax - prec - emin)) by lia.
  rewrite Z.pow_add_r by lia.
  set (P := 2 ^ prec) in *. set (X := 2 ^ (emax - prec - emin)) in *.
  set (x := 2 ^ (e - emin)) in *.
  apply Z.lt_le_trans with (P * x); [nia|].
  apply Z.mul_le_mono_nonneg_l; lia.
Qed.

(** On valid numbers other than NaN, [SFcompare] is the order of the
    ordinals. *)
Lemma SFcompare_ordinal (x y : spec_float) :
  SpecFloat.valid_binary prec emax x = true ->
  SpecFloat.valid_binary prec emax y = true ->
  x <> S754_nan -> y <> S754_nan ->
  SFcompare x y = Some (SFordinal x ?= SFordinal y).
Proof.
  intros Hx Hy Nx Ny.
  assert (HB : 0 < 2 ^ (emax - emin)).
  { apply Z.pow_pos_nonneg; [lia | vm_compute; discriminate]. }
  destruct x as [sx|sx| |sx mx ex]; [| |congruence|];
    destruct y as [sy|sy| |sy my ey]; try congruence;
    cbn [SpecFloat.valid_binary] in Hx, Hy;
    try pose proof (ulps_below mx ex Hx) as Ux;
    try pose proof (ulps_below my ey Hy) as Uy;
    cbn [SFordinal].
  1-8: cbn [SFcompare]; set (B := 2 ^ (emax - emin)) in *;
       try destruct sx; try destruct sy; f_equal; symmetry;
       first [apply Z.compare_eq_iff; lia | apply Z.compare_lt_iff; lia
             | apply Z.compare_gt_iff; lia].
  destruct sx, sy.
  - rewrite SFcompare_negative.
    apply andb_prop in Hx, Hy. destruct Hx as [Hcx _], Hy as [Hcy _].
    rewrite (SFcompare_canonical prec emax prec_positive my mx ey ex emin Hcy Hcx).
    + fold (ulps my ey) (ulps mx ex). now rewrite Z.compare_opp.
    + apply (canonical_digits prec emax my ey Hcy).
    + apply (canonical_digits prec emax mx ex Hcx).
  - cbn [SFcompare]. f_equal. symmetry. apply Z.compare_lt_iff. lia.
  - cbn [SFcompare]. f_equal. symmetry. apply Z.compare_gt_iff. lia.
  - apply andb_prop in Hx, Hy. destruct Hx as [Hcx _], Hy as [Hcy _].
    rewrite (SFcompare_canonical prec emax prec_positive mx my ex ey emin Hcx Hcy).
    + reflexivity.
    + apply (canonical_digits prec emax mx ex Hcx).
    + apply (canonical_digits prec emax my ey Hcy).
Qed.

Lemma float_not_nan (a : float) :
  PrimFloat.is_nan a = false -> Prim2SF a <> S754_nan.
Proof.
  unfold PrimFloat.is_nan. rewrite FloatAxioms.eqb_spec. intros Hn E.
  rewrite E in Hn. discriminate Hn.
Qed.

Lemma float_ltb_ordinal (a b : float) :
  PrimFloat.is_nan a = false -> PrimFloat.is_nan b = false ->
  PrimFloat.ltb a b = (float_ordinal a <? float_ordinal b).
Proof.
  intros Na Nb. rewrite ltb_spec. unfold SFltb, float_ordinal, Z.ltb.
  rewrite (SFcompare_ordinal _ _ (Prim2SF_valid a) (Prim2SF_valid b)
             (float_not_nan a Na) (float_not_nan b Nb)).
  reflexivity.
Qed.

Lemma float_eqb_ordinal (a b : float) :
  PrimFloat.is_nan a = false -> PrimFloat.is_nan b = false ->
  PrimFloat.eqb a b = (float_ordinal a =? float_ordinal b).
Proof.
  intros Na Nb. rewrite FloatAxioms.eqb_spec. unfold SFeqb, float_ordinal.
  rewrite (SFcompare_ordinal _ _ (Prim2SF_valid a) (Prim2SF_valid b)
             (float_not_nan a Na) (float_not_nan b Nb)).
  destruct (Z.compare_spec (SFordinal (Prim2SF a)) (SFordinal (Prim2SF b)));
    symmetry; [apply Z.eqb_eq | apply Z.eqb_neq | apply Z.eqb_neq]; lia.
Qed.

(** [Math.max] and [Math.min] of two numbers, neither NaN: one of the
    two, and the larger, the smaller. *)
Lemma float_max_spec (a b : float) :
  PrimFloat.is_nan a = false -> PrimFloat.is_nan b = false ->
  (float_max a b = a \/ float_max a b = b) /\
  float_ordinal (float_max a b) = Z.max (float_ordinal a) (float_ordinal b).
Proof.
  intros Na Nb. unfold float_max. rewrite Na, Nb.
  rewrite (float_ltb_ordinal a b Na Nb), (float_ltb_ordinal b a Nb Na).
  destruct (float_ordinal a <? float_ordinal b) eqn:E1.
  { apply Z.ltb_lt in E1. split; [now right | lia]. }
  destruct (float_ordinal b <? float_ordinal a) eqn:E2.
  { apply Z.ltb_lt in E2. split; [now left | lia]. }
  apply Z.ltb_ge in E1, E2.
  destruct (float_is_neg_zero a); (split; [auto | lia]).
Qed.

Lemma float_min_spec (a b : float) :
  PrimFloat.is_nan a = false -> PrimFloat.is_nan b = false ->
  (float_min a b = a \/ float_min a b = b) /\
  float_ordinal (float_min a b) = Z.min (float_ordinal a) (float_ordinal b).
Proof.
  intros Na Nb. unfold float_min. rewrite Na, Nb.
  rewrite (float_ltb_ordinal a b Na Nb), (float_ltb_ordinal b a Nb Na).
  destruct (float_ordinal a <? float_ordinal b) eqn:E1.
  { apply Z.ltb_lt in E1. split; [now left | lia]. }
  destruct (float_ordinal b <? float_ordinal a) eqn:E2.
  { apply Z.ltb_lt in E2. split; [now right | lia]. }
  apply Z.ltb_ge in E1, E2.
  destruct (float_is_neg_zero a); (split; [auto | lia]).
Qed.

(** [Math.max(...keys)], no key NaN: one of the keys, and none above. *)
Lemma math_max_spec (k : float) (ks : list float) :
  Forall (fun x => PrimFloat.is_nan x = false) (k :: ks) ->
  In (math_max k ks) (k :: ks) /\
  PrimFloat.is_nan (math_max k ks) = false /\
  Forall (fun x => float_ordinal x <= float_ordinal (math_max k ks)) (k :: ks).
Proof.
  unfold math_max. revert k. induction ks as [|c ks IH]; intros k Hn.
  - inversion Hn; subst. cbn [fold_left]. repeat split; [now left|assumption|].
    constructor; [lia | constructor].
  - inversion Hn as [|? ? Nk Hrest]; subst. inversion Hrest as [|? ? Nc Hks]; subst.
    cbn [fold_left]. change (nmax k c) with (float_max k c).
    destruct (float_max_spec k c Nk Nc) as [Hor Hord].
    assert (Nm : PrimFloat.is_nan (float_max k c) = false)
      by (destruct Hor as [-> | ->]; assumption).
    destruct (IH (float_max k c) ltac:(constructor; assumption)) as (Hin & Hnan & Hall).
    split; [|split; [exact Hnan|]].
    + destruct Hin as [E | Hin]; [|right; right; exact Hin].
      rewrite <- E. destruct Hor as [-> | ->]; [left | right; left]; reflexivity.
    + inversion Hall as [|? ? Hm Hks']; subst.
      constructor; [lia|]. constructor; [lia | exact Hks'].
Qed.

Lemma math_min_spec (k : float) (ks : list float) :
  Forall (fun x => PrimFloat.is_nan x = false) (k :: ks) ->
  In (math_min k ks) (k :: ks) /\
  PrimFloat.is_nan (math_min k ks) = false /\
  Forall (fun x => float_ordinal (math_min k ks) <= float_ordinal x) (k :: ks).
Proof.
  unfold math_min. revert k. induction ks as [|c ks IH]; intros k Hn.
  - inversion Hn; subst. cbn [fold_left]. repeat split; [now left|assumption|].
    constructor; [lia | constructor].
  - inversion Hn as [|? ? Nk Hrest]; subst. inversion Hrest as [|? ? Nc Hks]; subst.
    cbn [fold_left]. change (nmin k c) with (float_min k c).
    destruct (float_min_spec k c Nk Nc) as [Hor Hord].
    assert (Nm : PrimFloat.is_nan (float_min k c) = false)
      by (destruct Hor as [-> | ->]; assumption).
    destruct (IH (float_min k c) ltac:(constructor; assumption)) as (Hin & Hnan & Hall).
    split; [|split; [exact Hnan|]].
    + destruct Hin as [E | Hin]; [|right; right; exact Hin].
      rewrite <- E. destruct Hor as [-> | ->]; [left | right; left]; reflexivity.
    + inversion Hall as [|? ? Hm Hks']; subst.
      constructor; [lia|]. constructor; [lia | exact Hks'].
Qed.

End Order.

(** Looking up a key that is among the keys finds a level of that price. *)
Lemma map_get_hit (k : float) (m : JsMap float) :
  In k (map_keys m) ->
  exists k' q, In (k', q) m /\ same_value_zero k' k = true /\
               map_get k m = Some q.
Proof.
  unfold map_keys. induction m as [|[k0 q0] m IH]; [intros []|].
  cbn [map fst map_get]. intros Hin.
  destruct (same_value_zero k0 k) eqn:E.
  - exists k0, q0. split; [now left|]. split; [exact E | reflexivity].
  - destruct Hin as [-> | Hin]; [now rewrite (key_refl float_keys) in E|].
    destruct (IH Hin) as (k' & q & Hin' & Hk & Hg).
    exists k', q. split; [now right|]. split; assumption.
Qed.

Lemma same_value_zero_ordinal (a b : float) :
  PrimFloat.is_nan a = false -> PrimFloat.is_nan b = false ->
  same_value_zero a b = true -> float_ordinal a = float_ordinal b.
Proof.
  intros Na Nb. cbn [same_value_zero float_Number].
  unfold float_same_value_zero. rewrite Na, (float_eqb_ordinal a b Na Nb).
  cbn [andb]. rewrite orb_false_r. apply Z.eqb_eq.
Qed.

Lemma Forall_keys_levels (P : float -> Prop) (m : JsMap float) :
  Forall (fun level => P (fst level)) m -> Forall P (map_keys m).
Proof. unfold map_keys. intros Hm. now apply Forall_map. Qed.

(** X19. On doubles, when a delta leaves both sides non-empty and no price of
    the book is NaN, pressure is the ratio of the quantities at a bid
    level that no bid price exceeds and at an ask level that no ask price
    undercuts, a quantity that is NaN counting as zero. *)
Theorem pressure_reads_top_of_book :
  forall (bids asks : list (entry float)) (e e' : VoidEngine float),
    processBook (Some bids) (Some asks) e = Normal e' ->
    book_bids e' <> [] -> book_asks e' <> [] ->
    Forall (fun level => PrimFloat.is_nan (fst level) = false) (book_bids e') ->
    Forall (fun level => PrimFloat.is_nan (fst level) = false) (book_asks e') ->
    exists best_bid bid_qty best_ask ask_qty,
      In (best_bid, bid_qty) (book_bids e') /\
      Forall (fun level => PrimFloat.ltb best_bid (fst level) = false)
             (book_bids e') /\
      In (best_ask, ask_qty) (book_asks e') /\
      Forall (fun level => PrimFloat.ltb (fst level) best_ask = false)
             (book_asks e') /\
      void_pressure (state e') =
        pressure_ratio (quantity_or_zero bid_qty) (quantity_or_zero ask_qty).
Proof.
  intros bids asks e e' Hbook Hb Ha Nb Na.
  destruct (processBook_two_sided bids asks e e' Hbook Hb Ha) as (_ & _ & -> & _).
  unfold best_bid_volume, best_ask_volume, get_or_zero.
  pose proof (Forall_keys_levels (fun k => PrimFloat.is_nan k = false) _ Nb) as Nkb.
  pose proof (Forall_keys_levels (fun k => PrimFloat.is_nan k = false) _ Na) as Nka.
  destruct (map_keys (book_bids e')) as [|kb kbs] eqn:Ekb.
  { destruct (book_bids e'); [congruence | discriminate Ekb]. }
  destruct (map_keys (book_asks e')) as [|ka kas] eqn:Eka.
  { destruct (book_asks e'); [congruence | discriminate Eka]. }
  destruct (math_max_spec kb kbs Nkb) as (Hinb & Nmax & Hmax).
  destruct (math_min_spec ka kas Nka) as (Hina & Nmin & Hmin).
  rewrite <- Ekb in Hinb, Hmax. rewrite <- Eka in Hina, Hmin.
  destruct (map_get_hit _ _ Hinb) as (bb & qb & Hlb & Hkb & ->).
  destruct (map_get_hit _ _ Hina) as (ba & qa & Hla & Hka & ->).
  assert (Nbb : PrimFloat.is_nan bb = false).
  { rewrite List.Forall_forall in Nb. exact (Nb _ Hlb). }
  assert (Nba : PrimFloat.is_nan ba = false).
  { rewrite List.Forall_forall in Na. exact (Na _ Hla). }
  pose proof (same_value_zero_ordinal _ _ Nbb Nmax Hkb) as Ob.
  pose proof (same_value_zero_ordinal _ _ Nba Nmin Hka) as Oa.
  exists bb, qb, ba, qa. repeat split; try assumption.
  - rewrite List.Forall_forall in *. intros [k q] Hl. cbn [fst].
    assert (Nk : PrimFloat.is_nan k = false) by exact (Nb _ Hl).
    rewrite (float_ltb_ordinal bb k Nbb Nk). apply Z.ltb_ge. rewrite Ob.
    apply Hmax. unfold map_keys. apply (in_map fst _ _ Hl).
  - rewrite List.Forall_forall in *. intros [k q] Hl. cbn [fst].
    assert (Nk : PrimFloat.is_nan k = false) by exact (Na _ Hl).
    rewrite (float_ltb_ordinal k ba Nk Nba). apply Z.ltb_ge. rewrite Oa.
    apply Hmin. unfold map_keys. apply (in_map fst _ _ Hl).
Qed.

(** Two bid levels and two ask levels: the ratio is read at 27000 and
    27001. *)
Lemma pressure_reads_top_of_book_witness :
  let e' := with_imbalance_hist [lit 5 1]
              (with_state (set_void_pressure (lit 5 1) init_state)
                 (with_book_asks [(lit 27002 0, lit 7 0); (lit 27001 0, lit 1 0)]
                    (with_book_bids [(lit 269995 1, lit 9 0); (lit 27000 0, lit 3 0)]
                       (init_engine (num:=float) true)))) in
  exists best_bid bid_qty best_ask ask_qty,
    In (best_bid, bid_qty) (book_bids e') /\
    Forall (fun level => PrimFloat.ltb best_bid (fst level) = false)
           (book_bids e') /\
    In (best_ask, ask_qty) (book_asks e') /\
    Forall (fun level => PrimFloat.ltb (fst level) best_ask = false)
           (book_asks e') /\
    void_pressure (state e') =
      pressure_ratio (quantity_or_zero bid_qty) (quantity_or_zero ask_qty).
Proof.
  refine (pressure_reads_top_of_book
            [Some (lit 269995 1, lit 9 0); Some (lit 27000 0, lit 3 0)]
            [Some (lit 27002 0, lit 7 0); Some (lit 27001 0, lit 1 0)]
            (init_engine true) _ _ _ _ _ _).
  - vm_compute. reflexivity.
  - discriminate.
  - discriminate.
  - repeat constructor.
  - repeat constructor.
Defined.

(** ** Verdicts on doubles *)

Section VerdictOrder.
Local Open Scope Z_scope.

Lemma float_is_nan_spec (a : float) :
  PrimFloat.is_nan a = match Prim2SF a with S754_nan => true | _ => false end.
Proof.
  unfold PrimFloat.is_nan. rewrite FloatAxioms.eqb_spec.
  destruct (Prim2SF a) as [s|[|]| |s m e]; try reflexivity.
  now rewrite SFeqb_finite_refl.
Qed.

(** A comparison that holds has no NaN on either side. *)
Lemma float_ltb_not_nan (a b : float) :
  PrimFloat.ltb a b = true ->
  PrimFloat.is_nan a = false /\ PrimFloat.is_nan b = false.
Proof.
  rewrite ltb_spec, !float_is_nan_spec. unfold SFltb.
  destruct (Prim2SF a) as [sa|sa| |sa ma ea], (Prim2SF b) as [sb|sb| |sb mb eb];
    try discriminate; split; reflexivity.
Qed.

Lemma float_ltb_lt (a b : float) :
  PrimFloat.ltb a b = true -> float_ordinal a < float_ordinal b.
Proof.
  intros Hlt. destruct (float_ltb_not_nan a b Hlt) as [Na Nb].
  rewrite (float_ltb_ordinal a b Na Nb) in Hlt. now apply Z.ltb_lt.
Qed.

Lemma ulps_nonneg (m : positive) (e : Z) : 0 <= ulps m e.
Proof. unfold ulps. pose proof (Z.pow_nonneg 2 (e - emin)). nia. Qed.

Lemma float_abs_ordinal (a : float) :
  float_ordinal (PrimFloat.abs a) = Z.abs (float_ordinal a).
Proof.
  unfold float_ordinal. rewrite abs_spec.
  assert (HB : 0 <= 2 ^ (emax - emin)) by (apply Z.pow_nonneg; lia).
  destruct (Prim2SF a) as [s|[|]| |[|] m e]; cbn [SFabs SFordinal];
    try pose proof (ulps_nonneg m e); lia.
Qed.

Lemma float_abs_is_nan (a : float) :
  PrimFloat.is_nan (PrimFloat.abs a) = PrimFloat.is_nan a.
Proof.
  rewrite !float_is_nan_spec, abs_spec. destruct (Prim2SF a); reflexivity.
Qed.

Lemma float_ordinal_zero : float_ordinal (lit 0 0) = 0.
Proof. vm_compute. reflexivity. Qed.

Lemma float_ordinal_fifty : 0 < float_ordinal (lit 50 0).
Proof. vm_compute. reflexivity. Qed.

(** A double is below zero as soon as it is not above zero and its
    magnitude is above fifty. *)
Lemma float_below_zero (k : float) :
  gtb (nabs k) (lit 50 0) = true -> gtb k (lit 0 0) = false ->
  ltb k (lit 0 0) = true.
Proof.
  unfold gtb. cbn [ltb nabs float_Number]. intros Habs Hpos.
  destruct (float_ltb_not_nan _ _ Habs) as [_ Nk].
  rewrite float_abs_is_nan in Nk.
  apply float_ltb_lt in Habs. rewrite float_abs_ordinal in Habs.
  pose proof float_ordinal_fifty as H50.
  assert (N0 : PrimFloat.is_nan (lit 0 0) = false) by (vm_compute; reflexivity).
  rewrite (float_ltb_ordinal _ _ N0 Nk) in Hpos.
  rewrite (float_ltb_ordinal _ _ Nk N0).
  rewrite float_ordinal_zero in *. apply Z.ltb_ge in Hpos. apply Z.ltb_lt. lia.
Qed.

End VerdictOrder.

(** A score of four or more has the kinetic factor or the whale factor. *)
Lemma star_count_four (s : VoidState float) :
  4 <= star_count_score s ->
  gtb (nabs (void_kinetic s)) (lit 50 0) = true \/
  (gtb (void_kinetic s) (lit 0 0) && gtb (void_pressure s) (lit 0 0))
  || (ltb (void_kinetic s) (lit 0 0) && ltb (void_pressure s) (lit 0 0)) = true.
Proof.
  unfold star_count_score.
  destruct (gtb (nabs (void_kinetic s)) (lit 50 0)); [now left|].
  destruct ((gtb (void_kinetic s) (lit 0 0) && gtb (void_pressure s) (lit 0 0))
            || (ltb (void_kinetic s) (lit 0 0) && ltb (void_pressure s) (lit 0 0)));
    [now right|].
  destruct (gtb (nabs (void_pressure s)) (lit 3 1)),
           (gtb (nabs (void_elasticity s)) (lit 2 0)),
           (String.eqb (domain_state s) "VOLATILITY"); cbn; lia.
Qed.

(** X20. First file, doubles: after any run an EXECUTE verdict points the way
    of the kinetic value.  EXECUTE LONG is shown only with kinetic above
    zero and EXECUTE SHORT only with kinetic below zero: the verdict's
    [else] branch is never taken with a kinetic value of zero or NaN. *)
Theorem execute_follows_kinetic_sign :
  forall (callback : bool) (l : list (action float)),
    let s := state (w_engine (run VariantA (init_world VariantA callback) l)) in
    (signal s = "EXECUTE LONG" -> ltb (lit 0 0) (void_kinetic s) = true) /\
    (signal s = "EXECUTE SHORT" -> ltb (void_kinetic s) (lit 0 0) = true).
Proof.
  intros callback l. cbn zeta.
  pose proof (run_judged VariantA callback l) as Hj. cbn zeta in Hj.
  destruct (existsb completes l).
  2:{ rewrite Hj. split; discriminate. }
  destruct Hj as [_ Hsig].
  set (s := state (w_engine (run VariantA (init_world VariantA callback) l))) in *.
  rewrite Hsig. unfold signal_of, star_count_signal.
  pose proof (star_count_four s) as Hfour.
  destruct (star_count_score s) as [|[|[|[|n]]]]; try (split; discriminate).
  specialize (Hfour ltac:(lia)).
  destruct (gtb (void_kinetic s) (lit 0 0)) eqn:Hpos.
  - split; [intros _; exact Hpos | discriminate].
  - split; [discriminate|]. intros _.
    destruct Hfour as [Hk | Hw]; [now apply float_below_zero|].
    try rewrite Hpos in Hw. cbn [andb orb] in Hw.
    apply andb_prop in Hw. apply Hw.
Qed.

(** A thin ask side, then two large sells one dollar apart: four factors
    and kinetic -120. *)
Lemma execute_follows_kinetic_sign_witness :
  let l := [Deliver (lit 17000000005 1)
                    (Depth (Some [Some (lit 27000 0, lit 1 0)])
                           (Some [Some (lit 27001 0, lit 3 0)]));
            Deliver (lit 17000000005 1) (AggTrade (lit 27000 0) (lit 60 0) true);
            Deliver (lit 17000000006 1) (AggTrade (lit 26999 0) (lit 60 0) true)] in
  let s := state (w_engine (run VariantA (init_world VariantA true) l)) in
  signal s = "EXECUTE SHORT" /\ ltb (void_kinetic s) (lit 0 0) = true.
Proof.
  cbn zeta. split; [vm_compute; reflexivity|].
  refine (proj2 (execute_follows_kinetic_sign true _) _).
  vm_compute. reflexivity.
Defined.

(** X21. Second file, doubles: the four guards of the signal exclude one
    another, so each label is shown exactly when its own guard holds and
    OBSERVE exactly when none does; the order of the tests plays no
    part. *)
Theorem trap_break_labels_are_exclusive :
  forall (s : VoidState float) (h : heap float),
    let k := void_kinetic s in
    let e := void_elasticity s in
    let shown := signal (fst (calculateMonolithB s h)) in
    let short_trap := gtb k (lit 50 0) && ltb e (lit 5 1) in
    let long_break := gtb k (lit 50 0) && gtb e (lit 2 0) in
    let long_trap := ltb k (lit (-50) 0) && gtb e (lit (-5) 1) in
    let short_break := ltb k (lit (-50) 0) && ltb e (lit (-2) 0) in
    (shown = "SHORT (TRAP)" <-> short_trap = true) /\
    (shown = "LONG (BREAK)" <-> long_break = true) /\
    (shown = "LONG (TRAP)" <-> long_trap = true) /\
    (shown = "SHORT (BREAK)" <-> short_break = true) /\
    (shown = "OBSERVE" <->
     short_trap || long_break || long_trap || short_break = false).
Proof.
  intros s h. cbn zeta. rewrite calculateMonolithB_signal.
  unfold trap_break_guards, gtb. cbn [ltb float_Number first_match].
  set (k := void_kinetic s). set (e := void_elasticity s).
  assert (Hk : PrimFloat.ltb (lit 50 0) k = true ->
               PrimFloat.ltb k (lit (-50) 0) = true -> False).
  { intros H1 H2. apply float_ltb_lt in H1, H2.
    assert (float_ordinal (lit (-50) 0) < float_ordinal (lit 50 0))%Z
      by (apply Z.ltb_lt; vm_compute; reflexivity).
    lia. }
  assert (He : PrimFloat.ltb e (lit 5 1) = true ->
               PrimFloat.ltb (lit 2 0) e = true -> False).
  { intros H1 H2. apply float_ltb_lt in H1, H2.
    assert (float_ordinal (lit 5 1) < float_ordinal (lit 2 0))%Z
      by (apply Z.ltb_lt; vm_compute; reflexivity).
    lia. }
  assert (He' : PrimFloat.ltb (lit (-5) 1) e = true ->
                PrimFloat.ltb e (lit (-2) 0) = true -> False).
  { intros H1 H2. apply float_ltb_lt in H1, H2.
    assert (float_ordinal (lit (-2) 0) < float_ordinal (lit (-5) 1))%Z
      by (apply Z.ltb_lt; vm_compute; reflexivity).
    lia. }
  destruct (PrimFloat.ltb (lit 50 0) k) eqn:K1,
           (PrimFloat.ltb k (lit (-50) 0)) eqn:K2;
    try (exfalso; now apply Hk);
    destruct (PrimFloat.ltb e (lit 5 1)) eqn:E1,
             (PrimFloat.ltb (lit 2 0) e) eqn:E2;
    try (exfalso; now apply He);
    destruct (PrimFloat.ltb (lit (-5) 1) e) eqn:E3,
             (PrimFloat.ltb e (lit (-2) 0)) eqn:E4;
    try (exfalso; now apply He');
    cbn [andb orb]; repeat split; intros; try discriminate; reflexivity.
Qed.
